(** * apple-vision-migaku-ocr: the OCR pipeline, shallowly embedded

    The repository is four Python scripts: [ocr_core.py] (crop parsing,
    cropping, the OCR adapter with its overlay cleanup, the single-shot
    utility), [window_ocrmac.py] (the window-capture utility with the
    [auto] backend policy), [ocr_daemon.py] (the hotkey daemon) and
    [migaku_clipboard_focus.py].

    Python [str] values are lists of code points, regular expressions are
    a small pattern datatype run by a backtracking matcher, [float] is
    binary64 as specified by [SpecFloat], and the operating-system
    services (window list, screen capture, recognition engines, clipboard,
    process launch) are oracles of an environment record whose
    invocations are recorded in a trace. *)

From Stdlib Require Import String Ascii.
From Stdlib Require Import ZArith NArith List Bool Lia.
From Stdlib Require Import SpecFloat.
Import ListNotations.

Set Implicit Arguments.

(* ================================================================= *)
(** ** Python strings *)

(** A [str] is a sequence of Unicode code points. *)
Definition char := N.
Definition str := list char.

(** A literal of the source, written as a Rocq string (ASCII only). *)
Definition lit (s : string) : str := map N_of_ascii (list_ascii_of_string s).
Arguments lit s%_string.

Fixpoint str_eqb (a b : str) : bool :=
  match a, b with
  | [], [] => true
  | x :: a', y :: b' => (x =? y)%N && str_eqb a' b'
  | _, _ => false
  end.

(** The ASCII rows of the interpreter's character tables. *)
Definition ascii_isspace (c : char) : bool :=
  ((9 <=? c) && (c <=? 13) || (28 <=? c) && (c <=? 32))%N.
Definition ascii_isdecimal (c : char) : bool :=
  ((48 <=? c) && (c <=? 57))%N.
Definition ascii_isalnum (c : char) : bool :=
  (ascii_isdecimal c || (65 <=? c) && (c <=? 90) || (97 <=? c) && (c <=? 122))%N.
Definition ascii_lower (c : char) : char :=
  (if (65 <=? c) && (c <=? 90) then c + 32 else c)%N.

(** The Unicode character database as CPython consults it.  The tables
    themselves are not part of the repository, so they are an interface:
    [isspace] is [Py_UNICODE_ISSPACE] (used by [str.strip], by truth tests
    on [s.strip()] and by the regex class [\s]), [isdecimal] is
    [Py_UNICODE_ISDECIMAL] (regex [\d], digits of [float()]), [isalnum]
    is [Py_UNICODE_ISALNUM] (regex [\w] is alnum or underscore), and
    [lower] is [str.lower].  The laws are the facts of the database the
    proofs use: decimal digits are alphanumeric, white space is not, and
    the three ASCII rows are the ones above. *)
Class Unicode := {
  isspace : char -> bool;
  isdecimal : char -> bool;
  isalnum : char -> bool;
  decimal_value : char -> N;
  lower : str -> str;
  decimal_alnum : forall c, isdecimal c = true -> isalnum c = true;
  space_not_alnum : forall c, isspace c = true -> isalnum c = false;
  ascii_space : forall c, (c < 128)%N -> isspace c = ascii_isspace c;
  ascii_decimal : forall c, (c < 128)%N -> isdecimal c = ascii_isdecimal c;
  ascii_alnum : forall c, (c < 128)%N -> isalnum c = ascii_isalnum c;
  ascii_value : forall c, (48 <= c <= 57)%N -> decimal_value c = (c - 48)%N
}.

Section Strings.
Context {U : Unicode}.

(** [\w] of a [str] pattern. *)
Definition isword (c : char) : bool := isalnum c || (c =? 95)%N.

Fixpoint lstrip (s : str) : str :=
  match s with
  | c :: s' => if isspace c then lstrip s' else s
  | [] => []
  end.

Definition rstrip (s : str) : str := rev (lstrip (rev s)).

(** [s.strip()] *)
Definition strip (s : str) : str := rstrip (lstrip s).

(** Truth value of a string: [if s], [not s]. *)
Definition truthy (s : str) : bool :=
  match s with [] => false | _ => true end.

(** ["".join(parts)] *)
Definition join (parts : list str) : str := concat parts.

Fixpoint starts_with (needle s : str) : bool :=
  match needle, s with
  | [], _ => true
  | a :: needle', b :: s' => (a =? b)%N && starts_with needle' s'
  | _ :: _, [] => false
  end.

(** [needle in s] *)
Fixpoint contains (needle s : str) : bool :=
  starts_with needle s ||
  match s with
  | [] => false
  | _ :: s' => contains needle s'
  end.

(** [s.split(sep)] for a one-character separator. *)
Fixpoint split (sep : char) (s : str) : list str :=
  match s with
  | [] => [[]]
  | c :: s' =>
      if (c =? sep)%N then [] :: split sep s'
      else match split sep s' with
           | p :: ps => (c :: p) :: ps
           | [] => [[c]]
           end
  end.

(* ================================================================= *)
(** ** Regular expressions ([re.sub]) *)

(** The two patterns of [ocr_core.py] are built from literals, the word
    boundary [\b], and greedy repetitions of a character class with a
    lower bound ([\d+], [\s{2,}]), inside one top-level alternation. *)
Inductive category := Digit | Space.

Definition in_category (k : category) (c : char) : bool :=
  match k with
  | Digit => isdecimal c
  | Space => isspace c
  end.

Inductive atom :=
| Lit (c : char)
| WordBoundary
| Rep (k : category) (min : nat).

Definition pattern := list (list atom).

(** A position in the subject: the character before it, if any, and the
    rest of the subject. *)
Record cursor := Cursor { before : option char; after : str }.

Definition isword_opt (o : option char) : bool :=
  match o with Some c => isword c | None => false end.

(** [\b]: exactly one side of the position is a word character. *)
Definition at_boundary (cur : cursor) : bool :=
  xorb (isword_opt (before cur)) (isword_opt (hd_error (after cur))).

(** Greedy repetition with backtracking: take one more character of the
    class when possible and only if the rest of the pattern then fails
    stop here, provided [min] characters were taken. *)
Fixpoint rep_greedy (k : category) (min : nat) (cont : cursor -> option cursor)
    (taken : nat) (prev : option char) (s : str) : option cursor :=
  let stop := if (min <=? taken)%nat then cont (Cursor prev s) else None in
  match s with
  | c :: s' =>
      if in_category k c then
        match rep_greedy k min cont (S taken) (Some c) s' with
        | Some r => Some r
        | None => stop
        end
      else stop
  | [] => stop
  end.

Fixpoint match_atoms (p : list atom) : cursor -> option cursor :=
  match p with
  | [] => fun cur => Some cur
  | Lit c :: p' => fun cur =>
      match after cur with
      | x :: s' => if (x =? c)%N then match_atoms p' (Cursor (Some x) s') else None
      | [] => None
      end
  | WordBoundary :: p' => fun cur =>
      if at_boundary cur then match_atoms p' cur else None
  | Rep k min :: p' => fun cur =>
      rep_greedy k min (match_atoms p') 0 (before cur) (after cur)
  end.

(** Alternatives are tried in order; the first that matches wins. *)
Fixpoint match_here (p : pattern) (cur : cursor) : option cursor :=
  match p with
  | [] => None
  | alt :: p' =>
      match match_atoms alt cur with
      | Some r => Some r
      | None => match_here p' cur
      end
  end.

(** [re.sub(p, repl, s)]: leftmost non-overlapping matches are replaced.
    Both patterns of the source consume at least two characters when
    they match, so the treatment of empty matches never comes into play;
    a match that consumed nothing is passed over like a failure. *)
Fixpoint sub_loop (fuel : nat) (p : pattern) (repl : str) (cur : cursor) : str :=
  match fuel with
  | O => after cur
  | S fuel' =>
      match after cur with
      | [] => []
      | c :: s' =>
          match match_here p cur with
          | Some r =>
              if (length (after r) <? length (after cur))%nat
              then repl ++ sub_loop fuel' p repl r
              else c :: sub_loop fuel' p repl (Cursor (Some c) s')
          | None => c :: sub_loop fuel' p repl (Cursor (Some c) s')
          end
      end
  end.

Definition re_sub (p : pattern) (repl : str) (s : str) : str :=
  sub_loop (length s) p repl (Cursor None s).

Definition lits (s : string) : list atom := map Lit (lit s).
Arguments lits s%_string.

(** [r"(?:\b\d+FPS\b|\bVideo:\d+FPS\b|\bGame:\d+FPS\b|\b\d+x\d+\b)"] *)
Definition HUD_PATTERN : pattern :=
  [ [WordBoundary; Rep Digit 1] ++ lits "FPS" ++ [WordBoundary];
    [WordBoundary] ++ lits "Video:" ++ [Rep Digit 1] ++ lits "FPS" ++ [WordBoundary];
    [WordBoundary] ++ lits "Game:" ++ [Rep Digit 1] ++ lits "FPS" ++ [WordBoundary];
    [WordBoundary; Rep Digit 1] ++ lits "x" ++ [Rep Digit 1; WordBoundary] ].

(** [r"\s{2,}"] *)
Definition SPACES_PATTERN : pattern := [ [Rep Space 2] ].

(** The cleanup block of [ocr_image_to_text] (the body of
    [if cfg.cleanup_hud:]). *)
Definition cleanup_hud_text (out : str) : str :=
  let out := re_sub HUD_PATTERN (lit "") out in
  strip (re_sub SPACES_PATTERN (lit " ") out).

End Strings.

(** The tables restricted to ASCII: every other code point is neither
    white space, nor a digit, nor alphanumeric. *)
Definition ascii_only (f : char -> bool) (c : char) : bool :=
  ((c <? 128) && f c)%N.

Lemma ascii_only_decimal_alnum c :
  ascii_only ascii_isdecimal c = true -> ascii_only ascii_isalnum c = true.
Proof.
  unfold ascii_only, ascii_isalnum. intros H.
  apply andb_true_iff in H as [-> ->]. reflexivity.
Qed.

Lemma ascii_only_space_not_alnum c :
  ascii_only ascii_isspace c = true -> ascii_only ascii_isalnum c = false.
Proof.
  unfold ascii_only, ascii_isspace, ascii_isalnum, ascii_isdecimal. intros H.
  apply not_true_is_false. intros H'.
  repeat (rewrite andb_true_iff in * || rewrite orb_true_iff in *
          || rewrite N.leb_le in * || rewrite N.ltb_lt in * ).
  unfold char in *. lia.
Qed.

Lemma ascii_only_agrees f c : (c < 128)%N -> ascii_only f c = f c.
Proof. intros H. unfold ascii_only. apply N.ltb_lt in H. now rewrite H. Qed.

Definition ascii_unicode : Unicode := {|
  isspace := ascii_only ascii_isspace;
  isdecimal := ascii_only ascii_isdecimal;
  isalnum := ascii_only ascii_isalnum;
  decimal_value := fun c => (c - 48)%N;
  lower := map ascii_lower;
  decimal_alnum := ascii_only_decimal_alnum;
  space_not_alnum := ascii_only_space_not_alnum;
  ascii_space := ascii_only_agrees ascii_isspace;
  ascii_decimal := ascii_only_agrees ascii_isdecimal;
  ascii_alnum := ascii_only_agrees ascii_isalnum;
  ascii_value := fun c _ => eq_refl
|}.


(* ================================================================= *)
(** ** Exceptions and results *)

Inductive exn :=
| KeyboardInterrupt                       (* a BaseException that is not an Exception *)
| ValueError (msg : string)
| OverflowError
| EOFError
| RuntimeError (msg : string)
| CalledProcessError (returncode : Z)     (* subprocess.run(..., check=True) *)
| OtherException (name : string).         (* any other subclass of Exception *)

(** [isinstance(e, Exception)] *)
Definition is_Exception (e : exn) : bool :=
  match e with
  | KeyboardInterrupt => false
  | _ => true
  end.

Inductive result (A : Type) :=
| Ok (a : A)
| Raise (e : exn).
Arguments Ok {A} a.
Arguments Raise {A} e.

(* ================================================================= *)
(** ** Python floats *)

(** A [float] is an IEEE 754 binary64 number. *)
Definition float := spec_float.
Definition prec : Z := 53.
Definition emax : Z := 1024.

Definition float_zero : float := S754_zero false.
Definition float_one : float := S754_finite false 4503599627370496 (-52).

Definition float_leb (x y : float) : bool := SFleb x y.
Definition float_ltb (x y : float) : bool := SFltb x y.
Definition float_mul (x y : float) : float := SFmul prec emax x y.

(** Conversion of an [int] operand of a float operation: correctly
    rounded, [OverflowError] when the integer is too large. *)
Definition float_of_int (n : Z) : result float :=
  match binary_normalize prec emax n 0 false with
  | S754_infinity _ => Raise OverflowError
  | f => Ok f
  end.

(** [int(f)]: truncation toward zero. *)
Definition int_of_float (f : float) : result Z :=
  match f with
  | S754_zero _ => Ok 0%Z
  | S754_finite s m e => Ok (cond_Zopp s (Z.shiftl (Zpos m) e))
  | S754_infinity _ => Raise OverflowError
  | S754_nan => Raise (ValueError "cannot convert float NaN to integer")
  end.

(** The correctly rounded value of [m * 10 ^ e], for [m >= 0]. *)
Definition float_of_decimal (neg : bool) (m : N) (e : Z) : float :=
  match m with
  | N0 => S754_zero neg
  | Npos p =>
      match e with
      | Zneg k =>
          SFdiv prec emax (S754_finite neg p 0) (S754_finite false (Pos.pow 10 k) 0)
      | _ => binary_normalize prec emax (cond_Zopp neg (Zpos p * 10 ^ e)) 0 false
      end
  end.

Section FloatParsing.
Context {U : Unicode}.

(** [float(s)] for a [str] argument, after CPython's
    [PyFloat_FromString]: Unicode decimal digits become ASCII digits,
    surrounding white space is dropped, underscores are allowed between
    digits only, then the text must be, after an optional sign,
    [inf], [infinity] or [nan] in any letter case, or decimal digits
    with an optional point and an optional exponent. *)
Definition to_ascii_digit (c : char) : char :=
  if isdecimal c then (48 + decimal_value c)%N else c.

Definition is_ascii_digit (c : char) : bool := ((48 <=? c) && (c <=? 57))%N.

(** [None] when an underscore is misplaced. [prev] is the last
    character seen, 0 at the start. *)
Fixpoint drop_underscores (prev : char) (s : str) : option str :=
  match s with
  | [] => if (prev =? 95)%N then None else Some []
  | c :: s' =>
      if (c =? 95)%N then
        if is_ascii_digit prev then drop_underscores c s' else None
      else if (prev =? 95)%N && negb (is_ascii_digit c) then None
      else option_map (cons c) (drop_underscores c s')
  end.

Fixpoint take_digits (s : str) : list N * str :=
  match s with
  | c :: s' =>
      if is_ascii_digit c then
        let (ds, rest) := take_digits s' in ((c - 48)%N :: ds, rest)
      else ([], s)
  | [] => ([], [])
  end.

Definition digits_value (ds : list N) : N :=
  fold_left (fun acc d => (10 * acc + d)%N) ds 0%N.

Definition take_sign (s : str) : bool * str :=
  match s with
  | 45%N :: s' => (true, s')
  | 43%N :: s' => (false, s')
  | _ => (false, s)
  end.

(** The exponent part: [Some (exponent, rest)]; an [e] that is not
    followed by digits is not part of the number. *)
Definition take_exponent (s : str) : Z * str :=
  match s with
  | c :: s' =>
      if (c =? 101)%N || (c =? 69)%N then
        let (neg, s'') := take_sign s' in
        match take_digits s'' with
        | ([], _) => (0%Z, s)
        | (ds, rest) => (cond_Zopp neg (Z.of_N (digits_value ds)), rest)
        end
      else (0%Z, s)
  | [] => (0%Z, [])
  end.

Definition parse_number (neg : bool) (s : str) : option float :=
  let (ip, s1) := take_digits s in
  let (fp, s2) :=
    match s1 with
    | 46%N :: s1' => take_digits s1'
    | _ => ([], s1)
    end in
  match ip ++ fp with
  | [] => None
  | ds =>
      match take_exponent s2 with
      | (e, []) =>
          Some (float_of_decimal neg (digits_value ds) (e - Z.of_nat (length fp)))
      | _ => None
      end
  end.

Definition could_not_convert : exn := ValueError "could not convert string to float".

Definition py_float (s : str) : result float :=
  match drop_underscores 0%N (strip (map to_ascii_digit s)) with
  | None => Raise could_not_convert
  | Some t =>
      let (neg, body) := take_sign t in
      let word := map ascii_lower body in
      if str_eqb word (lit "inf") || str_eqb word (lit "infinity")
      then Ok (S754_infinity neg)
      else if str_eqb word (lit "nan") then Ok S754_nan
      else match parse_number neg body with
           | Some f => Ok f
           | None => Raise could_not_convert
           end
  end.

End FloatParsing.


(* ================================================================= *)
(** ** Images (PIL) *)

Definition pixel := (Z * Z * Z)%type.
Definition black : pixel := (0, 0, 0)%Z.

(** An RGB image: its [size] and its pixels, read by [getpixel]. *)
Record Image := { width : Z; height : Z; getpixel : Z -> Z -> pixel }.

(** Two images show the same thing: same size, same pixel at every
    coordinate inside it. *)
Definition same_content (a b : Image) : Prop :=
  width a = width b /\ height a = height b /\
  forall x y, (0 <= x < width a)%Z -> (0 <= y < height a)%Z ->
    getpixel a x y = getpixel b x y.

Definition fits_c_int (n : Z) : bool := ((- 2 ^ 31 <=? n) && (n <? 2 ^ 31))%Z.
Definition MAX_IMAGE_PIXELS : Z := 89478485.

(** [img.crop((x0, y0, x1, y1))]: the region of that size;
    whatever lies outside the source is black.  The coordinates and the
    new size are C ints in the imaging core. *)
Definition Image_crop (img : Image) (box : Z * Z * Z * Z) : result Image :=
  let '(x0, y0, x1, y1) := box in
  if (x1 <? x0)%Z then Raise (ValueError "Coordinate 'right' is less than 'left'")
  else if (y1 <? y0)%Z then Raise (ValueError "Coordinate 'lower' is less than 'upper'")
  else if (2 * MAX_IMAGE_PIXELS <? (x1 - x0) * (y1 - y0))%Z
    then Raise (OtherException "DecompressionBombError")
  else if negb (fits_c_int x0 && fits_c_int y0 && fits_c_int x1 && fits_c_int y1)
    then Raise OverflowError
  else if negb (fits_c_int (x1 - x0) && fits_c_int (y1 - y0))
    then Raise (OtherException "MemoryError")
  else Ok {| width := x1 - x0;
             height := y1 - y0;
             getpixel := fun x y =>
               let sx := (x + x0)%Z in
               let sy := (y + y0)%Z in
               if ((0 <=? sx) && (sx <? width img) && (0 <=? sy) && (sy <? height img))%Z
               then getpixel img sx sy else black |}.

(* ================================================================= *)
(** ** The operating system, and the program monad *)

(** One recognized fragment: [(text, confidence, bbox)]. *)
Record annotation := {
  ann_text : str;
  ann_confidence : float;
  ann_bbox : float * float * float * float
}.

(** What is handed to [ocrmac.OCR(...)]. *)
Inductive ocr_source :=
| FromImage (img : Image)
| FromPath (path : str).

Inductive ocr_call :=
| LiveText (src : ocr_source)
| VisionCall (src : ocr_source) (recognition_level : str)
             (language_preference : option (list str)).

(** A window dictionary of [CGWindowListCopyWindowInfo]; [None] is an
    absent key. *)
Record Window := {
  kCGWindowOwnerName : option str;
  kCGWindowName : option str;
  kCGWindowNumber : option Z;
  kCGWindowLayer : option Z
}.

(** The lines the programs print; the stage timings of the daemon's
    [ok] line are wall-clock measurements and are left out. *)
Inductive message :=
| MsgNotFound (path : str)
| MsgNoTextRecognized
| MsgOcrOk (chars : nat) (preview : str)
| MsgNoninteractiveNeedsFilter
| MsgListWindowsFailed (e : exn)
| MsgNoWindowsMatched
| MsgNoWindowNumber
| MsgScreencaptureFailed (e : exn)
| MsgSelectWindow (labels : list Window)
| MsgInvalidSelection
| MsgDaemonRunning (hotkey : str)
| MsgDaemonWatching (app : str)
| MsgDaemonNoWindow (app : str) (title : str)
| MsgDaemonCaptureFailed (e : exn)
| MsgDaemonNoText
| MsgDaemonOk (chars : nat).

(** What a program does to the outside world, in order. *)
Inductive event :=
| Print (m : message)
| Recognize (call : ocr_call)
| Screencapture (window_id : Z) (out_png : str)
| Pbcopy (input : str)
| Popen (argv : list str)
| ListenerStart (hotkey : str)
| ListenerStop.

(** How the outside world answers during one run. *)
Record Env := {
  abspath : str -> str;                          (* abspath(expanduser(p)) *)
  path_exists : str -> bool;
  open_image : str -> result Image;              (* Image.open(p).convert("RGB") *)
  recognize : ocr_call -> result (list annotation);
  window_list : result (list Window);            (* CGWindowListCopyWindowInfo *)
  temp_dir : string -> result str;               (* tempfile.TemporaryDirectory(prefix) *)
  screencapture : Z -> str -> option exn;        (* None: exit status 0 *)
  pbcopy : str -> option exn;
  popen : list str -> option exn;
  stdin : list str                               (* the lines input() will read *)
}.

Definition trace := list event.

(** A computation returns or raises, and extends the trace. *)
Definition M (A : Type) := trace -> result A * trace.

Definition ret {A} (a : A) : M A := fun tr => (Ok a, tr).
Definition raise {A} (e : exn) : M A := fun tr => (Raise e, tr).
Definition bind {A B} (m : M A) (k : A -> M B) : M B :=
  fun tr =>
    match m tr with
    | (Ok a, tr') => k a tr'
    | (Raise e, tr') => (Raise e, tr')
    end.
Definition emit (e : event) : M unit := fun tr => (Ok tt, tr ++ [e]).
Definition lift {A} (r : result A) : M A := fun tr => (r, tr).
Definition print (m : message) : M unit := emit (Print m).

(** [try: m  except <class>: h], for the classes selected by [handles]. *)
Definition try_except {A} (m : M A) (handles : exn -> bool) (h : exn -> M A) : M A :=
  fun tr =>
    match m tr with
    | (Raise e, tr') => if handles e then h e tr' else (Raise e, tr')
    | r => r
    end.

(** A subprocess or system call whose only result is success or an
    exception. *)
Definition call (ev : event) (answer : option exn) : M unit :=
  bind (emit ev) (fun _ =>
    match answer with
    | None => ret tt
    | Some e => raise e
    end).

Declare Scope prog_scope.
Delimit Scope prog_scope with prog.
Notation "x <- m ;; k" := (bind m (fun x => k))
  (at level 61, m at next level, right associativity) : prog_scope.
Notation "m ;; k" := (bind m (fun _ => k))
  (at level 61, right associativity) : prog_scope.

(** Binding in [result] alone, for the pure functions that may raise. *)
Definition result_bind {A B} (r : result A) (k : A -> result B) : result B :=
  match r with
  | Ok a => k a
  | Raise e => Raise e
  end.
Notation "'let*' x := r 'in' k" := (result_bind r (fun x => k))
  (at level 10, x pattern, r at level 100, k at level 200).

Definition is_CalledProcessError (e : exn) : bool :=
  match e with CalledProcessError _ => true | _ => false end.


(** [int(s)] for a [str] in base 10: optional sign, digits, underscores
    between digits, surrounding white space ignored. *)
Definition py_int {U : Unicode} (s : str) : result Z :=
  let bad := Raise (ValueError "invalid literal for int() with base 10") in
  let (neg, body) := take_sign (strip (map to_ascii_digit s)) in
  match drop_underscores 0%N body with
  | None => bad
  | Some t =>
      match take_digits t with
      | (d :: ds, []) => Ok (cond_Zopp neg (Z.of_N (digits_value (d :: ds))))
      | _ => bad
      end
  end.

(** [s or ""] for an optional string. *)
Definition or_empty (o : option str) : str :=
  match o with Some s => s | None => [] end.

(** Truth value of an optional string: absent and empty are false. *)
Definition given (o : option str) : bool :=
  match o with Some s => truthy s | None => false end.

(** [text[:200].replace("\n", "\\n")] followed by an ellipsis when the
    text is longer. *)
Definition preview_of (text : str) : str :=
  flat_map (fun c => if (c =? 10)%N then [92; 110]%N else [c]) (firstn 200 text)
  ++ (if (200 <? length text)%nat then [8230%N] else []).

(* ================================================================= *)
(** ** ocr_core.py *)

Module ocr_core.
Section Program.
Context {U : Unicode}.
Open Scope prog_scope.

(** Languages supported by ocrmac's language_preference parameter. *)
Definition VISION_SUPPORTED_LANGS : list str :=
  [lit "en-US"; lit "fr-FR"; lit "it-IT"; lit "de-DE"; lit "es-ES"; lit "pt-BR"].

Definition rect := (float * float * float * float)%type.

Record OCRConfig := {
  framework : str;
  level : str;
  languages : list str;
  crop_norm : option rect;
  cleanup_hud : bool
}.

(** [0 <= x0 < x1 <= 1 and 0 <= y0 < y1 <= 1] *)
Definition in_unit_square (r : rect) : bool :=
  let '(x0, y0, x1, y1) := r in
  float_leb float_zero x0 && float_ltb x0 x1 && float_leb x1 float_one
  && (float_leb float_zero y0 && float_ltb y0 y1 && float_leb y1 float_one).

Definition parse_crop (crop : str) : result rect :=
  let parts := map strip (split 44%N crop) in
  match parts with
  | [p0; p1; p2; p3] =>
      let* x0 := py_float p0 in
      let* y0 := py_float p1 in
      let* x1 := py_float p2 in
      let* y1 := py_float p3 in
      if in_unit_square (x0, y0, x1, y1) then Ok (x0, y0, x1, y1)
      else Raise (ValueError "crop must satisfy 0<=x0<x1<=1 and 0<=y0<y1<=1")
  | _ => Raise (ValueError "--crop must be x0,y0,x1,y1")
  end.

(** [int(x * n)] for a float [x] and an int [n]. *)
Definition scaled (x : float) (n : Z) : result Z :=
  let* nf := float_of_int n in
  int_of_float (float_mul x nf).

(** The part of [load_and_crop] that follows the opening of the file. *)
Definition crop_by (img : Image) (crop_norm : option rect) : result Image :=
  match crop_norm with
  | None => Ok img
  | Some (x0, y0, x1, y1) =>
      let w := width img in
      let h := height img in
      let* bx0 := scaled x0 w in
      let* by0 := scaled y0 h in
      let* bx1 := scaled x1 w in
      let* by1 := scaled y1 h in
      Image_crop img (bx0, by0, bx1, by1)
  end.

Definition load_and_crop (env : Env) (img_path : str) (crop_norm : option rect) : M Image :=
  img <- lift (open_image env img_path) ;;
  lift (crop_by img crop_norm).

(** [ocrmac.OCR(...).recognize()] *)
Definition OCR_recognize (env : Env) (c : ocr_call) : M (list annotation) :=
  emit (Recognize c) ;; lift (recognize env c).

(** [[t for (t, _conf, _bbox) in anns if t and t.strip()]] joined and
    stripped. *)
Definition joined_text (anns : list annotation) : str :=
  let texts :=
    map ann_text
      (filter (fun a => truthy (ann_text a) && truthy (strip (ann_text a))) anns) in
  strip (join texts).

Definition ocr_image_to_text (env : Env) (img : Image) (cfg : OCRConfig) : M str :=
  anns <-
    (if str_eqb (framework cfg) (lit "livetext") then
       OCR_recognize env (LiveText (FromImage img))
     else
       let supported :=
         filter (fun lang => existsb (str_eqb lang) VISION_SUPPORTED_LANGS)
                (languages cfg) in
       match supported with
       | _ :: _ =>
           OCR_recognize env (VisionCall (FromImage img) (level cfg) (Some supported))
       | [] =>
           OCR_recognize env (VisionCall (FromImage img) (level cfg) None)
       end) ;;
  let out := joined_text anns in
  ret (if cleanup_hud cfg then cleanup_hud_text out else out).

Definition ocr_file_to_text (env : Env) (img_path : str) (cfg : OCRConfig) : M str :=
  img <- load_and_crop env img_path (crop_norm cfg) ;;
  ocr_image_to_text env img cfg.

Definition copy_to_clipboard (env : Env) (text : str) : M unit :=
  call (Pbcopy text) (pbcopy env text).

(** The parsed command line of the single-shot utility. *)
Record Args := {
  arg_image : str;
  arg_framework : str;
  arg_level : str;
  arg_lang : str;
  arg_extra_lang : list str;
  arg_crop : option str;
  arg_no_cleanup : bool
}.

(** [parse_crop(args.crop) if args.crop else None] *)
Definition crop_option (crop : option str) : result (option rect) :=
  match crop with
  | Some c => if truthy c then let* r := parse_crop c in Ok (Some r) else Ok None
  | None => Ok None
  end.

Definition main (env : Env) (args : Args) : M Z :=
  let img_path := abspath env (arg_image args) in
  if negb (path_exists env img_path) then
    print (MsgNotFound img_path) ;; ret 2%Z
  else
    crop <- lift (crop_option (arg_crop args)) ;;
    let cfg := {| framework := arg_framework args;
                  level := arg_level args;
                  languages := arg_lang args :: arg_extra_lang args;
                  crop_norm := crop;
                  cleanup_hud := negb (arg_no_cleanup args) |} in
    text <- ocr_file_to_text env img_path cfg ;;
    if negb (truthy (strip text)) then
      print MsgNoTextRecognized ;; ret 3%Z
    else
      copy_to_clipboard env text ;;
      print (MsgOcrOk (length text) (preview_of text)) ;;
      ret 0%Z.

End Program.
End ocr_core.

(* ================================================================= *)
(** ** window_ocrmac.py *)

Module window_ocrmac.
Section Program.
Context {U : Unicode}.
Open Scope prog_scope.

Definition list_on_screen_windows (env : Env) : M (list Window) :=
  lift (window_list env).

(** The inner [match(s, needle)] of [filter_windows]. *)
Definition match_ (s : str) (needle : option str) : bool :=
  if negb (given needle) then true
  else contains (lower (or_empty needle)) (lower s).

Definition filter_windows (windows : list Window)
    (app_substr title_substr : option str) : list Window :=
  filter (fun w =>
            let owner := or_empty (kCGWindowOwnerName w) in
            let title := or_empty (kCGWindowName w) in
            match_ owner app_substr && match_ title title_substr)
         windows.

(** The [while True] loop of [pick_window_interactively], over the lines
    standard input still holds; [input()] raises [EOFError] at its end. *)
Fixpoint read_selection (windows : list Window) (lines : list str) : M Window :=
  match lines with
  | [] => raise EOFError
  | raw :: lines' =>
      match py_int (strip raw) with
      | Ok idx =>
          if ((0 <=? idx) && (idx <? Z.of_nat (length windows)))%Z then
            match nth_error windows (Z.to_nat idx) with
            | Some w => ret w
            | None => print MsgInvalidSelection ;; read_selection windows lines'
            end
          else print MsgInvalidSelection ;; read_selection windows lines'
      | Raise _ => print MsgInvalidSelection ;; read_selection windows lines'
      end
  end.

Definition pick_window_interactively (env : Env) (windows : list Window) : M Window :=
  match windows with
  | [] => raise (RuntimeError "No windows to choose from.")
  | _ => print (MsgSelectWindow windows) ;; read_selection windows (stdin env)
  end.

Definition screencapture_window (env : Env) (window_id : Z) (out_png : str) : M unit :=
  call (Screencapture window_id out_png) (screencapture env window_id out_png).

Definition ocr_image_to_text (env : Env) (path : str) (framework : str)
    (recognition_level : str) (languages : list str) : M str :=
  anns <-
    (if str_eqb framework (lit "livetext") then
       ocr_core.OCR_recognize env (LiveText (FromPath path))
     else
       ocr_core.OCR_recognize env
         (VisionCall (FromPath path) recognition_level (Some languages))) ;;
  ret (ocr_core.joined_text anns).

Definition copy_to_clipboard (env : Env) (text : str) : M unit :=
  call (Pbcopy text) (pbcopy env text).

Definition run_ocr_pipeline (env : Env) (img_path : str) (framework_choice : str)
    (level : str) (langs : list str) : M str :=
  text <-
    (if str_eqb framework_choice (lit "auto") || str_eqb framework_choice (lit "livetext")
     then try_except (ocr_image_to_text env img_path (lit "livetext") level langs)
                     is_Exception (fun _ => ret [])
     else ret []) ;;
  if negb (truthy text)
     && (str_eqb framework_choice (lit "auto") || str_eqb framework_choice (lit "vision"))
  then ocr_image_to_text env img_path (lit "vision") level langs
  else ret text.

Definition print_ok_preview (text : str) : M unit :=
  print (MsgOcrOk (length text) (preview_of text)).

Record Args := {
  arg_image : option str;
  arg_app : option str;
  arg_title : option str;
  arg_noninteractive : bool;
  arg_framework : str;
  arg_level : str;
  arg_lang : str;
  arg_extra_lang : list str
}.

Definition main (env : Env) (args : Args) : M Z :=
  let langs := arg_lang args :: arg_extra_lang args in
  if given (arg_image args) then
    let img_path := abspath env (or_empty (arg_image args)) in
    if negb (path_exists env img_path) then
      print (MsgNotFound img_path) ;; ret 2%Z
    else
      text <- run_ocr_pipeline env img_path (arg_framework args) (arg_level args) langs ;;
      if negb (truthy (strip text)) then
        print MsgNoTextRecognized ;; ret 7%Z
      else
        copy_to_clipboard env text ;;
        print_ok_preview text ;;
        ret 0%Z
  else
    if negb (given (arg_app args) || given (arg_title args)) && arg_noninteractive args then
      print MsgNoninteractiveNeedsFilter ;; ret 2%Z
    else
      listed <- try_except (wins <- list_on_screen_windows env ;; ret (Some wins))
                           is_Exception
                           (fun e => print (MsgListWindowsFailed e) ;; ret None) ;;
      match listed with
      | None => ret 3%Z
      | Some wins =>
          let wins := filter_windows wins (arg_app args) (arg_title args) in
          match wins with
          | [] => print MsgNoWindowsMatched ;; ret 4%Z
          | first :: _ =>
              chosen <- (if arg_noninteractive args then ret first
                         else pick_window_interactively env wins) ;;
              match kCGWindowNumber chosen with
              | None => print MsgNoWindowNumber ;; ret 5%Z
              | Some wid =>
                  td <- lift (temp_dir env "window-ocr-") ;;
                  let tmp_img := td ++ lit "/capture.png" in
                  captured <-
                    try_except (screencapture_window env wid tmp_img ;; ret true)
                               is_CalledProcessError
                               (fun e => print (MsgScreencaptureFailed e) ;; ret false) ;;
                  if negb captured then ret 6%Z
                  else
                    text <- run_ocr_pipeline env tmp_img (arg_framework args)
                                             (arg_level args) langs ;;
                    if negb (truthy (strip text)) then
                      print MsgNoTextRecognized ;; ret 7%Z
                    else
                      copy_to_clipboard env text ;;
                      print_ok_preview text ;;
                      ret 0%Z
              end
          end
      end.

End Program.
End window_ocrmac.

(* ================================================================= *)
(** ** ocr_daemon.py *)

Module ocr_daemon.
Section Program.
Context {U : Unicode}.
Open Scope prog_scope.

Definition list_windows (env : Env) : M (list Window) :=
  lift (window_list env).

(** The [for w in list_windows()] loop of [pick_window_id]. *)
Fixpoint pick_window_id_loop (app_substr_l : str) (title_substr_l : option str)
    (windows : list Window) : option Z :=
  match windows with
  | [] => None
  | w :: rest =>
      let owner := lower (or_empty (kCGWindowOwnerName w)) in
      let title := lower (or_empty (kCGWindowName w)) in
      if negb (contains app_substr_l owner) then
        pick_window_id_loop app_substr_l title_substr_l rest
      else if given title_substr_l && negb (contains (or_empty title_substr_l) title) then
        pick_window_id_loop app_substr_l title_substr_l rest
      else
        let wid := kCGWindowNumber w in
        let layer := match kCGWindowLayer w with Some l => l | None => 0%Z end in
        match wid with
        | Some n => if (layer =? 0)%Z then Some n
                    else pick_window_id_loop app_substr_l title_substr_l rest
        | None => pick_window_id_loop app_substr_l title_substr_l rest
        end
  end.

Definition pick_window_id (env : Env) (app_substr : str) (title_substr : option str)
    : M (option Z) :=
  let app_substr_l := lower app_substr in
  let title_substr_l :=
    if given title_substr then Some (lower (or_empty title_substr)) else None in
  wins <- list_windows env ;;
  ret (pick_window_id_loop app_substr_l title_substr_l wins).

Definition screencapture_window (env : Env) (window_id : Z) (out_png : str) : M unit :=
  call (Screencapture window_id out_png) (screencapture env window_id out_png).

Definition run_once (env : Env) (app : str) (title : option str)
    (cfg : ocr_core.OCRConfig) (after_cmd : option str) : M unit :=
  wid <- pick_window_id env app title ;;
  match wid with
  | None => print (MsgDaemonNoWindow app (or_empty title))
  | Some wid =>
      td <- lift (temp_dir env "migaku-ocr-") ;;
      let img_path := td ++ lit "/cap.png" in
      captured <-
        try_except (screencapture_window env wid img_path ;; ret true)
                   is_CalledProcessError
                   (fun e => print (MsgDaemonCaptureFailed e) ;; ret false) ;;
      if negb captured then ret tt
      else
        text <- ocr_core.ocr_file_to_text env img_path cfg ;;
        if negb (truthy (strip text)) then print MsgDaemonNoText
        else
          ocr_core.copy_to_clipboard env text ;;
          (if given after_cmd
           then call (Popen (split 32%N (or_empty after_cmd)))
                     (popen env (split 32%N (or_empty after_cmd)))
           else ret tt) ;;
          print (MsgDaemonOk (length text))
  end.

Record Args := {
  arg_app : str;
  arg_title : option str;
  arg_hotkey : str;
  arg_framework : str;
  arg_level : str;
  arg_lang : str;
  arg_extra_lang : list str;
  arg_crop : option str;
  arg_no_cleanup : bool;
  arg_after : option str
}.

(** What wakes the main thread while it is blocked in
    [work_queue.get()]: a trigger put by the listener, met by the world
    as it is at that moment, or the interrupt signal. *)
Inductive wakeup :=
| Trigger (env : Env)
| Interrupt.

(** The body of [while True]: the wake-ups are served in arrival order.
    When none is left the thread stays blocked in [get()], which is the
    result [Ok tt]. *)
Fixpoint serve (args : Args) (cfg : ocr_core.OCRConfig) (queue : list wakeup) : M unit :=
  match queue with
  | [] => ret tt
  | Interrupt :: _ => raise KeyboardInterrupt
  | Trigger env :: queue' =>
      run_once env (arg_app args) (arg_title args) cfg (arg_after args) ;;
      serve args cfg queue'
  end.

(** Where the daemon process stands once the given wake-ups have been
    handled. *)
Inductive daemon_state :=
| Idle                  (* alive, blocked in [work_queue.get()] *)
| Exited (code : Z)     (* [main] returned *)
| Died (e : exn).       (* an exception left [main] *)

Definition main (register_hotkey : str -> option exn) (args : Args)
    (queue : list wakeup) : daemon_state * trace :=
  match ocr_core.crop_option (arg_crop args) with
  | Raise e => (Died e, [])
  | Ok crop_norm =>
      let cfg := {| ocr_core.framework := arg_framework args;
                    ocr_core.level := arg_level args;
                    ocr_core.languages := arg_lang args :: arg_extra_lang args;
                    ocr_core.crop_norm := crop_norm;
                    ocr_core.cleanup_hud := negb (arg_no_cleanup args) |} in
      let start :=
        print (MsgDaemonRunning (arg_hotkey args)) ;;
        print (MsgDaemonWatching (arg_app args)) ;;
        call (ListenerStart (arg_hotkey args)) (register_hotkey (arg_hotkey args)) in
      match start [] with
      | (Raise e, tr) => (Died e, tr)
      | (Ok _, tr) =>
          (* try: while True ...  except KeyboardInterrupt: pass
             finally: listener.stop() *)
          match serve args cfg queue tr with
          | (Ok _, tr') => (Idle, tr')
          | (Raise KeyboardInterrupt, tr') => (Exited 0, tr' ++ [ListenerStop])
          | (Raise e, tr') => (Died e, tr' ++ [ListenerStop])
          end
      end
  end.

End Program.
End ocr_daemon.

(* ================================================================= *)
(** ** migaku_clipboard_focus.py *)

Module migaku_clipboard_focus.
Section Program.
Context {U : Unicode}.

(** The [CompletedProcess] of [subprocess.run(..., capture_output=True,
    text=True)]. *)
Record CompletedProcess := {
  stdout : option str;
  stderr : option str;
  returncode : Z
}.

(** What the script does to the outside world.  The first two words of
    the command and the AppleScript text after them are constants, so a
    run of [osascript] is recorded by the two arguments that vary. *)
Inductive output :=
| Osascript (browser : str) (do_paste : str)
| PrintTabNotFound
| StderrWrite (s : str).

Record Args := { arg_browser : str; arg_paste : bool }.

(** ["1" if args.paste else "0"] *)
Definition paste_flag (args : Args) : str :=
  if arg_paste args then lit "1" else lit "0".

Definition main (osascript : str -> str -> result CompletedProcess) (args : Args)
    : result Z * list output :=
  let ran := Osascript (arg_browser args) (paste_flag args) in
  match osascript (arg_browser args) (paste_flag args) with
  | Raise e => (Raise e, [ran])
  | Ok res =>
      let out := strip (or_empty (stdout res)) in
      if str_eqb out (lit "NOT_FOUND") then (Ok 2%Z, [ran; PrintTabNotFound])
      else if negb (returncode res =? 0)%Z then
        (Ok (returncode res), [ran; StderrWrite (or_empty (stderr res))])
      else (Ok 0%Z, [ran])
  end.

End Program.
End migaku_clipboard_focus.


(* ================================================================= *)
(** * Properties *)

(** Unfolding the program monad. *)
Ltac run :=
  unfold call, print, try_except in *;
  unfold bind, ret, raise, lift, emit in *;
  cbn beta iota in *.

Lemma starts_with_nil {U : Unicode} s : starts_with [] s = true.
Proof. destruct s; reflexivity. Qed.

Lemma contains_nil {U : Unicode} s : contains [] s = true.
Proof. destruct s; reflexivity. Qed.

Lemma str_eqb_eq a b : str_eqb a b = true <-> a = b.
Proof.
  revert b. induction a as [|x a IH]; intros [|y b]; cbn; try (split; congruence).
  rewrite andb_true_iff, N.eqb_eq, IH. split; [intros [-> ->]; reflexivity|].
  intros H; injection H; auto.
Qed.

Lemma str_eqb_refl a : str_eqb a a = true.
Proof. now apply str_eqb_eq. Qed.

(* ----------------------------------------------------------------- *)
(** ** The daemon's window locator *)

Section WindowLocator.
Context {U : Unicode}.

Definition layer_of (w : Window) : Z :=
  match kCGWindowLayer w with Some l => l | None => 0%Z end.

(** The three conditions of the locator, in the words of its
    description: the owner name contains the app substring, the title
    contains the title substring when one was given, both without
    regard to case, and the window is on layer 0. *)
Definition locator_match (app : str) (title : option str) (w : Window) : bool :=
  contains (lower app) (lower (or_empty (kCGWindowOwnerName w)))
  && (if given title
      then contains (lower (or_empty title)) (lower (or_empty (kCGWindowName w)))
      else true)
  && (layer_of w =? 0)%Z.

Definition has_number (w : Window) : bool :=
  match kCGWindowNumber w with Some _ => true | None => false end.

Definition number_of (found : option Window) : option Z :=
  match found with Some w => kCGWindowNumber w | None => None end.

(** One turn of the loop: a window is returned exactly when it meets
    the three conditions and carries a number. *)
Lemma pick_window_id_loop_step app title w rest :
  let title_l := if given title then Some (lower (or_empty title)) else None in
  ocr_daemon.pick_window_id_loop (lower app) title_l (w :: rest)
  = if locator_match app title w && has_number w then kCGWindowNumber w
    else ocr_daemon.pick_window_id_loop (lower app) title_l rest.
Proof.
  cbn zeta. cbn [ocr_daemon.pick_window_id_loop].
  unfold locator_match, has_number, layer_of.
  destruct (contains (lower app) (lower (or_empty (kCGWindowOwnerName w))));
    cbn [negb andb]; [|reflexivity].
  assert (Htitle :
    given (if given title then Some (lower (or_empty title)) else None)
    && negb (contains (or_empty (if given title then Some (lower (or_empty title)) else None))
                      (lower (or_empty (kCGWindowName w))))
    = negb (if given title
            then contains (lower (or_empty title)) (lower (or_empty (kCGWindowName w)))
            else true)).
  { destruct (given title); [|reflexivity]. cbn [or_empty given].
    destruct (lower (or_empty title)) eqn:Hl; [now rewrite contains_nil|reflexivity]. }
  rewrite Htitle.
  destruct (if given title
            then contains (lower (or_empty title)) (lower (or_empty (kCGWindowName w)))
            else true); cbn [negb andb]; [|reflexivity].
  destruct (kCGWindowNumber w) as [n|].
  - rewrite andb_true_r. reflexivity.
  - rewrite andb_false_r. reflexivity.
Qed.

(** The loop returns the number of the first window that meets the
    three conditions and carries a number. *)
Lemma pick_window_id_loop_find app title windows :
  ocr_daemon.pick_window_id_loop (lower app)
    (if given title then Some (lower (or_empty title)) else None) windows
  = number_of (find (fun w => locator_match app title w && has_number w) windows).
Proof.
  induction windows as [|w rest IH]; [reflexivity|].
  rewrite pick_window_id_loop_step. cbn [find].
  destruct (locator_match app title w && has_number w); [reflexivity|exact IH].
Qed.

Lemma find_ext_in {A} (f g : A -> bool) l :
  Forall (fun x => f x = g x) l -> find f l = find g l.
Proof.
  induction 1 as [|x l Hx _ IH]; [reflexivity|].
  cbn. rewrite Hx, IH. reflexivity.
Qed.

(** C8. For every window list and every app substring with optional
    title substring, [pick_window_id] returns the number of the first
    window, in enumeration order, that carries a window number, whose
    owner name contains the app substring and whose title contains the
    title substring if one was given, case being ignored, and whose
    layer is 0.  Every window of the window list carrying its number,
    this is the number of the first window that meets the three
    conditions; when no window meets them the result is [None], and
    nothing is raised. *)
Theorem pick_window_id_first_match (env : Env) (app : str) (title : option str)
    (windows : list Window) (tr : trace) :
  window_list env = Ok windows ->
  ocr_daemon.pick_window_id env app title tr
  = (Ok (number_of (find (fun w => locator_match app title w && has_number w) windows)), tr)
  /\ (Forall (fun w => kCGWindowNumber w <> None) windows ->
      ocr_daemon.pick_window_id env app title tr
      = (Ok (number_of (find (locator_match app title) windows)), tr)
      /\ forall w, find (locator_match app title) windows = Some w ->
           exists n, kCGWindowNumber w = Some n
             /\ ocr_daemon.pick_window_id env app title tr = (Ok (Some n), tr))
  /\ (find (locator_match app title) windows = None ->
      ocr_daemon.pick_window_id env app title tr = (Ok None, tr)).
Proof.
  intros Hwins.
  assert (Hrun : ocr_daemon.pick_window_id env app title tr
                 = (Ok (number_of
                          (find (fun w => locator_match app title w && has_number w) windows)),
                    tr)).
  { unfold ocr_daemon.pick_window_id, ocr_daemon.list_windows. run.
    rewrite Hwins. rewrite pick_window_id_loop_find. reflexivity. }
  split; [exact Hrun|]. split.
  - intros Hnum.
    assert (Hfind : find (fun w => locator_match app title w && has_number w) windows
                    = find (locator_match app title) windows).
    { apply find_ext_in. eapply Forall_impl; [|exact Hnum]. intros w Hw. cbv beta in Hw.
      unfold has_number. destruct (kCGWindowNumber w); [apply andb_true_r|congruence]. }
    rewrite Hrun, Hfind. split; [reflexivity|].
    intros w Hw. rewrite Hw. cbn [number_of].
    apply find_some in Hw as [Hin _].
    rewrite Forall_forall in Hnum. specialize (Hnum w Hin).
    destruct (kCGWindowNumber w) as [n|]; [|congruence].
    exists n. split; reflexivity.
  - intros Hnone. rewrite Hrun.
    assert (Hfind : find (fun w => locator_match app title w && has_number w) windows = None).
    { clear Hrun Hwins. induction windows as [|w rest IH]; [reflexivity|].
      cbn [find] in Hnone |- *.
      destruct (locator_match app title w); [discriminate|]. cbn [andb]. now apply IH. }
    now rewrite Hfind.
Qed.

End WindowLocator.


(* ----------------------------------------------------------------- *)
(** ** The [auto] policy of the window-capture utility *)

Section BackendPolicy.
Context {U : Unicode}.
Variables (env : Env) (img_path level : str) (langs : list str).

Definition livetext_call : ocr_call := LiveText (FromPath img_path).
Definition vision_call : ocr_call := VisionCall (FromPath img_path) level (Some langs).

(** What one attempt of a backend yields: the joined text of its
    annotations, or the exception it raised. *)
Definition attempt (c : ocr_call) : result str :=
  match recognize env c with
  | Ok anns => Ok (ocr_core.joined_text anns)
  | Raise e => Raise e
  end.

Lemma ocr_image_to_text_livetext tr :
  window_ocrmac.ocr_image_to_text env img_path (lit "livetext") level langs tr
  = (attempt livetext_call, tr ++ [Recognize livetext_call]).
Proof.
  unfold window_ocrmac.ocr_image_to_text, ocr_core.OCR_recognize, attempt.
  rewrite str_eqb_refl. run. unfold livetext_call.
  destruct (recognize env (LiveText (FromPath img_path))); reflexivity.
Qed.

Lemma ocr_image_to_text_vision tr :
  window_ocrmac.ocr_image_to_text env img_path (lit "vision") level langs tr
  = (attempt vision_call, tr ++ [Recognize vision_call]).
Proof.
  unfold window_ocrmac.ocr_image_to_text, ocr_core.OCR_recognize, attempt.
  change (str_eqb (lit "vision") (lit "livetext")) with false. run.
  unfold vision_call.
  destruct (recognize env (VisionCall (FromPath img_path) level (Some langs))); reflexivity.
Qed.

(** The fast backend found something: it returned non-empty text. *)
Definition fast_found : bool :=
  match attempt livetext_call with
  | Ok (_ :: _) => true
  | _ => false
  end.

(** C2. Under the [auto] policy the fast backend (livetext) is attempted
    first; the accurate backend (vision) is attempted, on the same
    image, if and only if the fast attempt returned empty text or
    failed; the result is the text of whichever backend produced
    non-empty text, and it is empty when neither did. *)
Theorem auto_policy_fallback (tr : trace) :
  (forall e, attempt livetext_call = Raise e -> is_Exception e = true) ->
  snd (window_ocrmac.run_ocr_pipeline env img_path (lit "auto") level langs tr)
    = tr ++ Recognize livetext_call :: (if fast_found then [] else [Recognize vision_call])
  /\ fst (window_ocrmac.run_ocr_pipeline env img_path (lit "auto") level langs tr)
     = (if fast_found then attempt livetext_call else attempt vision_call)
  /\ (forall t, attempt livetext_call = Ok t -> t <> [] ->
        fst (window_ocrmac.run_ocr_pipeline env img_path (lit "auto") level langs tr) = Ok t)
  /\ (forall t, fast_found = false -> attempt vision_call = Ok t ->
        fst (window_ocrmac.run_ocr_pipeline env img_path (lit "auto") level langs tr) = Ok t).
Proof.
  intros Hexc.
  assert (Hrun :
    window_ocrmac.run_ocr_pipeline env img_path (lit "auto") level langs tr
    = (if fast_found then attempt livetext_call else attempt vision_call,
       tr ++ Recognize livetext_call :: (if fast_found then [] else [Recognize vision_call]))).
  { unfold window_ocrmac.run_ocr_pipeline, fast_found.
    change (str_eqb (lit "auto") (lit "auto")) with true. cbn [orb andb].
    unfold bind, try_except. rewrite ocr_image_to_text_livetext.
    destruct (attempt livetext_call) as [t|e] eqn:Hfast.
    - destruct t as [|c t]; cbn [truthy negb].
      + rewrite ocr_image_to_text_vision, <- app_assoc. reflexivity.
      + reflexivity.
    - rewrite (Hexc e eq_refl). unfold ret. cbn [truthy negb].
      rewrite ocr_image_to_text_vision, <- app_assoc. reflexivity. }
  rewrite Hrun. cbn [fst snd]. repeat split.
  - intros t Ht Hne. unfold fast_found. rewrite Ht.
    destruct t; [congruence|reflexivity].
  - intros t Hff Hv. rewrite Hff. exact Hv.
Qed.

(** With the framework set to [livetext] the accurate backend is never
    tried, and a failure of the fast one becomes the empty text. *)
Lemma run_ocr_pipeline_livetext tr :
  (forall e, attempt livetext_call = Raise e -> is_Exception e = true) ->
  window_ocrmac.run_ocr_pipeline env img_path (lit "livetext") level langs tr
  = (match attempt livetext_call with Ok t => Ok t | Raise _ => Ok [] end,
     tr ++ [Recognize livetext_call]).
Proof.
  intros Hexc. unfold window_ocrmac.run_ocr_pipeline.
  change (str_eqb (lit "livetext") (lit "auto")) with false.
  change (str_eqb (lit "livetext") (lit "vision")) with false.
  rewrite str_eqb_refl. cbn [orb andb].
  unfold bind, try_except. rewrite ocr_image_to_text_livetext.
  destruct (attempt livetext_call) as [t|e] eqn:Hfast.
  - rewrite andb_false_r. reflexivity.
  - rewrite (Hexc e eq_refl). reflexivity.
Qed.

Lemma run_ocr_pipeline_vision tr :
  window_ocrmac.run_ocr_pipeline env img_path (lit "vision") level langs tr
  = (attempt vision_call, tr ++ [Recognize vision_call]).
Proof.
  unfold window_ocrmac.run_ocr_pipeline.
  change (str_eqb (lit "vision") (lit "auto")) with false.
  change (str_eqb (lit "vision") (lit "livetext")) with false.
  rewrite str_eqb_refl. cbn [orb andb truthy negb]. unfold bind, ret.
  apply ocr_image_to_text_vision.
Qed.

End BackendPolicy.


(* ----------------------------------------------------------------- *)
(** ** Backend failures in the window-capture utility *)

Section WindowUtility.
Context {U : Unicode}.
Import window_ocrmac.

Definition langs_of (args : Args) : list str := arg_lang args :: arg_extra_lang args.

(** The block ["OCR + clipboard"], which [main] contains once for each
    of its two modes. *)
Definition ocr_and_copy (env : Env) (args : Args) (img_path : str) : M Z :=
  bind (run_ocr_pipeline env img_path (arg_framework args) (arg_level args) (langs_of args))
    (fun text =>
       if negb (truthy (strip text)) then
         bind (print MsgNoTextRecognized) (fun _ => ret 7%Z)
       else
         bind (copy_to_clipboard env text) (fun _ =>
         bind (print_ok_preview text) (fun _ => ret 0%Z))).

(** [main] gets as far as the OCR of [img_path], having done [before]:
    either the image named on the command line exists, or a window was
    picked without interaction and captured. *)
Inductive reaches_ocr (env : Env) (args : Args) : str -> list event -> Prop :=
| image_mode :
    given (arg_image args) = true ->
    path_exists env (abspath env (or_empty (arg_image args))) = true ->
    reaches_ocr env args (abspath env (or_empty (arg_image args))) []
| window_mode wins w rest wid td :
    given (arg_image args) = false ->
    arg_noninteractive args = true ->
    given (arg_app args) || given (arg_title args) = true ->
    window_list env = Ok wins ->
    filter_windows wins (arg_app args) (arg_title args) = w :: rest ->
    kCGWindowNumber w = Some wid ->
    temp_dir env "window-ocr-" = Ok td ->
    screencapture env wid (td ++ lit "/capture.png") = None ->
    reaches_ocr env args (td ++ lit "/capture.png")
      [Screencapture wid (td ++ lit "/capture.png")].

Lemma main_reaches_ocr env args img_path before tr :
  reaches_ocr env args img_path before ->
  main env args tr = ocr_and_copy env args img_path (tr ++ before).
Proof.
  intros H. destruct H as [Himg Hex | wins w rest wid td Himg Hni Hflt Hwl Hfw Hn Htd Hsc];
    unfold main; rewrite Himg.
  - rewrite Hex. cbn [negb]. rewrite app_nil_r. reflexivity.
  - rewrite Hflt, Hni. cbn [negb andb].
    unfold list_on_screen_windows, screencapture_window. run.
    rewrite Hwl, Hfw, Hn, Htd, Hsc. reflexivity.
Qed.

(** C10. Any [Exception] raised by the livetext backend is swallowed by
    [run_ocr_pipeline] and counts as empty text, so with the framework
    set to [livetext] a backend failure ends [main] with the
    no-text-recognized exit code 7; an exception raised by the vision
    backend, whether the framework is [vision] or the [auto] policy fell
    back to it, is not caught and leaves [run_ocr_pipeline] and [main]. *)
Theorem livetext_failure_swallowed_vision_failure_raised
    (env : Env) (args : Args) (img_path : str) (before : list event) (tr : trace) (e : exn) :
  reaches_ocr env args img_path before ->
  let level := arg_level args in
  let langs := langs_of args in
  (is_Exception e = true ->
   recognize env (livetext_call img_path) = Raise e ->
   arg_framework args = lit "livetext" ->
   run_ocr_pipeline env img_path (lit "livetext") level langs tr
     = (Ok [], tr ++ [Recognize (livetext_call img_path)])
   /\ main env args tr
     = (Ok 7%Z, tr ++ before ++ [Recognize (livetext_call img_path);
                                  Print MsgNoTextRecognized]))
  /\ (recognize env (vision_call img_path level langs) = Raise e ->
      arg_framework args = lit "vision" ->
      run_ocr_pipeline env img_path (lit "vision") level langs tr
        = (Raise e, tr ++ [Recognize (vision_call img_path level langs)])
      /\ main env args tr
        = (Raise e, tr ++ before ++ [Recognize (vision_call img_path level langs)]))
  /\ (recognize env (vision_call img_path level langs) = Raise e ->
      arg_framework args = lit "auto" ->
      (forall e0, attempt env (livetext_call img_path) = Raise e0 ->
                  is_Exception e0 = true) ->
      fast_found env img_path = false ->
      main env args tr
        = (Raise e, tr ++ before ++ [Recognize (livetext_call img_path);
                                     Recognize (vision_call img_path level langs)])).
Proof.
  intros Hreach level langs.
  rewrite (main_reaches_ocr tr Hreach). unfold ocr_and_copy.
  fold level. fold langs. split; [|split].
  - intros Hexc Hlive Hfw.
    assert (Hl : forall e0, attempt env (livetext_call img_path) = Raise e0 ->
                 is_Exception e0 = true).
    { unfold attempt. rewrite Hlive. intros e0 He0. congruence. }
    split.
    + rewrite run_ocr_pipeline_livetext by exact Hl.
      unfold attempt. rewrite Hlive. reflexivity.
    + rewrite Hfw. unfold bind. rewrite run_ocr_pipeline_livetext by exact Hl.
      unfold attempt. rewrite Hlive. cbn. rewrite <- !app_assoc. reflexivity.
  - intros Hvis Hfw. split.
    + rewrite run_ocr_pipeline_vision. unfold attempt. rewrite Hvis. reflexivity.
    + rewrite Hfw. unfold bind. rewrite run_ocr_pipeline_vision. unfold attempt.
      rewrite Hvis, <- app_assoc. reflexivity.
  - intros Hvis Hfw Hl Hff. rewrite Hfw. unfold bind.
    pose proof (auto_policy_fallback env img_path level langs (tr ++ before) Hl)
      as (Htr & Hres & _).
    destruct (run_ocr_pipeline env img_path (lit "auto") level langs (tr ++ before))
      as [res tr'] eqn:Hrun.
    cbn [fst snd] in Htr, Hres. subst res tr'.
    rewrite Hff. unfold attempt. rewrite Hvis, <- app_assoc. reflexivity.
Qed.

End WindowUtility.

(* ----------------------------------------------------------------- *)
(** ** Language hints of the accurate backend *)

Section LanguageHints.
Context {U : Unicode}.
Import ocr_core.

Definition supported (lang : str) : bool := existsb (str_eqb lang) VISION_SUPPORTED_LANGS.

Lemma supported_In lang : supported lang = true <-> In lang VISION_SUPPORTED_LANGS.
Proof.
  unfold supported. rewrite existsb_exists. split.
  - intros (x & Hin & Heq). apply str_eqb_eq in Heq. now subst.
  - intros Hin. exists lang. split; [exact Hin|apply str_eqb_refl].
Qed.

(** C3, as the code has it. Whenever [ocr_core.ocr_image_to_text]
    invokes the vision backend, the language hints it passes are the
    configured tags that belong to the supported set, in their
    configured order, so they contain supported tags only; the hint
    list is omitted exactly when none of the configured tags, primary
    or extra, is supported. *)
Theorem vision_hints_are_supported_tags
    (env : Env) (img : Image) (cfg : OCRConfig) (tr : trace) :
  framework cfg <> lit "livetext" ->
  exists hints,
    snd (ocr_image_to_text env img cfg tr)
      = tr ++ [Recognize (VisionCall (FromImage img) (level cfg) hints)]
    /\ (forall tags, hints = Some tags ->
          tags = filter supported (languages cfg)
          /\ forall lang, In lang tags ->
               In lang VISION_SUPPORTED_LANGS /\ In lang (languages cfg))
    /\ (hints = None <->
          forall lang, In lang (languages cfg) -> ~ In lang VISION_SUPPORTED_LANGS).
Proof.
  intros Hfw.
  assert (Hneq : str_eqb (framework cfg) (lit "livetext") = false).
  { destruct (str_eqb (framework cfg) (lit "livetext")) eqn:E; [|reflexivity].
    apply str_eqb_eq in E. contradiction. }
  unfold ocr_image_to_text. rewrite Hneq. fold supported.
  destruct (filter supported (languages cfg)) as [|l0 ls] eqn:Hf.
  - exists None. split; [|split].
    + unfold OCR_recognize. run.
      destruct (recognize env (VisionCall (FromImage img) (level cfg) None)); reflexivity.
    + intros tags Ht. discriminate.
    + split; [|reflexivity]. intros _ lang Hin Hsup.
      assert (Hin' : In lang (filter supported (languages cfg))).
      { apply filter_In. split; [exact Hin|now apply supported_In]. }
      rewrite Hf in Hin'. exact Hin'.
  - exists (Some (l0 :: ls)). split; [|split].
    + unfold OCR_recognize. run.
      destruct (recognize env (VisionCall (FromImage img) (level cfg) (Some (l0 :: ls))));
        reflexivity.
    + intros tags Ht. injection Ht as <-. split; [reflexivity|].
      intros lang Hin. rewrite <- Hf in Hin. apply filter_In in Hin as [Hin Hsup].
      split; [now apply supported_In|exact Hin].
    + split; [discriminate|]. intros Hnone. exfalso.
      assert (Hin : In l0 (filter supported (languages cfg))) by (rewrite Hf; now left).
      apply filter_In in Hin as [Hin Hsup]. apply (Hnone l0 Hin). now apply supported_In.
Qed.

End LanguageHints.


(* ----------------------------------------------------------------- *)
(** ** The single-shot utility and the clipboard *)

Section SingleShot.
Context {U : Unicode}.
Import ocr_core.

Definition is_pbcopy (ev : event) : bool :=
  match ev with Pbcopy _ => true | _ => false end.

(** The configuration [main] builds from its arguments. *)
Definition config_of (args : Args) (crop : option rect) : OCRConfig :=
  {| framework := arg_framework args;
     level := arg_level args;
     languages := arg_lang args :: arg_extra_lang args;
     crop_norm := crop;
     cleanup_hud := negb (arg_no_cleanup args) |}.

Lemma OCR_recognize_trace env c tr :
  snd (OCR_recognize env c tr) = tr ++ [Recognize c].
Proof. unfold OCR_recognize. run. destruct (recognize env c); reflexivity. Qed.

(** What the recognition of a file yields does not depend on what
    happened before it. *)
Definition ocr_result (env : Env) (img_path : str) (cfg : OCRConfig) : result str :=
  fst (ocr_file_to_text env img_path cfg []).

Lemma ocr_file_to_text_result env img_path cfg tr :
  fst (ocr_file_to_text env img_path cfg tr) = ocr_result env img_path cfg.
Proof.
  unfold ocr_result, ocr_file_to_text, load_and_crop. run.
  destruct (open_image env img_path) as [img|e]; [|reflexivity].
  destruct (crop_by img (crop_norm cfg)) as [img'|e]; [|reflexivity].
  unfold ocr_image_to_text. unfold bind.
  match goal with
  | |- context [(if ?b then ?x else ?y) tr] =>
      assert (Hc : exists c, (if b then x else y) = OCR_recognize env c)
  end.
  { destruct (str_eqb _ _); [eexists; reflexivity|].
    destruct (filter _ _); eexists; reflexivity. }
  destruct Hc as [c ->]. unfold OCR_recognize. run.
  destruct (recognize env c); reflexivity.
Qed.

Lemma no_pbcopy_app a b :
  (forall t, ~ In (Pbcopy t) a) -> (forall t, ~ In (Pbcopy t) b) ->
  forall t, ~ In (Pbcopy t) (a ++ b).
Proof. intros Ha Hb t Hin. apply in_app_or in Hin as [H|H]; [eapply Ha|eapply Hb]; eauto. Qed.

(** What [ocr_file_to_text] adds to the trace holds no clipboard write. *)
Lemma ocr_file_to_text_no_pbcopy env img_path cfg tr :
  exists added,
    snd (ocr_file_to_text env img_path cfg tr) = tr ++ added
    /\ forall t, ~ In (Pbcopy t) added.
Proof.
  unfold ocr_file_to_text, load_and_crop. run.
  destruct (open_image env img_path) as [img|e];
    [|exists []; rewrite app_nil_r; split; [reflexivity|intros t []]].
  destruct (crop_by img (crop_norm cfg)) as [img'|e];
    [|exists []; rewrite app_nil_r; split; [reflexivity|intros t []]].
  unfold ocr_image_to_text. unfold bind at 1.
  match goal with
  | |- context [(if ?b then ?x else ?y) tr] =>
      assert (Hc : exists c, (if b then x else y) = OCR_recognize env c)
  end.
  { destruct (str_eqb _ _); [eexists; reflexivity|].
    destruct (filter _ _); eexists; reflexivity. }
  destruct Hc as [c ->].
  pose proof (OCR_recognize_trace env c tr) as Htr.
  destruct (OCR_recognize env c tr) as [[anns|e] tr'] eqn:Hr; cbn [snd] in Htr; subst tr';
    exists [Recognize c]; (split; [reflexivity|]);
    intros t [H|[]]; discriminate.
Qed.

(** The clipboard is written on one path only, the one that goes on to
    return 0. *)
Lemma main_clipboard_only_on_success env args tr code added :
  main env args tr = (Ok code, tr ++ added) ->
  (exists t, In (Pbcopy t) added) ->
  code = 0%Z.
Proof.
  unfold main. intros Hmain [t Hin].
  destruct (path_exists env (abspath env (arg_image args))); cbn [negb] in Hmain.
  - revert Hmain. run.
    destruct (crop_option (arg_crop args)) as [crop|e]; [|discriminate].
    fold (config_of args crop).
    destruct (ocr_file_to_text_no_pbcopy env (abspath env (arg_image args))
                (config_of args crop) tr) as (added' & Htr & Hno).
    destruct (ocr_file_to_text env (abspath env (arg_image args)) (config_of args crop) tr)
      as [[text|e] tr'] eqn:Hocr; [|discriminate].
    cbn [snd] in Htr. subst tr'.
    destruct (truthy (strip text)); cbn [negb].
    + unfold copy_to_clipboard. run.
      destruct (pbcopy env text); [discriminate|].
      intros H. injection H as <- _. reflexivity.
    + intros H. injection H as <- H.
      rewrite <- app_assoc in H. apply app_inv_head in H. subst added.
      exfalso. apply in_app_or in Hin as [Hin|[Hin|[]]]; [|discriminate].
      exact (Hno t Hin).
  - revert Hmain. run. intros H. injection H as <- H.
    apply app_inv_head in H. subst added.
    destruct Hin as [Hin|[]]. discriminate.
Qed.

(** C7. When the image exists and the recognized and cleaned text is
    empty or all white space, the single-shot utility exits with code
    3 and performs no clipboard write; in any run, a clipboard write
    occurs only on the path that exits with code 0. *)
Theorem no_text_exits_3_without_clipboard
    (env : Env) (args : Args) (crop : option rect) (text : str) (tr tr' : trace) :
  path_exists env (abspath env (arg_image args)) = true ->
  crop_option (arg_crop args) = Ok crop ->
  ocr_file_to_text env (abspath env (arg_image args)) (config_of args crop) tr
    = (Ok text, tr') ->
  truthy (strip text) = false ->
  main env args tr = (Ok 3%Z, tr' ++ [Print MsgNoTextRecognized])
  /\ (exists added, tr' ++ [Print MsgNoTextRecognized] = tr ++ added
        /\ forall t, ~ In (Pbcopy t) added)
  /\ (forall env0 args0 tr0 code added,
        main env0 args0 tr0 = (Ok code, tr0 ++ added) ->
        (exists t, In (Pbcopy t) added) -> code = 0%Z).
Proof.
  intros Hex Hcrop Hocr Hblank. split; [|split].
  - unfold main. rewrite Hex. cbn [negb]. run. rewrite Hcrop.
    fold (config_of args crop). rewrite Hocr, Hblank. reflexivity.
  - destruct (ocr_file_to_text_no_pbcopy env (abspath env (arg_image args))
                (config_of args crop) tr) as (added & Htr & Hno).
    rewrite Hocr in Htr. cbn [snd] in Htr. subst tr'.
    exists (added ++ [Print MsgNoTextRecognized]). split; [now rewrite app_assoc|].
    apply no_pbcopy_app; [exact Hno|]. intros t [H|[]]. discriminate.
  - intros env0 args0 tr0 code added. apply main_clipboard_only_on_success.
Qed.

End SingleShot.


(* ----------------------------------------------------------------- *)
(** ** The hotkey daemon *)

Section Daemon.
Context {U : Unicode}.
Import ocr_daemon.

Variable args : Args.
Variable cfg : ocr_core.OCRConfig.

Definition run_trigger (env : Env) : M unit :=
  run_once env (arg_app args) (arg_title args) cfg (arg_after args).

Definition title_l : option str :=
  if given (arg_title args) then Some (lower (or_empty (arg_title args))) else None.

(** The locator finds no window. *)
Definition window_not_found (env : Env) : Prop :=
  exists wins,
    window_list env = Ok wins
    /\ pick_window_id_loop (lower (arg_app args)) title_l wins = None.

(** A window is found and the capture of it to [img_path] is attempted. *)
Definition capture_attempted (env : Env) (wid : Z) (img_path : str) : Prop :=
  exists wins td,
    window_list env = Ok wins
    /\ pick_window_id_loop (lower (arg_app args)) title_l wins = Some wid
    /\ temp_dir env "migaku-ocr-" = Ok td
    /\ img_path = td ++ lit "/cap.png".

(** The capture utility exits with a non-zero status. *)
Definition capture_fails (env : Env) : Prop :=
  exists wid img_path rc,
    capture_attempted env wid img_path
    /\ screencapture env wid img_path = Some (CalledProcessError rc).

(** The failures [run_once] handles itself. *)
Definition handled_failure (env : Env) : Prop :=
  window_not_found env \/ capture_fails env.

(** The failures nothing handles: after a successful capture, the OCR
    raises; or the text is there and the clipboard write raises; or the
    clipboard is written and the launch of the after-command raises. *)
Inductive unhandled_failure (env : Env) (e : exn) : Prop :=
| ocr_raises wid img_path :
    capture_attempted env wid img_path ->
    screencapture env wid img_path = None ->
    ocr_result env img_path cfg = Raise e ->
    unhandled_failure env e
| clipboard_raises wid img_path text :
    capture_attempted env wid img_path ->
    screencapture env wid img_path = None ->
    ocr_result env img_path cfg = Ok text ->
    truthy (strip text) = true ->
    pbcopy env text = Some e ->
    unhandled_failure env e
| after_command_raises wid img_path text :
    capture_attempted env wid img_path ->
    screencapture env wid img_path = None ->
    ocr_result env img_path cfg = Ok text ->
    truthy (strip text) = true ->
    pbcopy env text = None ->
    given (arg_after args) = true ->
    popen env (split 32%N (or_empty (arg_after args))) = Some e ->
    unhandled_failure env e.

Lemma run_once_window_not_found env tr :
  window_not_found env ->
  run_trigger env tr
  = (Ok tt, tr ++ [Print (MsgDaemonNoWindow (arg_app args) (or_empty (arg_title args)))]).
Proof.
  intros (wins & Hwl & Hpick).
  unfold run_trigger, run_once, pick_window_id, list_windows. run.
  rewrite Hwl. fold title_l. rewrite Hpick. reflexivity.
Qed.

Lemma run_once_capture_fails env tr :
  capture_fails env ->
  exists wid img_path rc,
    run_trigger env tr
    = (Ok tt, tr ++ [Screencapture wid img_path;
                     Print (MsgDaemonCaptureFailed (CalledProcessError rc))]).
Proof.
  intros (wid & img_path & rc & (wins & td & Hwl & Hpick & Htd & ->) & Hsc).
  exists wid, (td ++ lit "/cap.png"), rc.
  unfold run_trigger, run_once, pick_window_id, list_windows, screencapture_window. run.
  rewrite Hwl. fold title_l. rewrite Hpick, Htd, Hsc. cbn.
  rewrite <- app_assoc. reflexivity.
Qed.

Lemma run_once_handled env tr :
  handled_failure env -> exists logged, run_trigger env tr = (Ok tt, tr ++ logged).
Proof.
  intros [H|H].
  - eexists. now apply run_once_window_not_found.
  - destruct (run_once_capture_fails tr H) as (wid & p & rc & Hr). eexists. exact Hr.
Qed.

Lemma run_once_unhandled env e tr :
  unhandled_failure env e -> fst (run_trigger env tr) = Raise e.
Proof.
  intros H.
  destruct H as
    [wid img_path (wins & td & Hwl & Hpick & Htd & ->) Hsc Hocr
    |wid img_path text (wins & td & Hwl & Hpick & Htd & ->) Hsc Hocr Htext Hpb
    |wid img_path text (wins & td & Hwl & Hpick & Htd & ->) Hsc Hocr Htext Hpb Haft Hpo];
    rewrite <- (ocr_file_to_text_result env (td ++ lit "/cap.png") cfg
                  (tr ++ [Screencapture wid (td ++ lit "/cap.png")])) in Hocr;
    unfold run_trigger, run_once, pick_window_id, list_windows, screencapture_window,
           ocr_core.copy_to_clipboard;
    run; rewrite Hwl; fold title_l; rewrite Hpick, Htd, Hsc; cbn [negb].
  - destruct (ocr_core.ocr_file_to_text _ _ _ _) as [[t|e0] tr'];
      cbn [fst] in Hocr; [discriminate|]. injection Hocr as ->. reflexivity.
  - destruct (ocr_core.ocr_file_to_text _ _ _ _) as [[t|e0] tr'];
      cbn [fst] in Hocr; [|discriminate]. injection Hocr as ->.
    rewrite Htext, Hpb. reflexivity.
  - destruct (ocr_core.ocr_file_to_text _ _ _ _) as [[t|e0] tr'];
      cbn [fst] in Hocr; [|discriminate]. injection Hocr as ->.
    rewrite Htext, Hpb, Haft, Hpo. reflexivity.
Qed.

(** A run that ends without an exception: it copied text, found none,
    or failed in one of the two handled ways. *)
Definition run_returns (env : Env) : Prop :=
  forall tr, fst (run_trigger env tr) = Ok tt.

Definition all_return (queue : list wakeup) : Prop :=
  Forall (fun w => exists env, w = Trigger env /\ run_returns env) queue.

Lemma handled_run_returns env : handled_failure env -> run_returns env.
Proof. intros H tr. destruct (run_once_handled tr H) as (l & ->). reflexivity. Qed.

(** Runs that return leave the loop running: every trigger is served
    and the thread is back in [get()]. *)
Lemma serve_returns queue :
  all_return queue -> forall tr, fst (serve args cfg queue tr) = Ok tt.
Proof.
  induction 1 as [|w queue (env & -> & Hret) _ IH]; intros tr; [reflexivity|].
  cbn [serve]. fold (run_trigger env). unfold bind.
  specialize (Hret tr). destruct (run_trigger env tr) as [[[]|e] tr'];
    cbn [fst] in Hret; [apply IH|discriminate].
Qed.

(** The first run that raises ends the loop with its exception. *)
Lemma serve_unhandled before env e rest tr :
  all_return before ->
  unhandled_failure env e ->
  fst (serve args cfg (before ++ Trigger env :: rest) tr) = Raise e.
Proof.
  intros Hb H. revert tr. induction Hb as [|w before (env0 & -> & Hret) _ IH]; intros tr.
  - cbn [app serve]. fold (run_trigger env). unfold bind.
    pose proof (run_once_unhandled tr H) as Hr.
    destruct (run_trigger env tr) as [[[]|e0] tr']; cbn [fst] in Hr; [discriminate|].
    injection Hr as ->. reflexivity.
  - cbn [app serve]. fold (run_trigger env0). unfold bind.
    specialize (Hret tr). destruct (run_trigger env0 tr) as [[[]|e0] tr'];
      cbn [fst] in Hret; [apply IH|discriminate].
Qed.

End Daemon.

Section DaemonMain.
Context {U : Unicode}.
Import ocr_daemon.

(** The configuration the daemon's [main] builds from its arguments. *)
Definition daemon_config (args : Args) (crop : option ocr_core.rect) : ocr_core.OCRConfig :=
  {| ocr_core.framework := arg_framework args;
     ocr_core.level := arg_level args;
     ocr_core.languages := arg_lang args :: arg_extra_lang args;
     ocr_core.crop_norm := crop;
     ocr_core.cleanup_hud := negb (arg_no_cleanup args) |}.

(** C1, as the code has it. When the window is not found or the capture
    utility fails, the failure is caught and logged and the run ends
    without an exception; after a queue of runs that end so the daemon
    is in its Idle state, alive and waiting for the next trigger.  An
    exception raised by the OCR, by the clipboard write or by the launch
    of the after-command is caught nowhere: the listener is stopped,
    the exception leaves [main], and the triggers behind it are never
    served. *)
Theorem daemon_survives_only_handled_failures
    (register_hotkey : str -> option exn) (args : Args) (crop : option ocr_core.rect) :
  register_hotkey (arg_hotkey args) = None ->
  ocr_core.crop_option (arg_crop args) = Ok crop ->
  let cfg := daemon_config args crop in
  (forall env tr,
     handled_failure args env ->
     run_returns args cfg env
     /\ exists logged, logged <> [] /\
          run_once env (arg_app args) (arg_title args) cfg (arg_after args) tr
          = (Ok tt, tr ++ logged))
  /\ (forall queue,
        all_return args cfg queue ->
        fst (main register_hotkey args queue) = Idle)
  /\ (forall before env e rest,
        all_return args cfg before ->
        unhandled_failure args cfg env e ->
        e <> KeyboardInterrupt ->
        fst (main register_hotkey args (before ++ Trigger env :: rest)) = Died e
        /\ exists tr, snd (main register_hotkey args (before ++ Trigger env :: rest))
                      = tr ++ [ListenerStop]).
Proof.
  intros Hreg Hcrop cfg. split; [|split].
  - intros env tr H. split; [now apply handled_run_returns|]. destruct H as [H|H].
    + eexists. split; [|apply (run_once_window_not_found cfg tr H)]. discriminate.
    + destruct (run_once_capture_fails cfg tr H) as (wid & p & rc & Hr).
      eexists. split; [|exact Hr]. discriminate.
  - intros queue Hq. unfold main. rewrite Hcrop. fold (daemon_config args crop).
    run. rewrite Hreg.
    pose proof (serve_returns Hq
                  ([Print (MsgDaemonRunning (arg_hotkey args));
                    Print (MsgDaemonWatching (arg_app args));
                    ListenerStart (arg_hotkey args)])) as Hs.
    cbn [app] in Hs |- *. unfold cfg in Hs.
    destruct (serve args (daemon_config args crop) queue _) as [[[]|e0] tr'];
      cbn [fst] in Hs; [reflexivity|discriminate].
  - intros before env e rest Hb Hun Hne. unfold main. rewrite Hcrop.
    fold (daemon_config args crop). run. rewrite Hreg.
    pose proof (serve_unhandled rest
                  ([Print (MsgDaemonRunning (arg_hotkey args));
                    Print (MsgDaemonWatching (arg_app args));
                    ListenerStart (arg_hotkey args)]) Hb Hun) as Hs.
    cbn [app] in Hs |- *. unfold cfg in Hs.
    destruct (serve args (daemon_config args crop) (before ++ Trigger env :: rest) _)
      as [[[]|e0] tr'];
      cbn [fst] in Hs; [discriminate|]. injection Hs as ->.
    destruct e; try congruence; cbn [fst snd]; (split; [reflexivity|eexists; reflexivity]).
Qed.

End DaemonMain.



(* ----------------------------------------------------------------- *)
(** ** ASCII inputs

    On text made of ASCII characters every character database gives the
    answers of the ASCII rows, so a function can be evaluated there with
    [ascii_unicode]. *)

Section AsciiInputs.
Context {U : Unicode}.

Definition is_ascii (c : char) : Prop := (c < 128)%N.

Definition all_ascii (s : str) : bool := forallb (fun c => (c <? 128)%N) s.

Lemma all_ascii_Forall s : all_ascii s = true -> Forall is_ascii s.
Proof.
  unfold all_ascii. rewrite forallb_forall, Forall_forall.
  intros H c Hin. apply N.ltb_lt, H, Hin.
Qed.

Lemma isspace_ascii c : is_ascii c -> isspace c = @isspace ascii_unicode c.
Proof.
  intros H. rewrite (@ascii_space U c H). symmetry. apply (@ascii_space ascii_unicode c H).
Qed.

Lemma isdecimal_ascii c : is_ascii c -> isdecimal c = @isdecimal ascii_unicode c.
Proof.
  intros H. rewrite (@ascii_decimal U c H). symmetry. apply (@ascii_decimal ascii_unicode c H).
Qed.

Lemma isalnum_ascii c : is_ascii c -> isalnum c = @isalnum ascii_unicode c.
Proof.
  intros H. rewrite (@ascii_alnum U c H). symmetry. apply (@ascii_alnum ascii_unicode c H).
Qed.

Lemma lstrip_suffix s : exists l, s = l ++ lstrip s /\ Forall (fun c => isspace c = true) l.
Proof.
  induction s as [|c s (l & Hl & Hsp)]; [exists []; split; [reflexivity|constructor]|].
  cbn [lstrip]. destruct (isspace c) eqn:Hc.
  - exists (c :: l). split; [cbn; now f_equal|now constructor].
  - exists []. split; [reflexivity|constructor].
Qed.

Lemma lstrip_is_ascii s : Forall is_ascii s -> Forall is_ascii (lstrip s).
Proof.
  intros H. destruct (lstrip_suffix s) as (l & Hl & _). rewrite Hl in H.
  now apply Forall_app in H as [_ H].
Qed.

Lemma lstrip_ascii s : Forall is_ascii s -> lstrip s = @lstrip ascii_unicode s.
Proof.
  induction 1 as [|c s Hc _ IH]; [reflexivity|].
  cbn [lstrip]. rewrite (isspace_ascii Hc), IH. reflexivity.
Qed.

Lemma strip_is_ascii s : Forall is_ascii s -> Forall is_ascii (strip s).
Proof.
  intros H. unfold strip, rstrip.
  apply Forall_rev, lstrip_is_ascii, Forall_rev, lstrip_is_ascii, H.
Qed.

Lemma strip_ascii s : Forall is_ascii s -> strip s = @strip ascii_unicode s.
Proof.
  intros H. unfold strip, rstrip.
  rewrite <- (lstrip_ascii H).
  rewrite (@lstrip_ascii (rev (lstrip s))); [reflexivity|].
  apply Forall_rev, lstrip_is_ascii, H.
Qed.

Lemma to_ascii_digit_ascii c :
  is_ascii c -> to_ascii_digit c = c /\ @to_ascii_digit ascii_unicode c = c.
Proof.
  intros H. unfold to_ascii_digit.
  rewrite (@ascii_decimal U c H), (@ascii_decimal ascii_unicode c H).
  unfold ascii_isdecimal.
  destruct ((48 <=? c) && (c <=? 57))%N eqn:Hd; [|split; reflexivity].
  apply andb_true_iff in Hd as [H1 H2]. apply N.leb_le in H1, H2.
  rewrite ascii_value by lia. cbn [decimal_value ascii_unicode]. split; lia.
Qed.

Lemma map_to_ascii_digit_ascii s :
  Forall is_ascii s -> map to_ascii_digit s = s /\ map (@to_ascii_digit ascii_unicode) s = s.
Proof.
  induction 1 as [|c s Hc _ [IH1 IH2]]; [split; reflexivity|].
  destruct (to_ascii_digit_ascii Hc) as [H1 H2].
  cbn [map]. rewrite H1, H2, IH1, IH2. split; reflexivity.
Qed.

Lemma py_float_ascii s : Forall is_ascii s -> py_float s = @py_float ascii_unicode s.
Proof.
  intros H. unfold py_float.
  destruct (map_to_ascii_digit_ascii H) as [-> ->].
  rewrite (strip_ascii H). reflexivity.
Qed.

Lemma split_is_ascii sep s : Forall is_ascii s -> Forall (Forall is_ascii) (split sep s).
Proof.
  induction 1 as [|c s Hc _ IH]; [repeat constructor|].
  cbn [split]. destruct (c =? sep)%N; [constructor; [constructor|exact IH]|].
  destruct (split sep s) as [|p ps]; [repeat constructor; exact Hc|].
  inversion IH; subst. constructor; [constructor; assumption|assumption].
Qed.

Lemma parse_crop_ascii crop :
  Forall is_ascii crop ->
  ocr_core.parse_crop crop = @ocr_core.parse_crop ascii_unicode crop.
Proof.
  intros H. unfold ocr_core.parse_crop.
  pose proof (split_is_ascii 44%N H) as Hs.
  assert (Hm : map strip (split 44%N crop) = map (@strip ascii_unicode) (split 44%N crop)
               /\ Forall (Forall is_ascii) (map strip (split 44%N crop))).
  { induction Hs as [|p ps Hp _ [IH1 IH2]]; [split; [reflexivity|constructor]|].
    cbn [map]. split; [now rewrite (strip_ascii Hp), IH1|].
    constructor; [now apply strip_is_ascii|exact IH2]. }
  destruct Hm as [Hm Ha]. rewrite <- Hm.
  destruct (map strip (split 44%N crop)) as [|p0 [|p1 [|p2 [|p3 [|p4 ps]]]]]; try reflexivity.
  inversion Ha as [|? ? H0 Ha1]; subst. inversion Ha1 as [|? ? H1 Ha2]; subst.
  inversion Ha2 as [|? ? H2 Ha3]; subst. inversion Ha3 as [|? ? H3 _]; subst.
  rewrite (py_float_ascii H0), (py_float_ascii H1), (py_float_ascii H2), (py_float_ascii H3).
  reflexivity.
Qed.

End AsciiInputs.

(* ----------------------------------------------------------------- *)
(** ** Crop-rectangle parsing *)

Section CropParsing.
Context {U : Unicode}.
Import ocr_core.

Lemma result_bind_Ok {A B} (r : result A) (k : A -> result B) b :
  result_bind r k = Ok b <-> exists a, r = Ok a /\ k a = Ok b.
Proof.
  destruct r as [a|e]; cbn; split.
  - intros H. now exists a.
  - intros (a' & Ha & Hk). now injection Ha as <-.
  - discriminate.
  - intros (a' & Ha & _). discriminate.
Qed.

Lemma py_float_raises_ValueError s e : py_float s = Raise e -> exists msg, e = ValueError msg.
Proof.
  unfold py_float, could_not_convert.
  destruct (drop_underscores _ _) as [t|]; [|intros H; injection H as <-; eauto].
  destruct (take_sign t) as [neg body].
  destruct (_ || _); [discriminate|].
  destruct (str_eqb _ _); [discriminate|].
  destruct (parse_number neg body); [discriminate|].
  intros H; injection H as <-; eauto.
Qed.

(** C6. [parse_crop] succeeds exactly on the strings that split at
    commas into four parts, each of which, stripped, reads as a number,
    with 0<=x0<x1<=1 and 0<=y0<y1<=1 for the four numbers in order; on
    every other string it raises [ValueError].  In particular it rejects
    "0.5,0.1,0.3,0.9" and "0,0,1,1.5" and accepts "0.05,0.62,0.95,0.95". *)
Theorem parse_crop_accepts_exactly_unit_rectangles :
  (forall crop r,
     parse_crop crop = Ok r <->
     exists p0 p1 p2 p3 x0 y0 x1 y1,
       split 44%N crop = [p0; p1; p2; p3]
       /\ py_float (strip p0) = Ok x0 /\ py_float (strip p1) = Ok y0
       /\ py_float (strip p2) = Ok x1 /\ py_float (strip p3) = Ok y1
       /\ r = (x0, y0, x1, y1)
       /\ float_leb float_zero x0 = true /\ float_ltb x0 x1 = true
       /\ float_leb x1 float_one = true
       /\ float_leb float_zero y0 = true /\ float_ltb y0 y1 = true
       /\ float_leb y1 float_one = true)
  /\ (forall crop, (exists r, parse_crop crop = Ok r)
                   \/ (exists msg, parse_crop crop = Raise (ValueError msg)))
  /\ parse_crop (lit "0.5,0.1,0.3,0.9")
     = Raise (ValueError "crop must satisfy 0<=x0<x1<=1 and 0<=y0<y1<=1")
  /\ parse_crop (lit "0,0,1,1.5")
     = Raise (ValueError "crop must satisfy 0<=x0<x1<=1 and 0<=y0<y1<=1")
  /\ (exists r, parse_crop (lit "0.05,0.62,0.95,0.95") = Ok r).
Proof.
  split; [|split; [|split; [|split]]].
  - intros crop r. unfold parse_crop. split.
    + intros H.
      destruct (split 44%N crop) as [|p0 [|p1 [|p2 [|p3 [|p4 ps]]]]]; try discriminate.
      cbn [map] in H.
      apply result_bind_Ok in H as (x0 & Hx0 & H).
      apply result_bind_Ok in H as (y0 & Hy0 & H).
      apply result_bind_Ok in H as (x1 & Hx1 & H).
      apply result_bind_Ok in H as (y1 & Hy1 & H).
      destruct (in_unit_square (x0, y0, x1, y1)) eqn:Hsq; [|discriminate].
      injection H as <-. unfold in_unit_square in Hsq.
      rewrite !andb_true_iff in Hsq.
      destruct Hsq as (((Ha & Hb) & Hc) & (Hd & He) & Hf).
      exists p0, p1, p2, p3, x0, y0, x1, y1. repeat split; assumption.
    + intros (p0 & p1 & p2 & p3 & x0 & y0 & x1 & y1 & Hs & H0 & H1 & H2 & H3 & -> & Hc).
      rewrite Hs. cbn [map]. rewrite H0, H1, H2, H3. cbn [result_bind].
      unfold in_unit_square.
      destruct Hc as (-> & -> & -> & -> & -> & ->). reflexivity.
  - intros crop. unfold parse_crop.
    destruct (map strip (split 44%N crop)) as [|p0 [|p1 [|p2 [|p3 [|p4 ps]]]]];
      try (right; eexists; reflexivity).
    destruct (py_float p0) as [x0|e] eqn:H0;
      [|right; apply py_float_raises_ValueError in H0 as [m ->]; eexists; reflexivity].
    destruct (py_float p1) as [y0|e] eqn:H1;
      [|right; apply py_float_raises_ValueError in H1 as [m ->]; eexists; reflexivity].
    destruct (py_float p2) as [x1|e] eqn:H2;
      [|right; apply py_float_raises_ValueError in H2 as [m ->]; eexists; reflexivity].
    destruct (py_float p3) as [y1|e] eqn:H3;
      [|right; apply py_float_raises_ValueError in H3 as [m ->]; eexists; reflexivity].
    cbn [result_bind].
    destruct (in_unit_square (x0, y0, x1, y1)); [left|right]; eexists; reflexivity.
  - rewrite (parse_crop_ascii (@all_ascii_Forall (lit "0.5,0.1,0.3,0.9") eq_refl)).
    vm_compute. reflexivity.
  - rewrite (parse_crop_ascii (@all_ascii_Forall (lit "0,0,1,1.5") eq_refl)).
    vm_compute. reflexivity.
  - rewrite (parse_crop_ascii (@all_ascii_Forall (lit "0.05,0.62,0.95,0.95") eq_refl)).
    eexists. vm_compute. reflexivity.
Qed.

End CropParsing.


(* ----------------------------------------------------------------- *)
(** ** Cropping *)

Section Cropping.
Import ocr_core.

Lemma digits2_pos_iter_xO w k :
  digits2_pos (Pos.iter xO w k) = (digits2_pos w + k)%positive.
Proof.
  induction k as [|k IH] using Pos.peano_ind.
  - cbn. lia.
  - rewrite Pos.iter_succ. cbn [digits2_pos]. rewrite IH. lia.
Qed.

Lemma Zpos_iter_xO w k : Zpos (Pos.iter xO w k) = (Zpos w * 2 ^ Zpos k)%Z.
Proof.
  induction k as [|k IH] using Pos.peano_ind.
  - cbn. lia.
  - rewrite Pos.iter_succ, Pos2Z.inj_xO, IH, Pos2Z.inj_succ, Z.pow_succ_r by lia. lia.
Qed.

Lemma digits2_pos_lower w : (2 ^ (Zpos (digits2_pos w) - 1) <= Zpos w)%Z.
Proof.
  induction w as [w IH|w IH|]; cbn [digits2_pos].
  - rewrite Pos2Z.inj_succ. replace (Z.succ (Zpos (digits2_pos w)) - 1)%Z
      with (Z.succ (Zpos (digits2_pos w) - 1))%Z by lia.
    rewrite Z.pow_succ_r by lia. lia.
  - rewrite Pos2Z.inj_succ. replace (Z.succ (Zpos (digits2_pos w)) - 1)%Z
      with (Z.succ (Zpos (digits2_pos w) - 1))%Z by lia.
    rewrite Z.pow_succ_r by lia. lia.
  - cbn. lia.
Qed.

Lemma digits2_pos_le_53 w : (Zpos w < 2 ^ 53)%Z -> (Zpos (digits2_pos w) <= 53)%Z.
Proof.
  intros H. pose proof (digits2_pos_lower w) as Hl.
  destruct (Z.le_gt_cases (Zpos (digits2_pos w)) 53) as [|Hgt]; [assumption|].
  assert (2 ^ 53 <= 2 ^ (Zpos (digits2_pos w) - 1))%Z by (apply Z.pow_le_mono_r; lia).
  lia.
Qed.

(** A normal-form mantissa survives rounding. *)
Lemma binary_round_aux_canonical s m e :
  digits2_pos m = 53%positive -> (-1074 <= e <= 971)%Z ->
  binary_round_aux prec emax s (Zpos m) e loc_Exact = S754_finite s m e.
Proof.
  intros Hd He. unfold binary_round_aux, shr_fexp, fexp, emin, prec, emax.
  cbn [Zdigits2 shr_record_of_loc]. rewrite Hd.
  replace (Z.max (53 + e - 53) (3 - 1024 - 53) - e)%Z with 0%Z by lia.
  cbn [shr shr_m loc_of_shr_record round_nearest_even Zdigits2]. rewrite Hd.
  replace (Z.max (53 + e - 53) (3 - 1024 - 53) - e)%Z with 0%Z by lia.
  cbn [shr shr_m shr_record_of_loc].
  destruct (Z.leb_spec e (1024 - 53)); [reflexivity|lia].
Qed.

Lemma float_of_int_pos w :
  (Zpos w < 2 ^ 53)%Z ->
  exists m e, float_of_int (Zpos w) = Ok (S754_finite false m e)
    /\ digits2_pos m = 53%positive /\ (-52 <= e <= 0)%Z
    /\ Z.shiftl (Zpos m) e = Zpos w.
Proof.
  intros H. apply digits2_pos_le_53 in H.
  unfold float_of_int, binary_normalize, binary_round, fexp, emin, prec, emax.
  replace (Z.max (Zpos (digits2_pos w) + 0 - 53) (3 - 1024 - 53))%Z
    with (Zpos (digits2_pos w) - 53)%Z by lia.
  unfold shl_align.
  destruct (Zpos (digits2_pos w) - 53 - 0)%Z as [|p|p] eqn:Hk; try lia.
  - assert (Hd : digits2_pos w = 53%positive) by lia.
    change (binary_round_aux 53 1024) with (binary_round_aux prec emax).
    rewrite binary_round_aux_canonical by (assumption || lia).
    exists w, 0%Z. repeat split; try assumption; try lia.
  - assert (Hd : digits2_pos (Pos.iter xO w p) = 53%positive).
    { rewrite digits2_pos_iter_xO. lia. }
    change (binary_round_aux 53 1024) with (binary_round_aux prec emax).
    rewrite binary_round_aux_canonical by (assumption || lia).
    exists (Pos.iter xO w p), (Zpos (digits2_pos w) - 53)%Z.
    repeat split; try assumption; try lia.
    replace (Zpos (digits2_pos w) - 53)%Z with (- Zpos p)%Z by lia.
    rewrite Z.shiftl_opp_r, Z.shiftr_div_pow2, Zpos_iter_xO by lia.
    apply Z.div_mul. lia.
Qed.

Lemma float_mul_one s m e :
  digits2_pos m = 53%positive -> (-1022 <= e <= 971)%Z ->
  float_mul float_one (S754_finite s m e) = S754_finite s m e.
Proof.
  intros Hd He. unfold float_mul, float_one, SFmul. cbn [xorb].
  change (Pos.mul 4503599627370496 m) with (Pos.iter xO m 52).
  unfold binary_round_aux at 1.
  unfold shr_fexp at 1. cbn [Zdigits2]. rewrite digits2_pos_iter_xO, Hd.
  unfold fexp, emin, prec, emax.
  replace (Z.max (Zpos (53 + 52) + (-52 + e) - 53) (3 - 1024 - 53) - (-52 + e))%Z with 52%Z by lia.
  cbn -[Z.add Z.sub Z.max Z.leb digits2_pos shr_fexp].
  replace (-52 + e + 52)%Z with e by lia.
  unfold shr_fexp, fexp, emin. cbn [Zdigits2 shr_record_of_loc]. rewrite Hd.
  replace (Z.max (53 + e - 53) (3 - 1024 - 53) - e)%Z with 0%Z by lia.
  cbn [shr shr_m].
  destruct (Z.leb_spec e (1024 - 53)); [reflexivity|lia].
Qed.


Lemma scaled_one n : (0 <= n < 2 ^ 53)%Z -> scaled float_one n = Ok n.
Proof.
  intros Hn. unfold scaled. destruct n as [|w|w]; try lia.
  - reflexivity.
  - destruct (@float_of_int_pos w) as (m & e & -> & Hd & He & Hsh); [lia|].
    cbn [result_bind]. rewrite float_mul_one by (assumption || lia).
    cbn [int_of_float cond_Zopp]. now rewrite Hsh.
Qed.

Lemma scaled_zero n : (0 <= n < 2 ^ 53)%Z -> scaled float_zero n = Ok 0%Z.
Proof.
  intros Hn. unfold scaled. destruct n as [|w|w]; try lia.
  - reflexivity.
  - destruct (@float_of_int_pos w) as (m & e & -> & Hd & He & Hsh); [lia|].
    reflexivity.
Qed.


(** The rectangle [(0, 0, 1, 1)], as [parse_crop] returns it. *)
Definition identity_rect : rect := (float_zero, float_zero, float_one, float_one).

(** Two crops come out the same: the same exception, or images with the
    same content. *)
Definition same_outcome (a b : result Image) : Prop :=
  match a, b with
  | Ok x, Ok y => same_content x y
  | Raise e, Raise e' => e = e'
  | _, _ => False
  end.

(** An image that [Image_crop] returned has the sizes of an image of
    the imaging core, and its pixels are those of the source, shifted. *)
Lemma Image_crop_Ok img x0 y0 x1 y1 j :
  Image_crop img (x0, y0, x1, y1) = Ok j ->
  width j = (x1 - x0)%Z /\ height j = (y1 - y0)%Z
  /\ (0 <= width j < 2 ^ 31)%Z /\ (0 <= height j < 2 ^ 31)%Z
  /\ (width j * height j <= 2 * MAX_IMAGE_PIXELS)%Z
  /\ forall x y, (0 <= x + x0 < width img)%Z -> (0 <= y + y0 < height img)%Z ->
       getpixel j x y = getpixel img (x + x0)%Z (y + y0)%Z.
Proof.
  unfold Image_crop, fits_c_int.
  destruct (Z.ltb_spec x1 x0); [discriminate|].
  destruct (Z.ltb_spec y1 y0); [discriminate|].
  destruct (Z.ltb_spec (2 * MAX_IMAGE_PIXELS) ((x1 - x0) * (y1 - y0))); [discriminate|].
  destruct (negb _); [discriminate|].
  destruct (_ && _) eqn:Hfit; [|discriminate]. cbn [negb].
  intros Hj. injection Hj as <-. cbn [width height getpixel].
  apply andb_true_iff in Hfit as [Hw Hh].
  apply andb_true_iff in Hw as [_ Hw]. apply andb_true_iff in Hh as [_ Hh].
  apply Z.ltb_lt in Hw, Hh.
  repeat split; try lia.
  intros x y Hx Hy.
  destruct (Z.leb_spec 0 (x + x0)); [|lia].
  destruct (Z.ltb_spec (x + x0) (width img)); [|lia].
  destruct (Z.leb_spec 0 (y + y0)); [|lia].
  destruct (Z.ltb_spec (y + y0) (height img)); [|lia].
  reflexivity.
Qed.

Lemma crop_by_Some_Ok img x0 y0 x1 y1 j :
  crop_by img (Some (x0, y0, x1, y1)) = Ok j ->
  exists bx0 by0 bx1 by1,
    scaled x0 (width img) = Ok bx0 /\ scaled y0 (height img) = Ok by0
    /\ scaled x1 (width img) = Ok bx1 /\ scaled y1 (height img) = Ok by1
    /\ Image_crop img (bx0, by0, bx1, by1) = Ok j.
Proof.
  unfold crop_by. intros H.
  destruct (scaled x0 (width img)) as [bx0|]; [|discriminate].
  destruct (scaled y0 (height img)) as [by0|]; [|discriminate].
  destruct (scaled x1 (width img)) as [bx1|]; [|discriminate].
  destruct (scaled y1 (height img)) as [by1|]; [|discriminate].
  cbn [result_bind] in H. exists bx0, by0, bx1, by1. repeat split; assumption.
Qed.

(** Cropping by the identity rectangle gives back an image of the
    imaging core. *)
Lemma crop_by_identity j :
  (0 <= width j < 2 ^ 31)%Z -> (0 <= height j < 2 ^ 31)%Z ->
  (width j * height j <= 2 * MAX_IMAGE_PIXELS)%Z ->
  exists j', crop_by j (Some identity_rect) = Ok j' /\ same_content j' j.
Proof.
  intros Hw Hh Ha. unfold crop_by, identity_rect.
  rewrite !scaled_zero, !scaled_one by lia. cbn [result_bind].
  unfold Image_crop, fits_c_int.
  destruct (Z.ltb_spec (width j) 0); [lia|].
  destruct (Z.ltb_spec (height j) 0); [lia|].
  replace (width j - 0)%Z with (width j) by lia.
  replace (height j - 0)%Z with (height j) by lia.
  destruct (Z.ltb_spec (2 * MAX_IMAGE_PIXELS) (width j * height j)); [lia|].
  assert (Hfw : ((- 2 ^ 31 <=? width j) && (width j <? 2 ^ 31))%Z = true).
  { apply andb_true_iff. split; [apply Z.leb_le|apply Z.ltb_lt]; lia. }
  assert (Hfh : ((- 2 ^ 31 <=? height j) && (height j <? 2 ^ 31))%Z = true).
  { apply andb_true_iff. split; [apply Z.leb_le|apply Z.ltb_lt]; lia. }
  rewrite Hfw, Hfh. cbn [andb negb Z.leb Z.ltb Z.compare Z.opp Z.pow Z.pow_pos Pos.iter Z.mul Pos.mul].
  eexists. split; [reflexivity|].
  unfold same_content. cbn [width height getpixel]. repeat split.
  intros x y Hx Hy. rewrite !Z.add_0_r.
  destruct (Z.leb_spec 0 x); [|lia]. destruct (Z.ltb_spec x (width j)); [|lia].
  destruct (Z.leb_spec 0 y); [|lia]. destruct (Z.ltb_spec y (height j)); [|lia].
  reflexivity.
Qed.

(** C9. For every image and every normalized rectangle, valid ones
    included, cropping by the rectangle (box edges: the normalized
    coordinate times the pixel width or height, truncated toward zero)
    and then cropping the result by the identity rectangle (0,0,1,1)
    comes out as cropping by the rectangle alone: the same content, or
    the same exception when the first crop raises. *)
Theorem identity_crop_is_pass_through (img : Image) (r : rect) :
  same_outcome
    (let* j := crop_by img (Some r) in crop_by j (Some identity_rect))
    (crop_by img (Some r))
  /\ (forall j, crop_by img (Some r) = Ok j ->
        exists bx0 by0 bx1 by1,
          scaled (fst (fst (fst r))) (width img) = Ok bx0
          /\ scaled (snd (fst (fst r))) (height img) = Ok by0
          /\ scaled (snd (fst r)) (width img) = Ok bx1
          /\ scaled (snd r) (height img) = Ok by1
          /\ width j = (bx1 - bx0)%Z /\ height j = (by1 - by0)%Z
          /\ forall x y, (0 <= x + bx0 < width img)%Z -> (0 <= y + by0 < height img)%Z ->
               getpixel j x y = getpixel img (x + bx0)%Z (y + by0)%Z)
  /\ (forall j, crop_by img (Some r) = Ok j ->
        exists j', crop_by j (Some identity_rect) = Ok j' /\ same_content j' j).
Proof.
  destruct r as [[[x0 y0] x1] y1].
  assert (Hid : forall j, crop_by img (Some (x0, y0, x1, y1)) = Ok j ->
                exists j', crop_by j (Some identity_rect) = Ok j' /\ same_content j' j).
  { intros j Hj.
    apply crop_by_Some_Ok in Hj as (bx0 & by0 & bx1 & by1 & _ & _ & _ & _ & Hc).
    apply Image_crop_Ok in Hc as (_ & _ & Hw & Hh & Ha & _).
    now apply crop_by_identity. }
  split; [|split].
  - match goal with
    | |- same_outcome _ ?c => destruct c as [j|e] eqn:Hj
    end.
    + cbn [result_bind]. destruct (Hid j Hj) as (j' & Hj' & Hsame).
      rewrite Hj'. exact Hsame.
    + exact eq_refl.
  - intros j Hj. cbn [fst snd].
    apply crop_by_Some_Ok in Hj as (bx0 & by0 & bx1 & by1 & H0 & H1 & H2 & H3 & Hc).
    apply Image_crop_Ok in Hc as (Hw & Hh & _ & _ & _ & Hpx).
    exists bx0, by0, bx1, by1. repeat split; assumption.
  - exact Hid.
Qed.

End Cropping.


(* ----------------------------------------------------------------- *)
(** ** The overlay cleanup *)

Section Matcher.
Context {U : Unicode}.

(** The character before the position reached after reading [w]. *)
Definition seen (prev : option char) (w : str) : option char :=
  fold_left (fun _ c => Some c) w prev.

Lemma seen_app prev a b : seen prev (a ++ b) = seen (seen prev a) b.
Proof. apply fold_left_app. Qed.

Lemma seen_cons prev c w : seen prev (c :: w) = seen (Some c) w.
Proof. reflexivity. Qed.

Lemma seen_nonempty p q w : w <> [] -> seen p w = seen q w.
Proof. destruct w; [congruence|reflexivity]. Qed.

Definition in_cat_opt (k : category) (o : option char) : bool :=
  match o with Some c => in_category k c | None => false end.

Lemma rep_greedy_sound k min cont s : forall taken prev r,
  rep_greedy k min cont taken prev s = Some r ->
  exists ds rest,
    s = ds ++ rest /\ Forall (fun c => in_category k c = true) ds
    /\ (min <= taken + length ds)%nat
    /\ cont (Cursor (seen prev ds) rest) = Some r.
Proof.
  induction s as [|c s IH]; intros taken prev r H; cbn [rep_greedy] in H.
  - destruct (Nat.leb_spec min taken); [|discriminate].
    exists [], []. cbn. repeat split; [constructor|lia|exact H].
  - destruct (in_category k c) eqn:Hc.
    + destruct (rep_greedy k min cont (S taken) (Some c) s) as [r'|] eqn:Hrec.
      * injection H as <-. apply IH in Hrec as (ds & rest & -> & Hds & Hlen & Hk).
        exists (c :: ds), rest. cbn [length app]. repeat split; [now constructor|lia|exact Hk].
      * destruct (Nat.leb_spec min taken); [|discriminate].
        exists [], (c :: s). cbn. repeat split; [constructor|lia|exact H].
    + destruct (Nat.leb_spec min taken); [|discriminate].
      exists [], (c :: s). cbn. repeat split; [constructor|lia|exact H].
Qed.

Lemma rep_greedy_complete k min cont ds : forall rest taken prev r,
  Forall (fun c => in_category k c = true) ds ->
  in_cat_opt k (hd_error rest) = false ->
  (min <= taken + length ds)%nat ->
  cont (Cursor (seen prev ds) rest) = Some r ->
  rep_greedy k min cont taken prev (ds ++ rest) = Some r.
Proof.
  induction ds as [|c ds IH]; intros rest taken prev r Hds Hrest Hlen Hk.
  - cbn [app length seen fold_left] in *.
    assert (Hstop : (if (min <=? taken)%nat then cont (Cursor prev rest) else None) = Some r).
    { destruct (Nat.leb_spec min taken); [exact Hk|lia]. }
    destruct rest as [|x rest]; cbn [rep_greedy]; [exact Hstop|].
    cbn in Hrest. rewrite Hrest. exact Hstop.
  - inversion Hds as [|? ? Hc Hds']; subst. cbn [app rep_greedy]. rewrite Hc.
    rewrite (IH rest (S taken) (Some c) r); [reflexivity|assumption|assumption| |exact Hk].
    cbn [length] in Hlen. lia.
Qed.

Fixpoint run_of (k : category) (s : str) : str :=
  match s with
  | c :: s' => if in_category k c then c :: run_of k s' else []
  | [] => []
  end.

Fixpoint after_run (k : category) (s : str) : str :=
  match s with
  | c :: s' => if in_category k c then after_run k s' else s
  | [] => []
  end.

Lemma run_of_after_run k s : s = run_of k s ++ after_run k s.
Proof.
  induction s as [|c s IH]; [reflexivity|]. cbn.
  destruct (in_category k c); [cbn; now f_equal|reflexivity].
Qed.

Lemma run_of_all k s : Forall (fun c => in_category k c = true) (run_of k s).
Proof.
  induction s as [|c s IH]; [constructor|]. cbn.
  destruct (in_category k c) eqn:Hc; [now constructor|constructor].
Qed.

Lemma after_run_head k s : in_cat_opt k (hd_error (after_run k s)) = false.
Proof.
  induction s as [|c s IH]; [reflexivity|]. cbn.
  destruct (in_category k c) eqn:Hc; [exact IH|cbn; exact Hc].
Qed.

(** With nothing left to match after it, a repetition takes the whole
    run of its class, and needs it to be long enough. *)
Lemma rep_greedy_last k min s : forall taken prev,
  rep_greedy k min (fun c => Some c) taken prev s
  = if (min <=? taken + length (run_of k s))%nat
    then Some (Cursor (seen prev (run_of k s)) (after_run k s))
    else None.
Proof.
  induction s as [|c s IH]; intros taken prev; cbn [rep_greedy run_of after_run].
  - cbn [length seen fold_left]. now rewrite Nat.add_0_r.
  - destruct (in_category k c) eqn:Hc.
    + rewrite IH. cbn [length]. rewrite <- plus_n_Sm. cbn [Nat.add].
      destruct (Nat.leb_spec min (S (taken + length (run_of k s)))); [reflexivity|].
      destruct (Nat.leb_spec min taken); [lia|reflexivity].
    + cbn [length seen fold_left]. now rewrite Nat.add_0_r.
Qed.

(** Literal characters of a pattern. *)
Lemma match_lits l p : forall cur r,
  match_atoms (map Lit l ++ p) cur = Some r <->
  exists rest, after cur = l ++ rest
    /\ match_atoms p (Cursor (seen (before cur) l) rest) = Some r.
Proof.
  induction l as [|c l IH]; intros [prev s] r; cbn [map app match_atoms after before].
  - split; [intros H; now exists s|intros (rest & -> & H); exact H].
  - destruct s as [|x s]; [split; [discriminate|intros (rest & Hs & _); discriminate]|].
    destruct (N.eqb_spec x c) as [->|Hne].
    + rewrite IH. cbn [after before]. split.
      * intros (rest & -> & H). now exists rest.
      * intros (rest & Hs & H). injection Hs as ->. now exists rest.
    + split; [discriminate|]. intros (rest & Hs & _). congruence.
Qed.


(** ** Overlay tokens *)

Definition is_digits (ds : str) : Prop :=
  ds <> [] /\ Forall (fun c => isdecimal c = true) ds.

(** The overlay tokens in the words of the description: an integer
    followed by FPS, optionally prefixed Video: or Game:, or an integer,
    an x and an integer. *)
Inductive hud_token : str -> Prop :=
| token_fps ds : is_digits ds -> hud_token (ds ++ lit "FPS")
| token_video_fps ds : is_digits ds -> hud_token (lit "Video:" ++ ds ++ lit "FPS")
| token_game_fps ds : is_digits ds -> hud_token (lit "Game:" ++ ds ++ lit "FPS")
| token_resolution ds ds' :
    is_digits ds -> is_digits ds' -> hud_token (ds ++ lit "x" ++ ds').

Lemma isword_ascii c : (c < 128)%N -> isword c = ascii_isalnum c || (c =? 95)%N.
Proof. intros H. unfold isword. now rewrite (@ascii_alnum U c H). Qed.

Lemma isword_digit c : isdecimal c = true -> isword c = true.
Proof. intros H. unfold isword. now rewrite (decimal_alnum c H). Qed.

Lemma isword_not_space c : isword c = true -> isspace c = false.
Proof.
  unfold isword. intros H. destruct (isspace c) eqn:Hs; [|reflexivity].
  rewrite (space_not_alnum c Hs) in H. cbn in H. apply N.eqb_eq in H. subst c.
  rewrite (@ascii_space U 95%N) in Hs by reflexivity. discriminate.
Qed.

Lemma isspace_not_word c : isspace c = true -> isword c = false.
Proof.
  intros H. destruct (isword c) eqn:Hw; [|reflexivity].
  apply isword_not_space in Hw. congruence.
Qed.

(** [chain c w]: in [c :: w] no two neighbours are both non-word
    characters, and the last character is a word character. *)
Fixpoint chain (c : char) (w : str) : bool :=
  match w with
  | [] => isword c
  | x :: w' => (isword c || isword x) && chain x w'
  end.

Lemma chain_words c w :
  isword c = true -> Forall (fun x => isword x = true) w -> chain c w = true.
Proof.
  intros Hc Hw. revert c Hc. induction Hw as [|x w Hx _ IH]; intros c Hc; cbn [chain].
  - exact Hc.
  - rewrite Hc, (IH x Hx). reflexivity.
Qed.

Lemma chain_words_sep c w1 x y w2 :
  Forall (fun a => isword a = true) (c :: w1) ->
  Forall (fun a => isword a = true) (y :: w2) ->
  chain c (w1 ++ x :: y :: w2) = true.
Proof.
  intros H1 H2. revert c H1. induction w1 as [|a w1 IH]; intros c H1.
  - inversion H1 as [|? ? Hc _]; subst. inversion H2 as [|? ? Hy Hw2]; subst.
    cbn [app chain]. rewrite Hc, Hy, orb_true_r. cbn [andb orb].
    now apply chain_words.
  - inversion H1 as [|? ? Hc H1']; subst. inversion H1' as [|? ? Ha _]; subst.
    cbn [app chain]. rewrite Hc, (IH a H1'). reflexivity.
Qed.

Lemma digits_words ds :
  Forall (fun c => isdecimal c = true) ds -> Forall (fun c => isword c = true) ds.
Proof. apply Forall_impl. intros c. apply isword_digit. Qed.

Lemma lit_words s :
  forallb (fun c => (c <? 128)%N && (ascii_isalnum c || (c =? 95)%N)) (lit s) = true ->
  Forall (fun c => isword c = true) (lit s).
Proof.
  rewrite forallb_forall, Forall_forall. intros H c Hin.
  specialize (H c Hin). apply andb_true_iff in H as [Hlt Hw].
  apply N.ltb_lt in Hlt. now rewrite isword_ascii.
Qed.

(** What the proofs below use of a token: it starts with a word
    character, satisfies [chain], and holds no white space. *)
Definition token_like (w : str) : Prop :=
  exists c w', w = c :: w' /\ isword c = true /\ chain c w' = true
    /\ Forall (fun x => isspace x = false) w.

Lemma words_no_space w :
  Forall (fun c => isword c = true) w -> Forall (fun c => isspace c = false) w.
Proof. apply Forall_impl. intros c. apply isword_not_space. Qed.

Lemma words_token_like w :
  w <> [] -> Forall (fun c => isword c = true) w -> token_like w.
Proof.
  intros Hne Hw. destruct w as [|c w']; [congruence|].
  inversion Hw as [|? ? Hc Hw']; subst.
  exists c, w'. repeat split; [exact Hc|now apply chain_words|now apply words_no_space].
Qed.

Lemma colon_not_space : isspace 58%N = false.
Proof. now rewrite (@ascii_space U 58%N) by reflexivity. Qed.

Lemma hud_token_like w : hud_token w -> token_like w.
Proof.
  intros H. destruct H as [ds [Hne Hds]|ds [Hne Hds]|ds [Hne Hds]|ds ds' [Hne Hds] [Hne' Hds']].
  - apply words_token_like; [destruct ds; [congruence|discriminate]|].
    apply Forall_app. split; [now apply digits_words|now apply lit_words].
  - destruct ds as [|d ds]; [congruence|].
    exists 86%N, (lit "ideo" ++ 58%N :: d :: ds ++ lit "FPS").
    assert (Hw : Forall (fun c => isword c = true) (d :: ds ++ lit "FPS")).
    { apply (Forall_app _ (d :: ds)). split; [now apply digits_words|now apply lit_words]. }
    repeat split.
    + now rewrite isword_ascii.
    + apply chain_words_sep; [apply (lit_words "Video"); reflexivity|exact Hw].
    + apply (Forall_app _ (lit "Video")). split; [apply words_no_space, lit_words; reflexivity|].
      constructor; [apply colon_not_space|now apply words_no_space].
  - destruct ds as [|d ds]; [congruence|].
    exists 71%N, (lit "ame" ++ 58%N :: d :: ds ++ lit "FPS").
    assert (Hw : Forall (fun c => isword c = true) (d :: ds ++ lit "FPS")).
    { apply (Forall_app _ (d :: ds)). split; [now apply digits_words|now apply lit_words]. }
    repeat split.
    + now rewrite isword_ascii.
    + apply chain_words_sep; [apply (lit_words "Game"); reflexivity|exact Hw].
    + apply (Forall_app _ (lit "Game")). split; [apply words_no_space, lit_words; reflexivity|].
      constructor; [apply colon_not_space|now apply words_no_space].
  - apply words_token_like; [destruct ds; [congruence|discriminate]|].
    apply Forall_app. split; [now apply digits_words|].
    apply Forall_app. split; [now apply lit_words|now apply digits_words].
Qed.

End Matcher.

Section HudMatcher.
Context {U : Unicode}.

Lemma boundary_start prev c s :
  isword c = true ->
  at_boundary (Cursor prev (c :: s)) = negb (isword_opt prev).
Proof. intros H. unfold at_boundary. cbn. rewrite H. now destruct (isword_opt prev). Qed.

Lemma boundary_end c s :
  isword c = true ->
  at_boundary (Cursor (Some c) s) = negb (isword_opt (hd_error s)).
Proof. intros H. unfold at_boundary. cbn. rewrite H. reflexivity. Qed.

Lemma not_digit_lit c :
  (c <? 128)%N && negb (ascii_isdecimal c) = true -> isdecimal c = false.
Proof.
  intros H. apply andb_true_iff in H as [Hlt Hd]. apply N.ltb_lt in Hlt.
  rewrite (@ascii_decimal U c Hlt). now apply negb_true_iff.
Qed.

Lemma seen_digits_word prev ds :
  is_digits ds -> exists d, seen prev ds = Some d /\ isword d = true.
Proof.
  intros [Hne Hds]. destruct (exists_last Hne) as (ds' & d & ->).
  exists d. rewrite seen_app. split; [reflexivity|].
  apply Forall_app in Hds as [_ Hd]. inversion Hd; subst. now apply isword_digit.
Qed.

Lemma digits_head_word ds rest :
  is_digits ds -> exists d s, ds ++ rest = d :: s /\ isword d = true.
Proof.
  intros [Hne Hds]. destruct ds as [|d ds]; [congruence|].
  inversion Hds; subst. exists d, (ds ++ rest). split; [reflexivity|now apply isword_digit].
Qed.

(** [\d+] followed by more of the pattern. *)
Lemma match_digits p cur r :
  match_atoms (Rep Digit 1 :: p) cur = Some r ->
  exists ds rest,
    after cur = ds ++ rest /\ is_digits ds
    /\ match_atoms p (Cursor (seen (before cur) ds) rest) = Some r.
Proof.
  cbn [match_atoms]. intros H.
  apply rep_greedy_sound in H as (ds & rest & Hs & Hds & Hlen & Hk).
  exists ds, rest. repeat split; try assumption.
  destruct ds; [cbn in Hlen; lia|discriminate].
Qed.

Lemma match_digits_complete p prev ds rest r :
  is_digits ds ->
  in_cat_opt Digit (hd_error rest) = false ->
  match_atoms p (Cursor (seen prev ds) rest) = Some r ->
  match_atoms (Rep Digit 1 :: p) (Cursor prev (ds ++ rest)) = Some r.
Proof.
  intros [Hne Hds] Hrest Hk. cbn [match_atoms before after].
  apply rep_greedy_complete; try assumption.
  destruct ds; [congruence|cbn; lia].
Qed.

(** The position reached by a successful match, and what was read. *)
Definition reads (cur : cursor) (w : str) (r : cursor) : Prop :=
  after cur = w ++ after r /\ before r = seen (before cur) w.

(** [\d+FPS\b], the end of the three frame-rate alternatives. *)
Lemma match_fps_tail cur r :
  match_atoms ([Rep Digit 1] ++ lits "FPS" ++ [WordBoundary]) cur = Some r ->
  exists ds, is_digits ds /\ reads cur (ds ++ lit "FPS") r
    /\ isword_opt (hd_error (after r)) = false.
Proof.
  intros H. cbn [app] in H. apply match_digits in H as (ds & rest & Hs & Hds & H).
  change (lits "FPS" ++ [WordBoundary]) with (map Lit (lit "FPS") ++ [WordBoundary]) in H.
  apply match_lits in H as (rest' & Hr & H). cbn [after before] in Hr, H.
  cbn [match_atoms] in H.
  rewrite <- seen_app in H.
  change (seen (before cur) (ds ++ lit "FPS")) with (seen (before cur) (ds ++ [70; 80; 83]%N)) in H.
  rewrite seen_app in H. cbn [seen fold_left] in H.
  rewrite boundary_end in H by (now rewrite isword_ascii).
  destruct (isword_opt (hd_error rest')) eqn:Hend; [discriminate|]. cbn [negb] in H.
  injection H as <-. exists ds. split; [exact Hds|]. split; [|exact Hend].
  unfold reads. cbn [after before]. split.
  - rewrite Hs, Hr, <- app_assoc. reflexivity.
  - rewrite seen_app. reflexivity.
Qed.

Lemma match_fps_tail_complete prev ds rest :
  is_digits ds -> isword_opt (hd_error rest) = false ->
  match_atoms ([Rep Digit 1] ++ lits "FPS" ++ [WordBoundary])
              (Cursor prev (ds ++ lit "FPS" ++ rest))
  = Some (Cursor (Some 83%N) rest).
Proof.
  intros Hds Hrest. cbn [app].
  apply match_digits_complete; [exact Hds|cbn; now apply not_digit_lit|].
  change (lits "FPS" ++ [WordBoundary]) with (map Lit (lit "FPS") ++ [WordBoundary]).
  apply match_lits. exists rest. cbn [after before]. split; [reflexivity|].
  cbn [match_atoms]. rewrite <- seen_app.
  change (seen prev (ds ++ lit "FPS")) with (seen prev (ds ++ [70; 80; 83]%N)).
  rewrite seen_app. cbn [seen fold_left].
  rewrite boundary_end by (now rewrite isword_ascii). now rewrite Hrest.
Qed.


Lemma match_boundary_start p cur r c s :
  after cur = c :: s -> isword c = true ->
  match_atoms (WordBoundary :: p) cur = Some r ->
  isword_opt (before cur) = false /\ match_atoms p cur = Some r.
Proof.
  intros Hs Hc. cbn [match_atoms]. destruct cur as [prev s0]. cbn [after before] in *. subst s0.
  rewrite boundary_start by exact Hc.
  destruct (isword_opt prev); [discriminate|]. cbn [negb]. now split.
Qed.

(** The four alternatives, one by one. *)
Lemma match_alt_fps cur r :
  match_atoms ([WordBoundary; Rep Digit 1] ++ lits "FPS" ++ [WordBoundary]) cur = Some r ->
  exists w, hud_token w /\ reads cur w r
    /\ isword_opt (before cur) = false /\ isword_opt (hd_error (after r)) = false.
Proof.
  intros H. change ([WordBoundary; Rep Digit 1] ++ lits "FPS" ++ [WordBoundary])
    with (WordBoundary :: ([Rep Digit 1] ++ lits "FPS" ++ [WordBoundary])) in H.
  assert (Ht : match_atoms ([Rep Digit 1] ++ lits "FPS" ++ [WordBoundary]) cur = Some r).
  { cbn [match_atoms] in H. destruct (at_boundary cur); [exact H|discriminate]. }
  destruct (match_fps_tail _ Ht) as (ds & Hds & Hreads & Hend).
  destruct (digits_head_word (lit "FPS" ++ after r) Hds) as (d & s0 & Hhead & Hd).
  assert (Hs : after cur = d :: s0).
  { destruct Hreads as [Hs _]. rewrite Hs, <- app_assoc. exact Hhead. }
  destruct (match_boundary_start _ _ Hs Hd H) as [Hstart _].
  exists (ds ++ lit "FPS").
  split; [now constructor|]. split; [exact Hreads|]. split; assumption.
Qed.

Lemma match_alt_prefixed (prefix : string) c0 cur r :
  (exists s0, lit prefix = c0 :: s0) -> isword c0 = true ->
  match_atoms ([WordBoundary] ++ lits prefix ++ [Rep Digit 1] ++ lits "FPS" ++ [WordBoundary])
              cur = Some r ->
  exists ds, is_digits ds /\ reads cur (lit prefix ++ ds ++ lit "FPS") r
    /\ isword_opt (before cur) = false /\ isword_opt (hd_error (after r)) = false.
Proof.
  intros [s0 Hp] Hc0 H.
  change ([WordBoundary] ++ lits prefix ++ [Rep Digit 1] ++ lits "FPS" ++ [WordBoundary])
    with (WordBoundary :: (map Lit (lit prefix)
                           ++ ([Rep Digit 1] ++ lits "FPS" ++ [WordBoundary]))) in H.
  assert (Ht : match_atoms (map Lit (lit prefix)
                 ++ ([Rep Digit 1] ++ lits "FPS" ++ [WordBoundary])) cur = Some r).
  { cbn [match_atoms] in H. destruct (at_boundary cur); [exact H|discriminate]. }
  pose proof Ht as Ht'. apply match_lits in Ht' as (rest & Hs & Ht').
  destruct (match_fps_tail _ Ht') as (ds & Hds & [Hr1 Hr2] & Hend).
  cbn [after before] in Hr1, Hr2.
  assert (Hs' : after cur = c0 :: s0 ++ rest) by (rewrite Hs, Hp; reflexivity).
  destruct (match_boundary_start _ _ Hs' Hc0 H) as [Hstart _].
  exists ds. split; [exact Hds|]. split; [|split; assumption].
  unfold reads. split.
  - rewrite Hs, Hr1, <- !app_assoc. reflexivity.
  - rewrite Hr2, <- seen_app. reflexivity.
Qed.

Lemma match_alt_resolution cur r :
  match_atoms ([WordBoundary; Rep Digit 1] ++ lits "x" ++ [Rep Digit 1; WordBoundary]) cur
    = Some r ->
  exists w, hud_token w /\ reads cur w r
    /\ isword_opt (before cur) = false /\ isword_opt (hd_error (after r)) = false.
Proof.
  intros H.
  change ([WordBoundary; Rep Digit 1] ++ lits "x" ++ [Rep Digit 1; WordBoundary])
    with (WordBoundary :: Rep Digit 1 :: map Lit (lit "x") ++ [Rep Digit 1; WordBoundary]) in H.
  assert (Ht : match_atoms (Rep Digit 1 :: map Lit (lit "x") ++ [Rep Digit 1; WordBoundary])
                 cur = Some r).
  { cbn [match_atoms] in H |- *. destruct (at_boundary cur); [exact H|discriminate]. }
  pose proof Ht as Ht'. apply match_digits in Ht' as (ds & rest & Hs & Hds & Ht').
  apply match_lits in Ht' as (rest' & Hr & Ht'). cbn [after before] in Hr, Ht'.
  apply match_digits in Ht' as (ds' & rest'' & Hs' & Hds' & Ht').
  cbn [after before] in Hs', Ht'. cbn [match_atoms] in Ht'.
  destruct (seen_digits_word (seen (seen (before cur) ds) (lit "x")) Hds') as (d' & Hseen & Hd').
  rewrite Hseen in Ht'. rewrite boundary_end in Ht' by exact Hd'.
  destruct (isword_opt (hd_error rest'')) eqn:Hend; [discriminate|]. cbn [negb] in Ht'.
  injection Ht' as <-.
  destruct (digits_head_word rest Hds) as (d & s0 & Hhead & Hd).
  assert (Hcur : after cur = d :: s0) by (rewrite Hs; exact Hhead).
  destruct (match_boundary_start _ _ Hcur Hd H) as [Hstart _].
  exists (ds ++ lit "x" ++ ds'). split; [now constructor|]. split; [|split; assumption].
  unfold reads. cbn [after before]. split.
  - rewrite Hs, Hr, Hs', <- !app_assoc. reflexivity.
  - rewrite !seen_app. symmetry. exact Hseen.
Qed.

(** Where the overlay pattern matches, a token stands between two word
    boundaries. *)
Lemma match_here_hud_sound cur r :
  match_here HUD_PATTERN cur = Some r ->
  exists w, hud_token w /\ reads cur w r
    /\ isword_opt (before cur) = false /\ isword_opt (hd_error (after r)) = false.
Proof.
  unfold HUD_PATTERN. cbn [match_here]. intros H.
  destruct (match_atoms ([WordBoundary; Rep Digit 1] ++ lits "FPS" ++ [WordBoundary]) cur)
    as [r1|] eqn:H1.
  { injection H as <-. now apply match_alt_fps. }
  destruct (match_atoms _ cur) as [r2|] eqn:H2 in H.
  { injection H as <-.
    apply (@match_alt_prefixed "Video:" 86%N) in H2
      as (ds & Hds & Hreads & Hstart & Hend);
      [|eexists; reflexivity|now rewrite isword_ascii].
    exists (lit "Video:" ++ ds ++ lit "FPS").
    split; [now constructor|]. split; [exact Hreads|]. split; assumption. }
  destruct (match_atoms _ cur) as [r3|] eqn:H3 in H.
  { injection H as <-.
    apply (@match_alt_prefixed "Game:" 71%N) in H3
      as (ds & Hds & Hreads & Hstart & Hend);
      [|eexists; reflexivity|now rewrite isword_ascii].
    exists (lit "Game:" ++ ds ++ lit "FPS").
    split; [now constructor|]. split; [exact Hreads|]. split; assumption. }
  destruct (match_atoms _ cur) as [r4|] eqn:H4 in H; [|discriminate].
  injection H as <-. now apply match_alt_resolution.
Qed.


Lemma nonword_not_digit o : isword_opt o = false -> in_cat_opt Digit o = false.
Proof.
  destruct o as [c|]; [|reflexivity]. cbn. intros H.
  destruct (isdecimal c) eqn:Hd; [|reflexivity].
  apply isword_digit in Hd. congruence.
Qed.

Lemma match_boundary_start_complete p prev c s r :
  isword c = true -> isword_opt prev = false ->
  match_atoms p (Cursor prev (c :: s)) = Some r ->
  match_atoms (WordBoundary :: p) (Cursor prev (c :: s)) = Some r.
Proof.
  intros Hc Hp H. cbn [match_atoms]. rewrite boundary_start by exact Hc.
  rewrite Hp. exact H.
Qed.

(** Where a token stands between two word boundaries, the overlay
    pattern matches. *)
Lemma match_here_hud_complete w prev rest :
  hud_token w -> isword_opt prev = false -> isword_opt (hd_error rest) = false ->
  exists r, match_here HUD_PATTERN (Cursor prev (w ++ rest)) = Some r.
Proof.
  intros Hw Hstart Hend. unfold HUD_PATTERN. cbn [match_here].
  destruct Hw as [ds Hds|ds Hds|ds Hds|ds ds' Hds Hds'].
  - destruct (digits_head_word (lit "FPS" ++ rest) Hds) as (d & s0 & Hhead & Hd).
    rewrite <- app_assoc.
    change ([WordBoundary; Rep Digit 1] ++ lits "FPS" ++ [WordBoundary])
      with (WordBoundary :: ([Rep Digit 1] ++ lits "FPS" ++ [WordBoundary])).
    pose proof (match_fps_tail_complete prev rest Hds Hend) as Ht.
    rewrite Hhead in Ht |- *.
    erewrite match_boundary_start_complete; [eexists; reflexivity|exact Hd|exact Hstart|exact Ht].
  - destruct (match_atoms _ _) as [r1|]; [eexists; reflexivity|].
    change ([WordBoundary] ++ lits "Video:" ++ [Rep Digit 1] ++ lits "FPS" ++ [WordBoundary])
      with (WordBoundary :: (map Lit (lit "Video:")
                             ++ ([Rep Digit 1] ++ lits "FPS" ++ [WordBoundary]))).
    assert (Ht : match_atoms (map Lit (lit "Video:")
                    ++ ([Rep Digit 1] ++ lits "FPS" ++ [WordBoundary]))
                   (Cursor prev ((lit "Video:" ++ ds ++ lit "FPS") ++ rest))
                 = Some (Cursor (Some 83%N) rest)).
    { apply match_lits. exists (ds ++ lit "FPS" ++ rest). cbn [after before].
      split; [now rewrite <- !app_assoc|]. now apply match_fps_tail_complete. }
    change ((lit "Video:" ++ ds ++ lit "FPS") ++ rest)
      with (86%N :: (lit "ideo:" ++ ds ++ lit "FPS") ++ rest) in Ht |- *.
    erewrite match_boundary_start_complete; [eexists; reflexivity| | |exact Ht].
    + now rewrite isword_ascii.
    + exact Hstart.
  - destruct (match_atoms _ _) as [r1|]; [eexists; reflexivity|].
    destruct (match_atoms _ _) as [r2|]; [eexists; reflexivity|].
    change ([WordBoundary] ++ lits "Game:" ++ [Rep Digit 1] ++ lits "FPS" ++ [WordBoundary])
      with (WordBoundary :: (map Lit (lit "Game:")
                             ++ ([Rep Digit 1] ++ lits "FPS" ++ [WordBoundary]))).
    assert (Ht : match_atoms (map Lit (lit "Game:")
                    ++ ([Rep Digit 1] ++ lits "FPS" ++ [WordBoundary]))
                   (Cursor prev ((lit "Game:" ++ ds ++ lit "FPS") ++ rest))
                 = Some (Cursor (Some 83%N) rest)).
    { apply match_lits. exists (ds ++ lit "FPS" ++ rest). cbn [after before].
      split; [now rewrite <- !app_assoc|]. now apply match_fps_tail_complete. }
    change ((lit "Game:" ++ ds ++ lit "FPS") ++ rest)
      with (71%N :: (lit "ame:" ++ ds ++ lit "FPS") ++ rest) in Ht |- *.
    erewrite match_boundary_start_complete; [eexists; reflexivity| | |exact Ht].
    + now rewrite isword_ascii.
    + exact Hstart.
  - destruct (match_atoms _ _) as [r1|]; [eexists; reflexivity|].
    destruct (match_atoms _ _) as [r2|]; [eexists; reflexivity|].
    destruct (match_atoms _ _) as [r3|]; [eexists; reflexivity|].
    change ([WordBoundary; Rep Digit 1] ++ lits "x" ++ [Rep Digit 1; WordBoundary])
      with (WordBoundary :: Rep Digit 1 :: map Lit (lit "x") ++ [Rep Digit 1; WordBoundary]).
    destruct (seen_digits_word (seen (seen prev ds) (lit "x")) Hds') as (d' & Hseen & Hd').
    assert (Ht : match_atoms (Rep Digit 1 :: map Lit (lit "x") ++ [Rep Digit 1; WordBoundary])
                   (Cursor prev (ds ++ lit "x" ++ ds' ++ rest))
                 = Some (Cursor (Some d') rest)).
    { apply match_digits_complete; [exact Hds|cbn; now apply not_digit_lit|].
      apply match_lits. exists (ds' ++ rest). cbn [after before]. split; [reflexivity|].
      apply match_digits_complete; [exact Hds'|now apply nonword_not_digit|].
      cbn [match_atoms]. rewrite Hseen, boundary_end by exact Hd'. now rewrite Hend. }
    destruct (digits_head_word (lit "x" ++ ds' ++ rest) Hds) as (d & s0 & Hhead & Hd).
    replace ((ds ++ lit "x" ++ ds') ++ rest) with (ds ++ lit "x" ++ ds' ++ rest)
      by (now rewrite <- !app_assoc).
    rewrite Hhead in Ht |- *.
    erewrite match_boundary_start_complete; [eexists; reflexivity|exact Hd|exact Hstart|exact Ht].
Qed.

End HudMatcher.

Section Removal.
Context {U : Unicode}.

Definition remove_loop (fuel : nat) (cur : cursor) : str :=
  sub_loop fuel HUD_PATTERN (lit "") cur.

(** A token stands in [s] between two word boundaries, [prev] being the
    character before [s]. *)
Definition occurs (prev : option char) (s : str) : Prop :=
  exists l w r,
    s = l ++ w ++ r /\ hud_token w
    /\ isword_opt (seen prev l) = false /\ isword_opt (hd_error r) = false.

Lemma sub_loop_nil fuel p repl prev : sub_loop fuel p repl (Cursor prev []) = [].
Proof. destruct fuel; reflexivity. Qed.

(** The fuel of [re_sub], the length of the subject, is enough: more of
    it changes nothing. *)
Lemma sub_loop_fuel p repl fuel : forall fuel' cur,
  (length (after cur) <= fuel)%nat -> (length (after cur) <= fuel')%nat ->
  sub_loop fuel p repl cur = sub_loop fuel' p repl cur.
Proof.
  induction fuel as [|fuel IH]; intros fuel' [prev s] H1 H2; cbn [after] in *.
  - destruct s; [|cbn in H1; lia]. now rewrite !sub_loop_nil.
  - destruct s as [|c s]; [now rewrite !sub_loop_nil|].
    destruct fuel' as [|fuel']; [cbn in H2; lia|]. cbn [length] in H1, H2.
    cbn [sub_loop after].
    destruct (match_here p (Cursor prev (c :: s))) as [r|].
    + destruct (Nat.ltb_spec (length (after r)) (length (c :: s))) as [Hlt|_].
      * cbn [length] in Hlt. f_equal. apply IH; lia.
      * f_equal. apply IH; cbn [after]; lia.
    + f_equal. apply IH; cbn [after]; lia.
Qed.

Lemma hud_token_nonempty w : hud_token w -> w <> [].
Proof. intros H. apply hud_token_like in H as (c & w' & -> & _). discriminate. Qed.

Lemma remove_step_match fuel cur r :
  after cur <> [] ->
  match_here HUD_PATTERN cur = Some r ->
  remove_loop (S fuel) cur = remove_loop fuel r.
Proof.
  intros Hne Hm. unfold remove_loop. cbn [sub_loop].
  destruct (after cur) as [|c s] eqn:Hs; [congruence|]. rewrite Hm.
  apply match_here_hud_sound in Hm as (w & Hw & [Hr _] & _).
  apply hud_token_nonempty in Hw. rewrite Hs in Hr.
  assert (Hlen : (length (after r) < length (c :: s))%nat).
  { rewrite Hr, length_app. destruct w; [congruence|cbn; lia]. }
  apply Nat.ltb_lt in Hlen. rewrite Hlen. reflexivity.
Qed.

Lemma remove_step_skip fuel prev c s :
  match_here HUD_PATTERN (Cursor prev (c :: s)) = None ->
  remove_loop (S fuel) (Cursor prev (c :: s)) = c :: remove_loop fuel (Cursor (Some c) s).
Proof. intros Hm. unfold remove_loop. cbn [sub_loop after]. now rewrite Hm. Qed.

Lemma occurs_nil prev : ~ occurs prev [].
Proof.
  intros (l & w & r & Hs & Hw & _). apply hud_token_nonempty in Hw.
  destruct l; [destruct w; [congruence|discriminate]|discriminate].
Qed.

Lemma occurs_cons prev c s : occurs (Some c) s -> occurs prev (c :: s).
Proof.
  intros (l & w & r & -> & Hw & Hl & Hr). exists (c :: l), w, r. repeat split; assumption.
Qed.

Lemma occurs_app prev l s : occurs (seen prev l) s -> occurs prev (l ++ s).
Proof.
  revert prev. induction l as [|c l IH]; intros prev H; [exact H|].
  cbn [app]. apply occurs_cons. apply IH. exact H.
Qed.

(** An occurrence in [c :: s] starts at [c] or lies in [s]. *)
Lemma occurs_cons_inv prev c s :
  occurs prev (c :: s) ->
  (exists w' r, hud_token (c :: w') /\ s = w' ++ r
     /\ isword_opt prev = false /\ isword_opt (hd_error r) = false)
  \/ occurs (Some c) s.
Proof.
  intros (l & w & r & Hs & Hw & Hl & Hr). destruct l as [|x l].
  - left. destruct w as [|x w']; [now apply hud_token_nonempty in Hw|].
    cbn in Hs. injection Hs as -> ->. exists w', r. repeat split; assumption.
  - right. cbn in Hs. injection Hs as -> ->. exists l, w, r. repeat split; assumption.
Qed.

Lemma chain_last_word c w : chain c w = true -> isword_opt (seen (Some c) w) = true.
Proof.
  revert c. induction w as [|x w IH]; intros c H; cbn [chain] in H.
  - exact H.
  - apply andb_true_iff in H as [_ H]. cbn [seen fold_left]. now apply IH.
Qed.

Lemma token_last_word prev w : hud_token w -> isword_opt (seen prev w) = true.
Proof.
  intros H. apply hud_token_like in H as (c & w' & -> & _ & Hc & _).
  cbn [seen fold_left]. now apply chain_last_word.
Qed.

(** No match begins right after a word character. *)
Lemma no_match_after_word c s :
  isword c = true -> match_here HUD_PATTERN (Cursor (Some c) s) = None.
Proof.
  intros Hc. destruct (match_here HUD_PATTERN (Cursor (Some c) s)) as [r|] eqn:Hm; [|reflexivity].
  apply match_here_hud_sound in Hm as (w & _ & _ & Hstart & _).
  cbn in Hstart. congruence.
Qed.

(** No match begins at a non-word character. *)
Lemma no_match_at_nonword prev c s :
  isword c = false -> match_here HUD_PATTERN (Cursor prev (c :: s)) = None.
Proof.
  intros Hc. destruct (match_here HUD_PATTERN (Cursor prev (c :: s))) as [r|] eqn:Hm;
    [|reflexivity].
  apply match_here_hud_sound in Hm as (w & Hw & [Hr _] & _).
  apply hud_token_like in Hw as (x & w' & -> & Hx & _).
  cbn in Hr. injection Hr as -> _. congruence.
Qed.

(** What the removal copies up to the end of a token it copied from the
    input unchanged. *)
Lemma remove_keeps_prefix w : forall fuel c s r,
  (length s <= fuel)%nat ->
  chain c w = true ->
  remove_loop fuel (Cursor (Some c) s) = w ++ r ->
  exists r0, s = w ++ r0
    /\ (isword_opt (hd_error r) = false -> isword_opt (hd_error r0) = false).
Proof.
  induction w as [|x w IH]; intros fuel c s r Hfuel Hchain Hout.
  - cbn [chain] in Hchain. cbn [app] in Hout. exists s. split; [reflexivity|].
    destruct s as [|y s]; [reflexivity|].
    destruct fuel as [|fuel]; [cbn in Hfuel; lia|].
    rewrite remove_step_skip in Hout by (now apply no_match_after_word).
    subst r. cbn. auto.
  - cbn [chain] in Hchain. apply andb_true_iff in Hchain as [Hcx Hchain].
    destruct s as [|y s].
    { unfold remove_loop in Hout. rewrite sub_loop_nil in Hout. discriminate. }
    destruct fuel as [|fuel]; [cbn in Hfuel; lia|]. cbn [length] in Hfuel.
    destruct (match_here HUD_PATTERN (Cursor (Some c) (y :: s))) as [r1|] eqn:Hm.
    + exfalso.
      rewrite (@remove_step_match fuel _ r1) in Hout by (cbn; congruence || exact Hm).
      apply match_here_hud_sound in Hm as (w1 & Hw1 & [Hr1 Hb1] & Hstart & Hend).
      cbn [before after] in Hr1, Hb1, Hstart.
      destruct r1 as [p1 s1]. cbn [before after] in *.
      destruct s1 as [|b s1].
      { unfold remove_loop in Hout. rewrite sub_loop_nil in Hout. discriminate. }
      cbn in Hend.
      assert (Hlen : (length (b :: s1) <= fuel)%nat).
      { apply hud_token_nonempty in Hw1. apply (f_equal (@length _)) in Hr1.
        rewrite length_app in Hr1. cbn [length] in Hr1 |- *.
        destruct w1; [congruence|cbn [length] in Hr1; lia]. }
      destruct fuel as [|fuel]; [cbn in Hlen; lia|].
      rewrite remove_step_skip in Hout by (now apply no_match_at_nonword).
      cbn [app] in Hout. injection Hout as <- _.
      cbn in Hstart. rewrite Hstart, Hend in Hcx. discriminate.
    + rewrite remove_step_skip in Hout by exact Hm.
      cbn [app] in Hout. injection Hout as <- Hout.
      destruct (IH fuel y s r) as (r0 & -> & Hr0); [lia|exact Hchain|exact Hout|].
      exists r0. split; [reflexivity|exact Hr0].
Qed.

(** The relation between the character before the position in the
    output ([q]) and in the input ([prev]): the same, or a token has
    just been removed. *)
Definition context_ok (q prev : option char) (s : str) : Prop :=
  q = prev
  \/ (isword_opt prev = true /\ isword_opt q = false /\ isword_opt (hd_error s) = false).

(** After the removal no token stands between word boundaries. *)
Lemma remove_loop_clean fuel : forall prev s q,
  (length s <= fuel)%nat -> context_ok q prev s ->
  ~ occurs q (remove_loop fuel (Cursor prev s)).
Proof.
  induction fuel as [|fuel IH]; intros prev s q Hfuel Hctx.
  - destruct s; [|cbn in Hfuel; lia]. cbn. apply occurs_nil.
  - destruct s as [|c s].
    { unfold remove_loop. rewrite sub_loop_nil. apply occurs_nil. }
    cbn [length] in Hfuel.
    destruct (match_here HUD_PATTERN (Cursor prev (c :: s))) as [r|] eqn:Hm.
    + rewrite (@remove_step_match fuel _ r) by (cbn; congruence || exact Hm).
      apply match_here_hud_sound in Hm as (w & Hw & [Hr Hb] & Hstart & Hend).
      destruct r as [p1 s1]. cbn [before after] in *.
      apply IH.
      * apply (f_equal (@length _)) in Hr. rewrite length_app in Hr. cbn [length] in Hr.
        apply hud_token_nonempty in Hw. destruct w; [congruence|cbn [length] in Hr; lia].
      * right. repeat split.
        -- rewrite Hb. now apply token_last_word.
        -- destruct Hctx as [->|(Hp & _ & _)]; [exact Hstart|congruence].
        -- exact Hend.
    + rewrite remove_step_skip by exact Hm.
      intros Hocc. apply occurs_cons_inv in Hocc as [(w' & r & Hw & Hout & Hq & Hr)|Hocc].
      * pose proof (hud_token_like Hw) as (c0 & w0 & Hcw & Hc & Hchain & _).
        injection Hcw as <- <-.
        destruct (@remove_keeps_prefix w' fuel c s r) as (r0 & -> & Hr0);
          [lia|exact Hchain|exact Hout|].
        assert (Hprev : isword_opt prev = false).
        { destruct Hctx as [<-|(_ & _ & Hhd)]; [exact Hq|]. cbn in Hhd. congruence. }
        destruct (@match_here_hud_complete _ (c :: w') prev r0 Hw Hprev (Hr0 Hr)) as [r1 Hr1].
        cbn [app] in Hr1. congruence.
      * revert Hocc. apply IH; [lia|now left].
Qed.

(** Where no token stands between word boundaries the removal changes
    nothing. *)
Lemma remove_loop_id fuel : forall prev s,
  (length s <= fuel)%nat -> ~ occurs prev s -> remove_loop fuel (Cursor prev s) = s.
Proof.
  induction fuel as [|fuel IH]; intros prev s Hfuel Hno; [reflexivity|].
  destruct s as [|c s]; [reflexivity|]. cbn [length] in Hfuel.
  destruct (match_here HUD_PATTERN (Cursor prev (c :: s))) as [r|] eqn:Hm.
  - exfalso. apply Hno.
    apply match_here_hud_sound in Hm as (w & Hw & [Hr Hb] & Hstart & Hend).
    cbn [before after] in *. exists [], w, (after r). repeat split; assumption.
  - rewrite remove_step_skip by exact Hm. f_equal. apply IH; [lia|].
    intros Hocc. apply Hno. now apply occurs_cons.
Qed.

End Removal.

Section Collapse.
Context {U : Unicode}.

Definition collapse_loop (fuel : nat) (cur : cursor) : str :=
  sub_loop fuel SPACES_PATTERN (lit " ") cur.

Definition space_opt (o : option char) : bool := in_cat_opt Space o.

(** No two white-space characters in a row. *)
Fixpoint no_double_space (s : str) : bool :=
  match s with
  | c :: t => negb (isspace c && space_opt (hd_error t)) && no_double_space t
  | [] => true
  end.

Lemma match_spaces cur :
  match_here SPACES_PATTERN cur
  = if (2 <=? length (run_of Space (after cur)))%nat
    then Some (Cursor (seen (before cur) (run_of Space (after cur)))
                      (after_run Space (after cur)))
    else None.
Proof.
  unfold SPACES_PATTERN. cbn [match_here match_atoms].
  rewrite rep_greedy_last. cbn [Nat.add].
  destruct (2 <=? length (run_of Space (after cur)))%nat; reflexivity.
Qed.

Lemma run_of_empty k s :
  length (run_of k s) = 0%nat <-> in_cat_opt k (hd_error s) = false.
Proof.
  destruct s as [|x s]; cbn [run_of hd_error in_cat_opt]; [tauto|].
  destruct (in_category k x); cbn [length]; split; congruence.
Qed.

Lemma run_short c s :
  (length (run_of Space (c :: s)) < 2)%nat <->
  isspace c = false \/ space_opt (hd_error s) = false.
Proof.
  unfold space_opt. rewrite <- run_of_empty.
  cbn [run_of in_category]. destruct (isspace c); cbn [length]; split.
  - intros H. right. lia.
  - intros [H|H]; [discriminate|lia].
  - now left.
  - lia.
Qed.

Lemma collapse_step_match fuel prev s :
  (2 <= length (run_of Space s))%nat ->
  collapse_loop (S fuel) (Cursor prev s)
  = 32%N :: collapse_loop fuel (Cursor (seen prev (run_of Space s)) (after_run Space s)).
Proof.
  intros Hrun. unfold collapse_loop. cbn [sub_loop after].
  destruct s as [|c s]; [cbn in Hrun; lia|].
  rewrite match_spaces. cbn [after before].
  apply Nat.leb_le in Hrun. rewrite Hrun. cbn [after].
  assert (Hlen : (length (after_run Space (c :: s)) < length (c :: s))%nat).
  { rewrite (run_of_after_run Space (c :: s)) at 2. rewrite length_app.
    apply Nat.leb_le in Hrun. lia. }
  apply Nat.ltb_lt in Hlen. rewrite Hlen. reflexivity.
Qed.

Lemma collapse_step_skip fuel prev c s :
  (length (run_of Space (c :: s)) < 2)%nat ->
  collapse_loop (S fuel) (Cursor prev (c :: s)) = c :: collapse_loop fuel (Cursor (Some c) s).
Proof.
  intros Hrun. unfold collapse_loop. cbn [sub_loop after].
  rewrite match_spaces. cbn [after before].
  destruct (Nat.leb_spec 2 (length (run_of Space (c :: s)))); [lia|reflexivity].
Qed.

Lemma after_run_length k s : (length (after_run k s) <= length s)%nat.
Proof.
  rewrite (run_of_after_run k s) at 2. rewrite length_app. lia.
Qed.

Lemma run_of_head k c s : (1 <= length (run_of k (c :: s)))%nat -> in_category k c = true.
Proof. cbn [run_of]. destruct (in_category k c); [reflexivity|cbn; lia]. Qed.

Lemma space_32 : isspace 32%N = true.
Proof. now rewrite (@ascii_space U 32%N) by reflexivity. Qed.

(** The collapsed text starts with white space exactly when the text
    does. *)
Lemma collapse_head fuel prev s :
  (length s <= fuel)%nat ->
  space_opt (hd_error (collapse_loop fuel (Cursor prev s))) = space_opt (hd_error s).
Proof.
  intros Hfuel. destruct fuel as [|fuel]; [reflexivity|].
  destruct s as [|c s]; [reflexivity|].
  destruct (Nat.le_gt_cases 2 (length (run_of Space (c :: s)))) as [Hrun|Hrun].
  - rewrite collapse_step_match by exact Hrun. cbn. rewrite space_32.
    symmetry. apply (run_of_head Space c s). lia.
  - rewrite collapse_step_skip by exact Hrun. reflexivity.
Qed.

Lemma after_long_run fuel s :
  (length s <= S fuel)%nat -> (2 <= length (run_of Space s))%nat ->
  (length (after_run Space s) <= fuel)%nat.
Proof.
  intros Hfuel Hrun.
  pose proof (f_equal (@length _) (run_of_after_run Space s)) as Hl.
  rewrite length_app in Hl. lia.
Qed.

Lemma collapse_no_double_space fuel : forall prev s,
  (length s <= fuel)%nat -> no_double_space (collapse_loop fuel (Cursor prev s)) = true.
Proof.
  induction fuel as [|fuel IH]; intros prev s Hfuel.
  - destruct s; [reflexivity|cbn in Hfuel; lia].
  - destruct s as [|c s]; [reflexivity|].
    destruct (Nat.le_gt_cases 2 (length (run_of Space (c :: s)))) as [Hrun|Hrun].
    + pose proof (@after_long_run fuel _ Hfuel Hrun) as Hlen.
      rewrite collapse_step_match by exact Hrun. cbn [no_double_space].
      rewrite collapse_head by exact Hlen.
      unfold space_opt at 1. rewrite after_run_head, andb_false_r. cbn [negb andb].
      apply IH. exact Hlen.
    + cbn [length] in Hfuel.
      rewrite collapse_step_skip by exact Hrun. cbn [no_double_space].
      rewrite collapse_head by lia. rewrite IH by lia.
      apply run_short in Hrun as [->| ->]; [reflexivity|now rewrite andb_false_r].
Qed.

Lemma no_double_space_run c s :
  no_double_space (c :: s) = true -> (length (run_of Space (c :: s)) < 2)%nat.
Proof.
  cbn [no_double_space]. intros H. apply andb_true_iff in H as [H _].
  apply negb_true_iff, andb_false_iff in H. now apply run_short.
Qed.

(** Text without two white-space characters in a row is left as it is. *)
Lemma collapse_loop_id fuel : forall prev s,
  (length s <= fuel)%nat -> no_double_space s = true ->
  collapse_loop fuel (Cursor prev s) = s.
Proof.
  induction fuel as [|fuel IH]; intros prev s Hfuel Hnds; [reflexivity|].
  destruct s as [|c s]; [reflexivity|]. cbn [length] in Hfuel.
  rewrite collapse_step_skip by (now apply no_double_space_run).
  f_equal. apply IH; [lia|]. cbn [no_double_space] in Hnds.
  now apply andb_true_iff in Hnds as [_ Hnds].
Qed.

(** What the collapse copies up to the end of a stretch without white
    space it copied from the input unchanged. *)
Lemma collapse_keeps_prefix w : forall fuel prev s r,
  (length s <= fuel)%nat ->
  Forall (fun x => isspace x = false) w ->
  collapse_loop fuel (Cursor prev s) = w ++ r ->
  exists r0, s = w ++ r0
    /\ (isword_opt (hd_error r) = false -> isword_opt (hd_error r0) = false).
Proof.
  induction w as [|x w IH]; intros fuel prev s r Hfuel Hw Hout.
  - cbn [app] in Hout. exists s. split; [reflexivity|].
    destruct s as [|y s]; [reflexivity|].
    destruct fuel as [|fuel]; [cbn in Hfuel; lia|].
    destruct (Nat.le_gt_cases 2 (length (run_of Space (y :: s)))) as [Hrun|Hrun].
    + intros _. cbn. apply isspace_not_word. apply (run_of_head Space y s). lia.
    + rewrite collapse_step_skip in Hout by exact Hrun. subst r. cbn. auto.
  - inversion Hw as [|? ? Hx Hw']; subst.
    destruct s as [|y s].
    { unfold collapse_loop in Hout. rewrite sub_loop_nil in Hout. discriminate. }
    destruct fuel as [|fuel]; [cbn in Hfuel; lia|]. cbn [length] in Hfuel.
    destruct (Nat.le_gt_cases 2 (length (run_of Space (y :: s)))) as [Hrun|Hrun].
    + rewrite collapse_step_match in Hout by exact Hrun.
      cbn [app] in Hout. injection Hout as <- _. rewrite space_32 in Hx. discriminate.
    + rewrite collapse_step_skip in Hout by exact Hrun.
      cbn [app] in Hout. injection Hout as <- Hout.
      destruct (IH fuel (Some y) s r) as (r0 & -> & Hr0); [lia|exact Hw'|exact Hout|].
      exists r0. split; [reflexivity|exact Hr0].
Qed.

Lemma seen_spaces_nonword prev ds :
  ds <> [] -> Forall (fun c => isspace c = true) ds -> isword_opt (seen prev ds) = false.
Proof.
  intros Hne Hds. destruct (exists_last Hne) as (ds' & d & ->).
  rewrite seen_app. cbn. apply Forall_app in Hds as [_ Hd]. inversion Hd; subst.
  now apply isspace_not_word.
Qed.

(** The collapse brings no token into being. *)
Lemma collapse_loop_occurs fuel : forall prev s q p,
  (length s <= fuel)%nat ->
  (isword_opt q = false -> isword_opt p = false) ->
  occurs q (collapse_loop fuel (Cursor prev s)) -> occurs p s.
Proof.
  induction fuel as [|fuel IH]; intros prev s q p Hfuel Hqp Hocc.
  - destruct s; [|cbn in Hfuel; lia]. now apply occurs_nil in Hocc.
  - destruct s as [|c s].
    { unfold collapse_loop in Hocc. rewrite sub_loop_nil in Hocc.
      now apply occurs_nil in Hocc. }
    destruct (Nat.le_gt_cases 2 (length (run_of Space (c :: s)))) as [Hrun|Hrun].
    + pose proof (@after_long_run fuel _ Hfuel Hrun) as Hlen.
      rewrite collapse_step_match in Hocc by exact Hrun.
      apply occurs_cons_inv in Hocc as [(w' & r & Hw & _)|Hocc].
      * apply hud_token_like in Hw as (c0 & w0 & Hcw & Hc & _).
        injection Hcw as <- _. apply isword_not_space in Hc.
        rewrite space_32 in Hc. discriminate.
      * rewrite (run_of_after_run Space (c :: s)). apply occurs_app.
        eapply (IH _ _ (Some 32%N)); [exact Hlen| |exact Hocc].
        intros _. apply seen_spaces_nonword; [|exact (run_of_all Space (c :: s))].
        destruct (run_of Space (c :: s)); [cbn in Hrun; lia|discriminate].
    + cbn [length] in Hfuel. rewrite collapse_step_skip in Hocc by exact Hrun.
      apply occurs_cons_inv in Hocc as [(w' & r & Hw & Hout & Hq & Hr)|Hocc].
      * pose proof (hud_token_like Hw) as (c0 & w0 & Hcw & _ & _ & Hns).
        injection Hcw as <- <-. inversion Hns as [|? ? _ Hns']; subst.
        destruct (@collapse_keeps_prefix w' fuel (Some c) s r) as (r0 & -> & Hr0);
          [lia|exact Hns'|exact Hout|].
        exists [], (c :: w'), r0. repeat split; [exact Hw|now apply Hqp|now apply Hr0].
      * apply occurs_cons. apply (IH (Some c) s (Some c) (Some c)); [lia|auto|exact Hocc].
Qed.

End Collapse.

Section Strip.
Context {U : Unicode}.

Lemma rstrip_prefix s : exists r, s = rstrip s ++ r /\ Forall (fun c => isspace c = true) r.
Proof.
  unfold rstrip. destruct (lstrip_suffix (rev s)) as (l & Hl & Hsp).
  exists (rev l). split; [|now apply Forall_rev].
  rewrite <- rev_app_distr, <- Hl, rev_involutive. reflexivity.
Qed.

Lemma strip_decomp s :
  exists l r, s = l ++ strip s ++ r
    /\ Forall (fun c => isspace c = true) l /\ Forall (fun c => isspace c = true) r.
Proof.
  unfold strip. destruct (lstrip_suffix s) as (l & Hl & Hlsp).
  destruct (rstrip_prefix (lstrip s)) as (r & Hr & Hrsp).
  exists l, r. split; [|split; assumption]. rewrite <- Hr. exact Hl.
Qed.

Lemma lstrip_head s : space_opt (hd_error (lstrip s)) = false.
Proof.
  induction s as [|c s IH]; [reflexivity|]. cbn [lstrip].
  destruct (isspace c) eqn:Hc; [exact IH|cbn; exact Hc].
Qed.

Lemma lstrip_id s : space_opt (hd_error s) = false -> lstrip s = s.
Proof. destruct s as [|c s]; [reflexivity|]. cbn. now intros ->. Qed.

Lemma rstrip_head s : space_opt (hd_error s) = false -> space_opt (hd_error (rstrip s)) = false.
Proof.
  intros H. destruct (rstrip_prefix s) as (r & Hr & _).
  destruct (rstrip s) as [|c t]; [reflexivity|].
  rewrite Hr in H. exact H.
Qed.

Lemma rstrip_idem s : rstrip (rstrip s) = rstrip s.
Proof.
  unfold rstrip. rewrite rev_involutive. f_equal. apply lstrip_id, lstrip_head.
Qed.

(** [strip] of stripped text changes nothing. *)
Lemma strip_idem s : strip (strip s) = strip s.
Proof.
  unfold strip at 1. rewrite lstrip_id.
  - unfold strip. apply rstrip_idem.
  - unfold strip. apply rstrip_head, lstrip_head.
Qed.

Lemma no_double_space_app_r a b : no_double_space (a ++ b) = true -> no_double_space b = true.
Proof.
  induction a as [|c a IH]; [auto|]. cbn [app no_double_space]. intros H.
  apply andb_true_iff in H as [_ H]. auto.
Qed.

Lemma no_double_space_app_l a b : no_double_space (a ++ b) = true -> no_double_space a = true.
Proof.
  induction a as [|c a IH]; [reflexivity|]. cbn [app no_double_space]. intros H.
  apply andb_true_iff in H as [H1 H2]. rewrite (IH H2), andb_true_r.
  destruct a as [|x a]; [now rewrite andb_false_r|exact H1].
Qed.

Lemma strip_no_double_space s : no_double_space s = true -> no_double_space (strip s) = true.
Proof.
  intros H. destruct (strip_decomp s) as (l & r & Hs & _). rewrite Hs in H.
  apply no_double_space_app_r in H. now apply no_double_space_app_l in H.
Qed.

Lemma spaces_head_nonword r :
  Forall (fun c => isspace c = true) r -> isword_opt (hd_error r) = false.
Proof. intros H. destruct H as [|c r Hc _]; [reflexivity|]. cbn. now apply isspace_not_word. Qed.

(** Stripping brings no token into being. *)
Lemma strip_occurs s : occurs None (strip s) -> occurs None s.
Proof.
  intros (l1 & w & r1 & Hs & Hw & Hl & Hr).
  destruct (strip_decomp s) as (l & r & Hd & Hlsp & Hrsp).
  exists (l ++ l1), w, (r1 ++ r). split; [|split; [exact Hw|split]].
  - rewrite Hd, Hs, <- !app_assoc. reflexivity.
  - rewrite seen_app. destruct l1 as [|x l1].
    + cbn [seen fold_left]. destruct l as [|y l]; [reflexivity|].
      apply seen_spaces_nonword; [discriminate|exact Hlsp].
    + rewrite (@seen_nonempty _ None (x :: l1)) by discriminate. exact Hl.
  - destruct r1 as [|x r1]; [|exact Hr]. cbn [app]. now apply spaces_head_nonword.
Qed.

End Strip.

Section Cleanup.
Context {U : Unicode}.

Lemma removed_clean t : ~ occurs None (re_sub HUD_PATTERN (lit "") t).
Proof. apply (@remove_loop_clean U (length t) None t None); [lia|now left]. Qed.

Lemma cleaned_clean t : ~ occurs None (cleanup_hud_text t).
Proof.
  unfold cleanup_hud_text. intros H. apply strip_occurs in H.
  unfold re_sub at 1 in H.
  apply (@collapse_loop_occurs _ _ None _ None None) in H; [|lia|auto].
  revert H. apply removed_clean.
Qed.

Lemma cleaned_no_double_space t : no_double_space (cleanup_hud_text t) = true.
Proof.
  unfold cleanup_hud_text. apply strip_no_double_space.
  apply collapse_no_double_space. lia.
Qed.

(** C4. The overlay cleanup (remove the frame-rate and resolution
    tokens, collapse every run of two or more white-space characters
    into one space, trim) is idempotent: cleaning cleaned text changes
    nothing, for every text. *)
Theorem cleanup_idempotent (t : str) :
  cleanup_hud_text (cleanup_hud_text t) = cleanup_hud_text t.
Proof.
  pose proof (cleaned_clean t) as Hclean.
  pose proof (cleaned_no_double_space t) as Hnds.
  set (k := cleanup_hud_text t) in *.
  assert (Hstrip : strip k = k) by (unfold k, cleanup_hud_text; apply strip_idem).
  unfold cleanup_hud_text at 1.
  assert (Hrem : re_sub HUD_PATTERN (lit "") k = k).
  { apply (@remove_loop_id U (length k) None k); [lia|exact Hclean]. }
  rewrite Hrem.
  assert (Hcol : re_sub SPACES_PATTERN (lit " ") k = k).
  { apply (@collapse_loop_id U (length k) None k); [lia|exact Hnds]. }
  rewrite Hcol. exact Hstrip.
Qed.

End Cleanup.

Section AsciiText.
Context {U : Unicode}.

Definition ascii_opt (o : option char) : Prop :=
  match o with Some c => is_ascii c | None => True end.

Definition ascii_cursor (cur : cursor) : Prop :=
  ascii_opt (before cur) /\ Forall is_ascii (after cur).

Lemma isword_opt_ascii o : ascii_opt o -> isword_opt o = @isword_opt ascii_unicode o.
Proof.
  destruct o as [c|]; [|reflexivity]. cbn. intros H. unfold isword.
  now rewrite (isalnum_ascii H).
Qed.

Lemma in_category_ascii k c : is_ascii c -> in_category k c = @in_category ascii_unicode k c.
Proof. intros H. destruct k; cbn; [now apply isdecimal_ascii|now apply isspace_ascii]. Qed.

Lemma at_boundary_ascii cur :
  ascii_cursor cur -> at_boundary cur = @at_boundary ascii_unicode cur.
Proof.
  intros [Hb Ha]. unfold at_boundary. rewrite (isword_opt_ascii _ Hb). f_equal.
  apply isword_opt_ascii. destruct Ha; cbn; auto.
Qed.

Lemma rep_greedy_ascii k min cont cont' s : forall taken prev,
  (forall cur, ascii_cursor cur -> cont cur = cont' cur) ->
  ascii_opt prev -> Forall is_ascii s ->
  rep_greedy k min cont taken prev s = @rep_greedy ascii_unicode k min cont' taken prev s.
Proof.
  induction s as [|c s IH]; intros taken prev Hcont Hp Hs; cbn [rep_greedy].
  - rewrite Hcont by (split; assumption). reflexivity.
  - inversion Hs as [|? ? Hc Hs']; subst.
    rewrite (in_category_ascii k Hc), (IH (S taken) (Some c) Hcont Hc Hs').
    rewrite Hcont by (split; assumption). reflexivity.
Qed.

Lemma match_atoms_ascii p : forall cur,
  ascii_cursor cur -> match_atoms p cur = @match_atoms ascii_unicode p cur.
Proof.
  induction p as [|a p IH]; intros cur Hcur; [reflexivity|].
  destruct a as [c| |k min]; cbn [match_atoms].
  - destruct Hcur as [_ Ha]. destruct (after cur) as [|x s]; [reflexivity|].
    inversion Ha; subst. destruct (x =? c)%N; [|reflexivity].
    apply IH. split; assumption.
  - rewrite (at_boundary_ascii Hcur). destruct (at_boundary cur); [now apply IH|reflexivity].
  - destruct Hcur as [Hb Ha]. now apply rep_greedy_ascii.
Qed.

Lemma match_here_ascii p cur :
  ascii_cursor cur -> match_here p cur = @match_here ascii_unicode p cur.
Proof.
  intros Hcur. induction p as [|alt p IH]; [reflexivity|]. cbn [match_here].
  rewrite (match_atoms_ascii alt Hcur), IH. reflexivity.
Qed.

(** A successful match leaves the cursor further along the subject. *)
Lemma match_atoms_reads p : forall cur r,
  match_atoms p cur = Some r -> exists w, reads cur w r.
Proof.
  induction p as [|a p IH]; intros cur r H.
  - injection H as <-. exists []. split; reflexivity.
  - destruct a as [c| |k min]; cbn [match_atoms] in H.
    + destruct (after cur) as [|x s] eqn:Hs; [discriminate|].
      destruct (x =? c)%N; [|discriminate].
      apply IH in H as (w & Hw & Hb). cbn [after before] in Hw, Hb.
      exists (x :: w). split; [rewrite Hs, Hw; reflexivity|exact Hb].
    + destruct (at_boundary cur); [now apply IH|discriminate].
    + apply rep_greedy_sound in H as (ds & rest & Hs & _ & _ & H).
      apply IH in H as (w & Hw & Hb). cbn [after before] in Hw, Hb.
      exists (ds ++ w). split; [rewrite Hs, Hw, app_assoc; reflexivity|].
      rewrite seen_app. exact Hb.
Qed.

Lemma match_here_reads p cur r :
  match_here p cur = Some r -> exists w, reads cur w r.
Proof.
  induction p as [|alt p IH]; [discriminate|]. cbn [match_here].
  destruct (match_atoms alt cur) as [r'|] eqn:Hm; [|exact IH].
  intros H. injection H as <-. now apply match_atoms_reads in Hm.
Qed.

Lemma seen_ascii prev w : ascii_opt prev -> Forall is_ascii w -> ascii_opt (seen prev w).
Proof.
  revert prev. induction w as [|c w IH]; intros prev Hp Hw; [exact Hp|].
  inversion Hw; subst. cbn [seen fold_left]. now apply IH.
Qed.

Lemma reads_ascii cur w r : reads cur w r -> ascii_cursor cur -> ascii_cursor r.
Proof.
  intros [Hs Hb] [Hp Ha]. rewrite Hs in Ha. apply Forall_app in Ha as [Hw Hr].
  split; [rewrite Hb; now apply seen_ascii|exact Hr].
Qed.

Lemma sub_loop_ascii p repl fuel : forall cur,
  ascii_cursor cur ->
  sub_loop fuel p repl cur = @sub_loop ascii_unicode fuel p repl cur.
Proof.
  induction fuel as [|fuel IH]; intros cur Hcur; [reflexivity|]. cbn [sub_loop].
  destruct (after cur) as [|c s] eqn:Hs; [reflexivity|].
  assert (Hnext : ascii_cursor (Cursor (Some c) s)).
  { destruct Hcur as [_ Ha]. rewrite Hs in Ha. inversion Ha; subst. split; assumption. }
  rewrite <- (match_here_ascii p Hcur).
  destruct (match_here p cur) as [r|] eqn:Hm.
  - destruct (match_here_reads _ _ Hm) as (w & Hw).
    rewrite (IH r (reads_ascii Hw Hcur)), (IH _ Hnext). reflexivity.
  - now rewrite (IH _ Hnext).
Qed.

Lemma sub_loop_is_ascii p repl fuel : forall cur,
  Forall is_ascii repl -> ascii_cursor cur -> Forall is_ascii (sub_loop fuel p repl cur).
Proof.
  intros cur Hrepl. revert cur.
  induction fuel as [|fuel IH]; intros cur Hcur; [exact (proj2 Hcur)|]. cbn [sub_loop].
  destruct (after cur) as [|c s] eqn:Hs; [constructor|].
  assert (Hc : is_ascii c /\ ascii_cursor (Cursor (Some c) s)).
  { destruct Hcur as [_ Ha]. rewrite Hs in Ha. inversion Ha; subst. repeat split; assumption. }
  destruct Hc as [Hc Hnext].
  destruct (match_here p cur) as [r|] eqn:Hm.
  - destruct (match_here_reads _ _ Hm) as (w & Hw).
    destruct (_ <? _)%nat.
    + apply Forall_app. split; [exact Hrepl|]. apply IH. exact (reads_ascii Hw Hcur).
    + constructor; [exact Hc|now apply IH].
  - constructor; [exact Hc|now apply IH].
Qed.

Lemma cleanup_hud_text_ascii t :
  Forall is_ascii t -> cleanup_hud_text t = @cleanup_hud_text ascii_unicode t.
Proof.
  intros Ht. unfold cleanup_hud_text, re_sub.
  assert (Hcur : ascii_cursor (Cursor None t)) by (split; [exact I|exact Ht]).
  rewrite <- (sub_loop_ascii HUD_PATTERN (lit "") (length t) Hcur).
  set (out := sub_loop (length t) HUD_PATTERN (lit "") (Cursor None t)).
  assert (Hout : Forall is_ascii out).
  { apply sub_loop_is_ascii; [constructor|exact Hcur]. }
  assert (Hcur' : ascii_cursor (Cursor None out)) by (split; [exact I|exact Hout]).
  rewrite <- (sub_loop_ascii SPACES_PATTERN (lit " ") (length out) Hcur').
  apply strip_ascii. apply sub_loop_is_ascii; [|exact Hcur'].
  apply all_ascii_Forall. reflexivity.
Qed.

End AsciiText.

Section CleanupSpec.
Context {U : Unicode}.

(** C5. The cleanup removes the overlay tokens, then collapses the runs
    of two or more white-space characters into one space, then trims.
    The pattern matches at a position exactly when a token stands there
    between two word boundaries: an integer followed by FPS, optionally
    prefixed Video: or Game:, or an integer, an x and an integer.  After
    the removal the pattern matches at no position of the text; after
    the collapse no two white-space characters are neighbours; after
    the trim no white space leads or trails.  The input
    "Hello 60FPS world 1920x1080 end" yields "Hello world end". *)
Theorem cleanup_removes_overlay_tokens :
  (forall t, cleanup_hud_text t
             = strip (re_sub SPACES_PATTERN (lit " ") (re_sub HUD_PATTERN (lit "") t)))
  /\ (forall cur r, match_here HUD_PATTERN cur = Some r ->
        exists w, hud_token w /\ reads cur w r
          /\ isword_opt (before cur) = false /\ isword_opt (hd_error (after r)) = false)
  /\ (forall w prev rest, hud_token w ->
        isword_opt prev = false -> isword_opt (hd_error rest) = false ->
        exists r, match_here HUD_PATTERN (Cursor prev (w ++ rest)) = Some r)
  /\ (forall t l r, re_sub HUD_PATTERN (lit "") t = l ++ r ->
        match_here HUD_PATTERN (Cursor (seen None l) r) = None)
  /\ (forall s, no_double_space (re_sub SPACES_PATTERN (lit " ") s) = true)
  /\ (forall s, space_opt (hd_error (strip s)) = false
                /\ space_opt (hd_error (rev (strip s))) = false)
  /\ cleanup_hud_text (lit "Hello 60FPS world 1920x1080 end") = lit "Hello world end".
Proof.
  split; [reflexivity|]. split; [exact match_here_hud_sound|].
  split; [exact match_here_hud_complete|]. split; [|split; [|split]].
  - intros t l r Hout.
    destruct (match_here HUD_PATTERN (Cursor (seen None l) r)) as [r1|] eqn:Hm; [|reflexivity].
    exfalso. apply (removed_clean t). rewrite Hout.
    apply match_here_hud_sound in Hm as (w & Hw & [Hr _] & Hstart & Hend).
    cbn [before after] in *. exists l, w, (after r1). rewrite <- Hr. repeat split; assumption.
  - intros s. unfold re_sub. apply collapse_no_double_space. lia.
  - intros s. split.
    + unfold strip. apply rstrip_head, lstrip_head.
    + unfold strip, rstrip. rewrite rev_involutive. apply lstrip_head.
  - rewrite (cleanup_hud_text_ascii
               (@all_ascii_Forall (lit "Hello 60FPS world 1920x1080 end") eq_refl)).
    vm_compute. reflexivity.
Qed.

End CleanupSpec.

(* ----------------------------------------------------------------- *)
(** ** Concrete runs

    A small world on which the programs are run: two DuckStation
    windows, an overlay on layer 25 and the game on layer 0, a blank
    image, and collaborators that answer as told. *)

Definition blank_image : Image :=
  {| width := 4; height := 2; getpixel := fun _ _ => black |}.

Definition fragment (t : string) : annotation :=
  {| ann_text := lit t;
     ann_confidence := float_one;
     ann_bbox := (float_zero, float_zero, float_one, float_one) |}.

Definition overlay_window : Window :=
  {| kCGWindowOwnerName := Some (lit "DuckStation");
     kCGWindowName := Some (lit "FPS overlay");
     kCGWindowNumber := Some 7%Z;
     kCGWindowLayer := Some 25%Z |}.

Definition game_window : Window :=
  {| kCGWindowOwnerName := Some (lit "DuckStation");
     kCGWindowName := Some (lit "Game");
     kCGWindowNumber := Some 42%Z;
     kCGWindowLayer := Some 0%Z |}.

Definition two_windows : list Window := [overlay_window; game_window].

Definition host (wins : list Window) (engine : ocr_call -> result (list annotation))
    (capture clipboard launch : option exn) : Env :=
  {| abspath := fun p => p;
     path_exists := fun _ => true;
     open_image := fun _ => Ok blank_image;
     recognize := engine;
     window_list := Ok wins;
     temp_dir := fun _ => Ok (lit "/tmp/ocr");
     screencapture := fun _ _ => capture;
     pbcopy := fun _ => clipboard;
     popen := fun _ => launch;
     stdin := [] |}.

(** Recognition engines. *)
Definition sees (t : string) : ocr_call -> result (list annotation) :=
  fun _ => Ok [fragment t].
Definition sees_nothing : ocr_call -> result (list annotation) := fun _ => Ok [].
Definition breaks : ocr_call -> result (list annotation) :=
  fun _ => Raise (OtherException "OCRError").
Definition only_vision_sees (t : string) : ocr_call -> result (list annotation) :=
  fun c => match c with LiveText _ => Ok [] | VisionCall _ _ _ => Ok [fragment t] end.
Definition livetext_breaks : ocr_call -> result (list annotation) :=
  fun c => match c with
           | LiveText _ => Raise (OtherException "OCRError")
           | VisionCall _ _ _ => Ok []
           end.

Definition quiet_host : Env := host two_windows sees_nothing None None None.

Lemma pick_window_id_first_match_witness :
  window_list quiet_host = Ok two_windows
  /\ @ocr_daemon.pick_window_id ascii_unicode quiet_host (lit "duck") None []
     = (Ok (Some 42%Z), []).
Proof.
  split; [reflexivity|].
  destruct (@pick_window_id_first_match ascii_unicode quiet_host (lit "duck") None
              two_windows [] eq_refl) as (_ & Hfirst & _).
  destruct Hfirst as [Hrun _]; [repeat constructor; discriminate|].
  exact Hrun.
Defined.

(** The window-capture utility, run on a file. *)
Definition capture_args (framework : string) : window_ocrmac.Args :=
  {| window_ocrmac.arg_image := Some (lit "shot.png");
     window_ocrmac.arg_app := None;
     window_ocrmac.arg_title := None;
     window_ocrmac.arg_noninteractive := false;
     window_ocrmac.arg_framework := lit framework;
     window_ocrmac.arg_level := lit "accurate";
     window_ocrmac.arg_lang := lit "ja-JP";
     window_ocrmac.arg_extra_lang := [] |}.

Lemma auto_policy_fallback_witness :
  (forall e,
     @attempt ascii_unicode (host two_windows (only_vision_sees "abc") None None None)
       (livetext_call (lit "shot.png")) = Raise e -> is_Exception e = true)
  /\ @window_ocrmac.run_ocr_pipeline ascii_unicode
       (host two_windows (only_vision_sees "abc") None None None)
       (lit "shot.png") (lit "auto") (lit "accurate") [lit "ja-JP"] []
     = (Ok (lit "abc"),
        [Recognize (livetext_call (lit "shot.png"));
         Recognize (vision_call (lit "shot.png") (lit "accurate") [lit "ja-JP"])]).
Proof.
  assert (H : forall e,
     @attempt ascii_unicode (host two_windows (only_vision_sees "abc") None None None)
       (livetext_call (lit "shot.png")) = Raise e -> is_Exception e = true)
    by (intros e He; discriminate He).
  split; [exact H|].
  pose proof (@auto_policy_fallback ascii_unicode
                (host two_windows (only_vision_sees "abc") None None None)
                (lit "shot.png") (lit "accurate") [lit "ja-JP"] [] H) as (Htr & Hres & _).
  apply injective_projections; [exact Hres|exact Htr].
Defined.

Lemma livetext_failure_swallowed_vision_failure_raised_witness :
  @reaches_ocr ascii_unicode (host two_windows livetext_breaks None None None)
    (capture_args "livetext") (lit "shot.png") []
  /\ @window_ocrmac.main ascii_unicode (host two_windows livetext_breaks None None None)
       (capture_args "livetext") []
     = (Ok 7%Z, [Recognize (livetext_call (lit "shot.png")); Print MsgNoTextRecognized]).
Proof.
  assert (H : @reaches_ocr ascii_unicode (host two_windows livetext_breaks None None None)
                (capture_args "livetext") (lit "shot.png") []).
  { apply (@image_mode ascii_unicode (host two_windows livetext_breaks None None None)
             (capture_args "livetext")); reflexivity. }
  split; [exact H|].
  destruct (@livetext_failure_swallowed_vision_failure_raised ascii_unicode
              (host two_windows livetext_breaks None None None)
              (capture_args "livetext") (lit "shot.png") [] []
              (OtherException "OCRError") H) as (Hlive & _).
  destruct (Hlive eq_refl eq_refl eq_refl) as [_ Hmain]. exact Hmain.
Defined.

(** The shared OCR core, configured for the vision backend with an
    unsupported primary language and a supported extra one. *)
Definition vision_config (langs : list str) : ocr_core.OCRConfig :=
  {| ocr_core.framework := lit "vision";
     ocr_core.level := lit "fast";
     ocr_core.languages := langs;
     ocr_core.crop_norm := None;
     ocr_core.cleanup_hud := true |}.

Lemma vision_hints_are_supported_tags_witness :
  ocr_core.framework (vision_config [lit "ja-JP"; lit "en-US"]) <> lit "livetext"
  /\ exists hints,
       snd (@ocr_core.ocr_image_to_text ascii_unicode quiet_host blank_image
              (vision_config [lit "ja-JP"; lit "en-US"]) [])
       = [Recognize (VisionCall (FromImage blank_image) (lit "fast") hints)].
Proof.
  assert (H : ocr_core.framework (vision_config [lit "ja-JP"; lit "en-US"]) <> lit "livetext")
    by discriminate.
  split; [exact H|].
  destruct (@vision_hints_are_supported_tags ascii_unicode quiet_host blank_image
              (vision_config [lit "ja-JP"; lit "en-US"]) [] H) as (hints & Htr & _).
  exists hints. exact Htr.
Defined.

(** The primary tag ja-JP is not supported, and yet a hint list is
    passed to the vision backend: the supported extra tag. *)
Lemma unsupported_primary_keeps_hint_list :
  existsb (str_eqb (lit "ja-JP")) (@ocr_core.VISION_SUPPORTED_LANGS) = false
  /\ snd (@ocr_core.ocr_image_to_text ascii_unicode quiet_host blank_image
            (vision_config [lit "ja-JP"; lit "en-US"]) [])
     = [Recognize (VisionCall (FromImage blank_image) (lit "fast") (Some [lit "en-US"]))].
Proof. split; reflexivity. Qed.

(** The window-capture utility hands its language list to the vision
    backend as it is, unsupported tags included. *)
Example window_utility_passes_hints_unfiltered :
  snd (@window_ocrmac.ocr_image_to_text ascii_unicode quiet_host (lit "shot.png")
         (lit "vision") (lit "accurate") [lit "ja-JP"] [])
  = [Recognize (VisionCall (FromPath (lit "shot.png")) (lit "accurate") (Some [lit "ja-JP"]))].
Proof. reflexivity. Qed.

(** The single-shot utility on an image in which nothing is found. *)
Definition shot_args : ocr_core.Args :=
  {| ocr_core.arg_image := lit "shot.png";
     ocr_core.arg_framework := lit "livetext";
     ocr_core.arg_level := lit "fast";
     ocr_core.arg_lang := lit "ja-JP";
     ocr_core.arg_extra_lang := [];
     ocr_core.arg_crop := None;
     ocr_core.arg_no_cleanup := false |}.

Lemma no_text_exits_3_without_clipboard_witness :
  path_exists quiet_host (abspath quiet_host (ocr_core.arg_image shot_args)) = true
  /\ @ocr_core.main ascii_unicode quiet_host shot_args []
     = (Ok 3%Z, [Recognize (LiveText (FromImage blank_image)); Print MsgNoTextRecognized]).
Proof.
  split; [reflexivity|].
  apply (@no_text_exits_3_without_clipboard ascii_unicode quiet_host shot_args None []
           [] [Recognize (LiveText (FromImage blank_image))]);
    reflexivity.
Defined.

(** The daemon, watching DuckStation. *)
Definition daemon_args : ocr_daemon.Args :=
  {| ocr_daemon.arg_app := lit "DuckStation";
     ocr_daemon.arg_title := None;
     ocr_daemon.arg_hotkey := lit "<cmd>+<shift>+o";
     ocr_daemon.arg_framework := lit "livetext";
     ocr_daemon.arg_level := lit "fast";
     ocr_daemon.arg_lang := lit "ja-JP";
     ocr_daemon.arg_extra_lang := [];
     ocr_daemon.arg_crop := None;
     ocr_daemon.arg_no_cleanup := false;
     ocr_daemon.arg_after := None |}.

Definition hotkey_registered : str -> option exn := fun _ => None.

(** Only the overlay is on screen: no window is found. *)
Definition no_game_host : Env := host [overlay_window] sees_nothing None None None.
(** The capture utility exits with status 1. *)
Definition no_permission_host : Env :=
  host two_windows sees_nothing (Some (CalledProcessError 1)) None None.
(** The recognition engine raises. *)
Definition broken_engine_host : Env := host two_windows breaks None None None.

Lemma daemon_survives_only_handled_failures_witness :
  hotkey_registered (ocr_daemon.arg_hotkey daemon_args) = None
  /\ @ocr_core.crop_option ascii_unicode (ocr_daemon.arg_crop daemon_args) = Ok None
  /\ fst (@ocr_daemon.main ascii_unicode hotkey_registered daemon_args
            [ocr_daemon.Trigger no_game_host; ocr_daemon.Trigger no_permission_host])
     = ocr_daemon.Idle.
Proof.
  split; [reflexivity|]. split; [reflexivity|].
  destruct (@daemon_survives_only_handled_failures ascii_unicode hotkey_registered
              daemon_args None eq_refl eq_refl) as (Hrun & Hidle & _).
  apply Hidle. constructor; [|constructor; [|constructor]].
  - exists no_game_host. split; [reflexivity|].
    apply (Hrun no_game_host []). left.
    exists [overlay_window]. split; reflexivity.
  - exists no_permission_host. split; [reflexivity|].
    apply (Hrun no_permission_host []). right.
    exists 42%Z, (lit "/tmp/ocr/cap.png"), 1%Z. split; [|reflexivity].
    exists two_windows, (lit "/tmp/ocr"). repeat split; reflexivity.
Defined.

(** One trigger whose OCR raises ends the daemon: it is not back in
    Idle, and the trigger queued behind it is never served. *)
Lemma daemon_dies_when_ocr_raises :
  @ocr_daemon.main ascii_unicode hotkey_registered daemon_args
    [ocr_daemon.Trigger broken_engine_host; ocr_daemon.Trigger quiet_host]
  = (ocr_daemon.Died (OtherException "OCRError"),
     [Print (MsgDaemonRunning (lit "<cmd>+<shift>+o"));
      Print (MsgDaemonWatching (lit "DuckStation"));
      ListenerStart (lit "<cmd>+<shift>+o");
      Screencapture 42 (lit "/tmp/ocr/cap.png");
      Recognize (LiveText (FromImage blank_image));
      ListenerStop]).
Proof. vm_compute. reflexivity. Qed.

(** Cropping a 1920x1080 capture to the dialogue box of the docstring
    of [parse_crop]. *)
Definition capture_1080p : Image :=
  {| width := 1920; height := 1080; getpixel := fun x y => (x, y, 0%Z) |}.

Example crop_dialogue_box :
  match (let* r := @ocr_core.parse_crop ascii_unicode (lit "0.05,0.62,0.95,0.95") in
         ocr_core.crop_by capture_1080p (Some r)) with
  | Ok j => (width j, height j, getpixel j 0 0) = (1728, 357, (96, 669, 0))%Z
  | Raise _ => False
  end.
Proof. vm_compute. reflexivity. Qed.

(** Truncation follows the binary64 product: [int(0.29 * 100)] is 28. *)
Example scaled_follows_binary64 :
  (let* x := @py_float ascii_unicode (lit "0.29") in ocr_core.scaled x 100) = Ok 28%Z.
Proof. vm_compute. reflexivity. Qed.


(* ================================================================= *)
(** * Further properties of the code *)

(* ----------------------------------------------------------------- *)
(** ** More on the overlay cleanup *)

Section CleanupMore.
Context {U : Unicode}.

(** Text is trimmed when [strip] leaves it as it is. *)
Definition trimmed (s : str) : Prop := strip s = s.

(** X1. The texts the cleanup leaves unchanged are exactly those in
    which no overlay token stands between word boundaries, no two
    white-space characters are neighbours, and no white space leads or
    trails. *)
Theorem cleanup_fixed_points (t : str) :
  cleanup_hud_text t = t <->
  ~ occurs None t /\ no_double_space t = true /\ trimmed t.
Proof.
  split.
  - intros Hfix. split; [|split].
    + rewrite <- Hfix. apply cleaned_clean.
    + rewrite <- Hfix. apply cleaned_no_double_space.
    + unfold trimmed. rewrite <- Hfix. unfold cleanup_hud_text. apply strip_idem.
  - intros (Hclean & Hnds & Htrim). unfold cleanup_hud_text.
    assert (Hrem : re_sub HUD_PATTERN (lit "") t = t).
    { apply (@remove_loop_id U (length t) None t); [lia|exact Hclean]. }
    rewrite Hrem.
    assert (Hcol : re_sub SPACES_PATTERN (lit " ") t = t).
    { apply (@collapse_loop_id U (length t) None t); [lia|exact Hnds]. }
    rewrite Hcol. exact Htrim.
Qed.

Lemma remove_loop_length fuel : forall cur,
  (length (after cur) <= fuel)%nat ->
  (length (remove_loop fuel cur) <= length (after cur))%nat.
Proof.
  induction fuel as [|fuel IH]; intros [prev s] Hfuel; cbn [after] in *.
  - destruct s; [cbn; lia|cbn in Hfuel; lia].
  - destruct s as [|c s]; [unfold remove_loop; rewrite sub_loop_nil; cbn; lia|].
    cbn [length] in Hfuel.
    destruct (match_here HUD_PATTERN (Cursor prev (c :: s))) as [r|] eqn:Hm.
    + rewrite (@remove_step_match U fuel _ r) by (cbn; congruence || exact Hm).
      apply match_here_hud_sound in Hm as (w & Hw & [Hr _] & _).
      cbn [after] in Hr. apply hud_token_nonempty in Hw.
      assert (Hlen : (length (after r) < length (c :: s))%nat).
      { rewrite Hr, length_app. destruct w; [congruence|cbn; lia]. }
      cbn [length] in Hlen |- *. specialize (IH r). lia.
    + rewrite remove_step_skip by exact Hm. cbn [length].
      specialize (IH (Cursor (Some c) s)). cbn [after] in IH. lia.
Qed.

Lemma collapse_loop_length fuel : forall prev s,
  (length s <= fuel)%nat ->
  (length (collapse_loop fuel (Cursor prev s)) <= length s)%nat.
Proof.
  induction fuel as [|fuel IH]; intros prev s Hfuel.
  - destruct s; [cbn; lia|cbn in Hfuel; lia].
  - destruct s as [|c s]; [unfold collapse_loop; rewrite sub_loop_nil; cbn; lia|].
    destruct (Nat.le_gt_cases 2 (length (run_of Space (c :: s)))) as [Hrun|Hrun].
    + pose proof (@after_long_run U fuel _ Hfuel Hrun) as Hlen.
      rewrite collapse_step_match by exact Hrun. cbn [length].
      specialize (IH (seen prev (run_of Space (c :: s))) (after_run Space (c :: s)) Hlen).
      pose proof (f_equal (@length _) (run_of_after_run Space (c :: s))) as Hl.
      rewrite length_app in Hl. cbn [length] in Hl. lia.
    + cbn [length] in Hfuel. rewrite collapse_step_skip by exact Hrun. cbn [length].
      specialize (IH (Some c) s). lia.
Qed.

Lemma strip_length s : (length (strip s) <= length s)%nat.
Proof.
  destruct (strip_decomp s) as (l & r & Hs & _).
  rewrite Hs at 2. rewrite !length_app. lia.
Qed.

(** X2. The cleanup never makes the text longer. *)
Theorem cleanup_never_longer (t : str) :
  (length (cleanup_hud_text t) <= length t)%nat.
Proof.
  unfold cleanup_hud_text, re_sub.
  pose proof (@remove_loop_length (length t) (Cursor None t) (le_n _)) as H1.
  cbn [after] in H1. unfold remove_loop in H1.
  set (out := sub_loop (length t) HUD_PATTERN (lit "") (Cursor None t)) in *.
  pose proof (@collapse_loop_length (length out) None out (le_n _)) as H2.
  unfold collapse_loop in H2.
  pose proof (strip_length (sub_loop (length out) SPACES_PATTERN (lit " ") (Cursor None out))).
  lia.
Qed.

Lemma digits_have_digit ds : is_digits ds -> exists d, In d ds /\ isdecimal d = true.
Proof.
  intros [Hne Hds]. destruct ds as [|d ds]; [congruence|].
  inversion Hds; subst. exists d. split; [now left|assumption].
Qed.

Lemma hud_token_has_digit w : hud_token w -> exists d, In d w /\ isdecimal d = true.
Proof.
  intros H. destruct H as [ds Hds|ds Hds|ds Hds|ds ds' Hds _];
    destruct (digits_have_digit Hds) as (d & Hin & Hd); exists d; (split; [|exact Hd]).
  - apply in_or_app. now left.
  - apply in_or_app. right. apply in_or_app. now left.
  - apply in_or_app. right. apply in_or_app. now left.
  - apply in_or_app. now left.
Qed.

(** X3. In text without a decimal digit nothing is an overlay token:
    the cleanup only collapses the white space and trims. *)
Theorem cleanup_without_digits (t : str) :
  Forall (fun c => isdecimal c = false) t ->
  cleanup_hud_text t = strip (re_sub SPACES_PATTERN (lit " ") t).
Proof.
  intros Hnd. unfold cleanup_hud_text.
  assert (Hrem : re_sub HUD_PATTERN (lit "") t = t).
  { apply (@remove_loop_id U (length t) None t); [lia|].
    intros (l & w & r & Hs & Hw & _).
    apply hud_token_has_digit in Hw as (d & Hin & Hd).
    rewrite Forall_forall in Hnd. rewrite (Hnd d) in Hd; [discriminate|].
    rewrite Hs. apply in_or_app. right. apply in_or_app. now left. }
  now rewrite Hrem.
Qed.

End CleanupMore.


(* ----------------------------------------------------------------- *)
(** ** Fragments and backends of the shared core *)

Section SharedCore.
Context {U : Unicode}.
Import ocr_core.

(** Text that is empty or white space only. *)
Definition blank (s : str) : Prop := Forall (fun c => isspace c = true) s.

Lemma lstrip_blank s : blank s -> lstrip s = [].
Proof. induction 1 as [|c s Hc _ IH]; [reflexivity|]. cbn. now rewrite Hc. Qed.

Lemma strip_nil_blank s : strip s = [] <-> blank s.
Proof.
  split.
  - intros H. destruct (strip_decomp s) as (l & r & Hs & Hl & Hr).
    rewrite H in Hs. rewrite Hs. apply Forall_app. split; assumption.
  - intros H. unfold strip. now rewrite (lstrip_blank H).
Qed.

Lemma truthy_false s : truthy s = false <-> s = [].
Proof. destruct s; cbn; split; congruence. Qed.

(** X4. The recognized text is empty exactly when every fragment the
    backend returned is empty or white space only: a fragment that
    holds anything else always shows in the joined text. *)
Theorem joined_text_empty_iff_all_fragments_blank (anns : list annotation) :
  joined_text anns = [] <-> Forall (fun a => blank (ann_text a)) anns.
Proof.
  unfold joined_text, join. rewrite strip_nil_blank.
  induction anns as [|a anns IH]; [split; constructor|].
  cbn [filter].
  destruct (truthy (strip (ann_text a))) eqn:Hs.
  - assert (Hnb : ~ blank (ann_text a)).
    { intros Hb. apply strip_nil_blank in Hb. rewrite Hb in Hs. discriminate. }
    assert (Ht : truthy (ann_text a) = true).
    { destruct (ann_text a); [exfalso; apply Hnb; constructor|reflexivity]. }
    rewrite Ht. cbn [andb map concat]. split.
    + intros H. apply Forall_app in H as [H _]. contradiction.
    + intros H. inversion H. contradiction.
  - rewrite andb_false_r. rewrite IH.
    apply truthy_false, strip_nil_blank in Hs. split.
    + intros H. now constructor.
    + intros H. now inversion H.
Qed.

(** X5. The shared core makes one backend call for an image and has no
    fallback: the call goes to livetext exactly when the framework is
    [livetext], an exception of the backend, livetext included, leaves
    [ocr_image_to_text] as it is, and annotations become the joined
    text, cleaned when the cleanup is on. *)
Theorem shared_core_calls_one_backend (env : Env) (img : Image) (cfg : OCRConfig)
    (tr : trace) :
  exists c,
    (c = LiveText (FromImage img) <-> framework cfg = lit "livetext")
    /\ snd (ocr_image_to_text env img cfg tr) = tr ++ [Recognize c]
    /\ (forall e, recognize env c = Raise e ->
          fst (ocr_image_to_text env img cfg tr) = Raise e)
    /\ (forall anns, recognize env c = Ok anns ->
          fst (ocr_image_to_text env img cfg tr)
          = Ok (if cleanup_hud cfg then cleanup_hud_text (joined_text anns)
                else joined_text anns)).
Proof.
  unfold ocr_image_to_text.
  assert (Hrun : forall c,
            snd ((anns <- OCR_recognize env c ;;
                  ret (if cleanup_hud cfg then cleanup_hud_text (joined_text anns)
                       else joined_text anns))%prog tr) = tr ++ [Recognize c]
            /\ (forall e, recognize env c = Raise e ->
                  fst ((anns <- OCR_recognize env c ;;
                        ret (if cleanup_hud cfg then cleanup_hud_text (joined_text anns)
                             else joined_text anns))%prog tr) = Raise e)
            /\ (forall anns0, recognize env c = Ok anns0 ->
                  fst ((anns <- OCR_recognize env c ;;
                        ret (if cleanup_hud cfg then cleanup_hud_text (joined_text anns)
                             else joined_text anns))%prog tr)
                  = Ok (if cleanup_hud cfg then cleanup_hud_text (joined_text anns0)
                        else joined_text anns0))).
  { intros c. unfold OCR_recognize. run.
    destruct (recognize env c) as [anns|e]; cbn [fst snd];
      (split; [reflexivity|split; intros x Hx; first [discriminate Hx|injection Hx as <-; reflexivity]]). }
  destruct (str_eqb (framework cfg) (lit "livetext")) eqn:Hfw.
  - exists (LiveText (FromImage img)). apply str_eqb_eq in Hfw.
    split; [split; auto|]. apply Hrun.
  - assert (Hne : framework cfg <> lit "livetext").
    { intros H. rewrite H in Hfw. discriminate. }
    destruct (filter _ (languages cfg)) as [|l0 ls];
      [exists (VisionCall (FromImage img) (level cfg) None)
      |exists (VisionCall (FromImage img) (level cfg) (Some (l0 :: ls)))];
      (split; [split; [discriminate|intros H; contradiction]|apply Hrun]).
Qed.

End SharedCore.

(* ----------------------------------------------------------------- *)
(** ** The recognized text *)

Section RecognizedText.
Context {U : Unicode}.

Lemma joined_text_trimmed anns :
  strip (ocr_core.joined_text anns) = ocr_core.joined_text anns.
Proof. unfold ocr_core.joined_text. apply strip_idem. Qed.

(** A recognition that returns made one backend call, and its text has
    no white space at its ends. *)
Lemma ocr_file_to_text_Ok (env : Env) (img_path : str) (cfg : ocr_core.OCRConfig)
    (tr tr' : trace) (text : str) :
  ocr_core.ocr_file_to_text env img_path cfg tr = (Ok text, tr') ->
  strip text = text /\ exists c, tr' = tr ++ [Recognize c].
Proof.
  unfold ocr_core.ocr_file_to_text, ocr_core.load_and_crop. run.
  destruct (open_image env img_path) as [img|e]; [|discriminate].
  destruct (ocr_core.crop_by img (ocr_core.crop_norm cfg)) as [img'|e]; [|discriminate].
  unfold ocr_core.ocr_image_to_text. unfold bind.
  match goal with
  | |- context [(if ?b then ?x else ?y) tr] =>
      assert (Hc : exists c, (if b then x else y) = ocr_core.OCR_recognize env c)
  end.
  { destruct (str_eqb _ _); [eexists; reflexivity|].
    destruct (filter _ _); eexists; reflexivity. }
  destruct Hc as [c ->]. unfold ocr_core.OCR_recognize. run.
  destruct (recognize env c) as [anns|e]; [|discriminate].
  intros H. injection H as <- <-. split; [|now exists c].
  destruct (ocr_core.cleanup_hud cfg).
  - unfold cleanup_hud_text. apply strip_idem.
  - apply joined_text_trimmed.
Qed.

(** X6. The text [ocr_file_to_text] returns, with the cleanup or
    without it, has no white space at its ends; so the test
    [not text.strip()] of its callers is the test for the empty
    string. *)
Theorem recognized_text_is_trimmed (env : Env) (img_path : str)
    (cfg : ocr_core.OCRConfig) (tr tr' : trace) (text : str) :
  ocr_core.ocr_file_to_text env img_path cfg tr = (Ok text, tr') ->
  strip text = text /\ (truthy (strip text) = false <-> text = []).
Proof.
  intros Hrun. apply ocr_file_to_text_Ok in Hrun as [Htrim _].
  split; [exact Htrim|]. rewrite Htrim. apply truthy_false.
Qed.

End RecognizedText.

(* ----------------------------------------------------------------- *)
(** ** More on crop-rectangle parsing *)

Section CropParsingMore.
Context {U : Unicode}.
Import ocr_core.

(** The number of commas of a string. *)
Definition commas (s : str) : nat := length (filter (fun c => (c =? 44)%N) s).

Lemma split_length sep s :
  length (split sep s) = S (length (filter (fun c => (c =? sep)%N) s)).
Proof.
  induction s as [|c s IH]; [reflexivity|].
  cbn [split filter]. destruct (c =? sep)%N; cbn [length]; [now rewrite IH|].
  destruct (split sep s) as [|p ps]; [discriminate IH|exact IH].
Qed.

Lemma py_float_raises s e : py_float s = Raise e -> e = could_not_convert.
Proof.
  unfold py_float.
  destruct (drop_underscores _ _) as [t|]; [|intros H; now injection H as <-].
  destruct (take_sign t) as [neg body].
  destruct (_ || _); [discriminate|].
  destruct (str_eqb _ _); [discriminate|].
  destruct (parse_number neg body); [discriminate|].
  intros H; now injection H as <-.
Qed.

(** X7. [parse_crop] raises its first error, that the crop must be
    x0,y0,x1,y1, exactly on the strings that do not hold three commas;
    what stands between the commas plays no part in it. *)
Theorem parse_crop_needs_three_commas (crop : str) :
  parse_crop crop = Raise (ValueError "--crop must be x0,y0,x1,y1") <-> commas crop <> 3%nat.
Proof.
  unfold commas. pose proof (split_length 44%N crop) as Hlen.
  unfold parse_crop.
  destruct (split 44%N crop) as [|p0 [|p1 [|p2 [|p3 [|p4 ps]]]]]; cbn [map length] in *;
    try (split; [intros _; lia|reflexivity]).
  split; [|intros H; lia]. intros H. exfalso.
  destruct (py_float (strip p0)) as [x0|e] eqn:H0; cbn [result_bind] in H;
    [|apply py_float_raises in H0; subst e; discriminate H].
  destruct (py_float (strip p1)) as [y0|e] eqn:H1; cbn [result_bind] in H;
    [|apply py_float_raises in H1; subst e; discriminate H].
  destruct (py_float (strip p2)) as [x1|e] eqn:H2; cbn [result_bind] in H;
    [|apply py_float_raises in H2; subst e; discriminate H].
  destruct (py_float (strip p3)) as [y1|e] eqn:H3; cbn [result_bind] in H;
    [|apply py_float_raises in H3; subst e; discriminate H].
  destruct (in_unit_square (x0, y0, x1, y1)); discriminate H.
Qed.

(** A float that is zero or a positive finite number. *)
Definition finite_nonneg (x : float) : Prop :=
  match x with
  | S754_zero _ => True
  | S754_finite s _ _ => s = false
  | _ => False
  end.

(** A positive finite float. *)
Definition finite_pos (x : float) : Prop :=
  match x with
  | S754_finite s _ _ => s = false
  | _ => False
  end.

Lemma lower_bound_finite x0 x1 :
  float_leb float_zero x0 = true -> float_ltb x0 x1 = true -> float_leb x1 float_one = true ->
  finite_nonneg x0 /\ finite_pos x1.
Proof.
  unfold float_leb, float_ltb, float_zero, float_one, SFleb, SFltb, SFcompare.
  destruct x0 as [s0|[|]| |[|] m0 e0]; cbv beta iota; try discriminate;
    destruct x1 as [s1|[|]| |[|] m1 e1]; cbv beta iota; try discriminate;
    intros _ _ _; cbn [finite_nonneg finite_pos]; auto.
Qed.

(** X8. The rectangles [parse_crop] accepts hold finite numbers only:
    x0 and y0 are zero or positive, x1 and y1 are positive; [nan] and
    the infinities, which [float()] reads, never pass the range test. *)
Theorem parse_crop_coordinates_finite (crop : str) (x0 y0 x1 y1 : float) :
  parse_crop crop = Ok (x0, y0, x1, y1) ->
  finite_nonneg x0 /\ finite_nonneg y0 /\ finite_pos x1 /\ finite_pos y1.
Proof.
  unfold parse_crop.
  destruct (map strip (split 44%N crop)) as [|p0 [|p1 [|p2 [|p3 [|p4 ps]]]]]; try discriminate.
  intros H.
  apply result_bind_Ok in H as (a & _ & H).
  apply result_bind_Ok in H as (b & _ & H).
  apply result_bind_Ok in H as (c & _ & H).
  apply result_bind_Ok in H as (d & _ & H).
  destruct (in_unit_square (a, b, c, d)) eqn:Hsq; [|discriminate].
  injection H as -> -> -> ->.
  unfold in_unit_square in Hsq.
  repeat (apply andb_true_iff in Hsq as [Hsq ?]
          || match goal with H : _ && _ = true |- _ => apply andb_true_iff in H as [? ?] end).
  destruct (@lower_bound_finite x0 x1) as [? ?]; try assumption.
  destruct (@lower_bound_finite y0 y1) as [? ?]; try assumption.
  repeat split; assumption.
Qed.

End CropParsingMore.


(* ----------------------------------------------------------------- *)
(** ** The single-shot utility, from exit code to outcome *)

Section SingleShotMore.
Context {U : Unicode}.
Import ocr_core.

(** X9. The exit code of the single-shot utility tells what happened.
    Code 2: the image file does not exist and nothing but the message
    was done.  Otherwise the file exists, the crop option was accepted
    and one backend call was made; code 3: the text was empty and the
    clipboard was left alone; code 0: the text was not empty and was
    written to the clipboard once, as recognized.  No other code is
    returned. *)
Theorem single_shot_exit_code_tells_outcome (env : Env) (args : Args) (tr tr' : trace) (code : Z) :
  main env args tr = (Ok code, tr') ->
  (code = 2%Z
   /\ path_exists env (abspath env (arg_image args)) = false
   /\ tr' = tr ++ [Print (MsgNotFound (abspath env (arg_image args)))])
  \/ (path_exists env (abspath env (arg_image args)) = true
      /\ exists crop c text,
           crop_option (arg_crop args) = Ok crop
           /\ ocr_result env (abspath env (arg_image args)) (config_of args crop) = Ok text
           /\ ((code = 3%Z /\ text = []
                /\ tr' = tr ++ [Recognize c; Print MsgNoTextRecognized])
               \/ (code = 0%Z /\ text <> [] /\ pbcopy env text = None
                   /\ tr' = tr ++ [Recognize c; Pbcopy text;
                                   Print (MsgOcrOk (length text) (preview_of text))]))).
Proof.
  unfold main. intros Hmain.
  destruct (path_exists env (abspath env (arg_image args))); cbn [negb] in Hmain.
  - right. split; [reflexivity|]. revert Hmain. run.
    destruct (crop_option (arg_crop args)) as [crop|e]; [|discriminate].
    fold (config_of args crop).
    pose proof (ocr_file_to_text_result env (abspath env (arg_image args))
                  (config_of args crop) tr) as Hres.
    destruct (ocr_file_to_text env (abspath env (arg_image args)) (config_of args crop) tr)
      as [[text|e] tr1] eqn:Hocr; [|discriminate].
    cbn [fst] in Hres.
    apply ocr_file_to_text_Ok in Hocr as (Htrim & c & ->).
    rewrite Htrim. intros Hmain. exists crop, c, text.
    split; [reflexivity|]. split; [now symmetry|].
    destruct text as [|ch text]; cbn [truthy negb] in Hmain.
    + left. injection Hmain as <- <-. rewrite <- app_assoc. auto.
    + right. revert Hmain. unfold copy_to_clipboard. run.
      destruct (pbcopy env (ch :: text)); [discriminate|].
      intros H. injection H as <- <-. rewrite <- !app_assoc.
      split; [reflexivity|]. split; [discriminate|]. split; reflexivity.
  - left. revert Hmain. run. intros H. injection H as <- <-. auto.
Qed.

(** X10. A crop option that [parse_crop] rejects stops both programs that
    take one before they do anything: the single-shot utility raises
    the error without opening the image or calling a backend, unless
    the image is missing, which is found first and ends it with code 2;
    the daemon raises it before it prints a line or registers the
    hotkey. *)
Theorem rejected_crop_stops_before_any_work (crop : str) (e : exn) :
  truthy crop = true ->
  parse_crop crop = Raise e ->
  (forall env args tr,
     arg_crop args = Some crop ->
     main env args tr
     = if path_exists env (abspath env (arg_image args)) then (Raise e, tr)
       else (Ok 2%Z, tr ++ [Print (MsgNotFound (abspath env (arg_image args)))]))
  /\ (forall register_hotkey args queue,
        ocr_daemon.arg_crop args = Some crop ->
        ocr_daemon.main register_hotkey args queue = (ocr_daemon.Died e, [])).
Proof.
  intros Hgiven Hbad. split.
  - intros env args tr Hcrop. unfold main, crop_option. rewrite Hcrop, Hgiven, Hbad.
    destruct (path_exists env (abspath env (arg_image args))); reflexivity.
  - intros reg args queue Hcrop. unfold ocr_daemon.main, crop_option.
    rewrite Hcrop, Hgiven, Hbad. reflexivity.
Qed.

End SingleShotMore.

(* ----------------------------------------------------------------- *)
(** ** Window filters *)

Section WindowFilters.
Context {U : Unicode}.
Import window_ocrmac.

Lemma filter_filter_andb {A} (p q : A -> bool) l :
  filter q (filter p l) = filter (fun x => p x && q x) l.
Proof.
  induction l as [|x l IH]; [reflexivity|]. cbn [filter].
  destruct (p x); cbn [filter andb]; [destruct (q x)|]; now rewrite IH.
Qed.

Lemma find_filter {A} (p q : A -> bool) l :
  find q (filter p l) = find (fun x => p x && q x) l.
Proof.
  induction l as [|x l IH]; [reflexivity|]. cbn [filter find].
  destruct (p x); cbn [find andb]; [destruct (q x)|]; auto.
Qed.

Lemma filter_true {A} (p : A -> bool) l : (forall x, p x = true) -> filter p l = l.
Proof. intros H. induction l as [|x l IH]; [reflexivity|]. cbn. now rewrite H, IH. Qed.

Lemma match_None s : match_ s None = true.
Proof. reflexivity. Qed.

(** X11. Filtering by app and by title are independent of each other:
    filtering by one and then by the other, in either order, is
    filtering by both at once; filtering again changes nothing; and a
    needle that is absent or empty filters nothing out. *)
Theorem filter_windows_independent (windows : list Window) (app title : option str) :
  filter_windows (filter_windows windows app None) None title
    = filter_windows windows app title
  /\ filter_windows (filter_windows windows None title) app None
    = filter_windows windows app title
  /\ filter_windows (filter_windows windows app title) app title
    = filter_windows windows app title
  /\ filter_windows windows None None = windows
  /\ filter_windows windows (Some []) (Some []) = windows.
Proof.
  unfold filter_windows. rewrite !filter_filter_andb.
  split; [|split; [|split; [|split]]].
  - apply filter_ext. intros w. rewrite !match_None, andb_true_r. reflexivity.
  - apply filter_ext. intros w. rewrite !match_None, andb_true_r. cbn [andb].
    apply andb_comm.
  - apply filter_ext. intros w.
    destruct (match_ _ app && match_ _ title); reflexivity.
  - apply filter_true. reflexivity.
  - apply filter_true. reflexivity.
Qed.

(** X12. The daemon's locator and the filter of the window-capture
    utility agree: given a non-empty app substring, the window the
    daemon picks is the first one on layer 0 that carries a number
    among the windows [filter_windows] keeps for the same substrings. *)
Theorem daemon_picks_among_filtered_windows (env : Env) (app : str) (title : option str)
    (windows : list Window) (tr : trace) :
  app <> [] ->
  window_list env = Ok windows ->
  ocr_daemon.pick_window_id env app title tr
  = (Ok (number_of (find (fun w => (layer_of w =? 0)%Z && has_number w)
                         (filter_windows windows (Some app) title))), tr).
Proof.
  intros Happ Hwins.
  unfold ocr_daemon.pick_window_id, ocr_daemon.list_windows. run. rewrite Hwins.
  rewrite pick_window_id_loop_find. unfold filter_windows. rewrite find_filter.
  do 3 f_equal. apply find_ext_in, Forall_forall. intros w _.
  unfold locator_match, match_. cbn [given or_empty].
  destruct app as [|c app]; [congruence|]. cbn [truthy negb].
  destruct (contains _ (lower (or_empty (kCGWindowOwnerName w)))); cbn [andb]; [|reflexivity].
  destruct (given title); cbn [negb]; [|reflexivity].
  now rewrite andb_assoc.
Qed.

End WindowFilters.

(* ----------------------------------------------------------------- *)
(** ** Picking a window at the prompt *)

Section Prompt.
Context {U : Unicode}.
Import window_ocrmac.

(** A line the prompt refuses: it is no integer, or none that indexes
    the list. *)
Definition refused (windows : list Window) (raw : str) : Prop :=
  forall idx, py_int (strip raw) = Ok idx -> ~ (0 <= idx < Z.of_nat (length windows))%Z.

Lemma read_selection_outcome windows lines tr :
  exists k,
    snd (read_selection windows lines tr) = tr ++ repeat (Print MsgInvalidSelection) k
    /\ (forall j raw, (j < k)%nat -> nth_error lines j = Some raw -> refused windows raw)
    /\ match fst (read_selection windows lines tr) with
       | Ok w => exists raw idx,
                   nth_error lines k = Some raw
                   /\ py_int (strip raw) = Ok (Z.of_nat idx)
                   /\ nth_error windows idx = Some w
       | Raise e => e = EOFError /\ k = length lines
       end.
Proof.
  revert tr. induction lines as [|raw lines IH]; intros tr.
  - exists 0%nat. cbn. rewrite app_nil_r. repeat split. intros j raw Hj. lia.
  - assert (Hskip : refused windows raw ->
              exists k,
                snd ((print MsgInvalidSelection ;; read_selection windows lines)%prog tr)
                  = tr ++ repeat (Print MsgInvalidSelection) k
                /\ (forall j raw0, (j < k)%nat -> nth_error (raw :: lines) j = Some raw0 ->
                      refused windows raw0)
                /\ match fst ((print MsgInvalidSelection ;; read_selection windows lines)%prog tr)
                   with
                   | Ok w => exists raw0 idx,
                               nth_error (raw :: lines) k = Some raw0
                               /\ py_int (strip raw0) = Ok (Z.of_nat idx)
                               /\ nth_error windows idx = Some w
                   | Raise e => e = EOFError /\ k = length (raw :: lines)
                   end).
    { intros Href. run.
      destruct (IH (tr ++ [Print MsgInvalidSelection])) as (k & Htr & Hbefore & Hres).
      exists (S k). split; [|split].
      - rewrite Htr, <- app_assoc. reflexivity.
      - intros [|j] raw0 Hj Hnth; cbn [nth_error] in Hnth.
        + injection Hnth as <-. exact Href.
        + apply (Hbefore j); [lia|exact Hnth].
      - destruct (fst (read_selection windows lines (tr ++ [Print MsgInvalidSelection])))
          as [w|e]; cbn [nth_error length].
        + exact Hres.
        + destruct Hres as [-> ->]. split; reflexivity. }
    cbn [read_selection].
    destruct (py_int (strip raw)) as [idx|e] eqn:Hint.
    + destruct ((0 <=? idx) && (idx <? Z.of_nat (length windows)))%Z eqn:Hrange.
      * apply andb_true_iff in Hrange as [H0 H1].
        apply Z.leb_le in H0. apply Z.ltb_lt in H1.
        destruct (nth_error windows (Z.to_nat idx)) as [w|] eqn:Hnth.
        -- exists 0%nat. unfold ret. cbn [fst snd repeat]. rewrite app_nil_r.
           split; [reflexivity|]. split; [intros j raw0 Hj; lia|].
           exists raw, (Z.to_nat idx). cbn [nth_error].
           rewrite Z2Nat.id by exact H0. repeat split; assumption.
        -- apply nth_error_None in Hnth. lia.
      * apply Hskip. intros idx' Hidx'. rewrite Hint in Hidx'. injection Hidx' as <-.
        apply andb_false_iff in Hrange as [H|H];
          [apply Z.leb_gt in H|apply Z.ltb_ge in H]; lia.
    + apply Hskip. intros idx' Hidx'. rewrite Hint in Hidx'. discriminate.
Qed.


End Prompt.

(* ----------------------------------------------------------------- *)
(** ** The window-capture utility, from exit code to progress *)

Section WindowUtilityMore.
Context {U : Unicode}.
Import window_ocrmac.

Definition is_print (ev : event) : bool :=
  match ev with Print _ => true | _ => false end.

Definition is_recognize (ev : event) : bool :=
  match ev with Recognize _ => true | _ => false end.

Lemma forallb_In {A} (p : A -> bool) l x : forallb p l = true -> In x l -> p x = true.
Proof. intros H Hin. rewrite forallb_forall in H. now apply H. Qed.

Lemma forallb_repeat {A} (p : A -> bool) x k : p x = true -> forallb p (repeat x k) = true.
Proof. intros H. induction k as [|k IH]; [reflexivity|]. cbn. now rewrite H, IH. Qed.

Lemma window_ocr_image_to_text_outcome env path fw level langs tr :
  exists c,
    snd (ocr_image_to_text env path fw level langs tr) = tr ++ [Recognize c]
    /\ forall t, fst (ocr_image_to_text env path fw level langs tr) = Ok t -> strip t = t.
Proof.
  unfold ocr_image_to_text, ocr_core.OCR_recognize. run.
  destruct (str_eqb fw (lit "livetext"));
    match goal with |- context [recognize env ?c] => exists c; destruct (recognize env c) end;
    (split; [reflexivity|]); cbn [fst]; intros t Ht; try discriminate;
    injection Ht as <-; apply joined_text_trimmed.
Qed.

(** The backend calls are all [run_ocr_pipeline] does, and the text it
    returns has no white space at its ends. *)
Lemma run_ocr_pipeline_outcome env path fw level langs tr :
  exists recs,
    snd (run_ocr_pipeline env path fw level langs tr) = tr ++ recs
    /\ forallb is_recognize recs = true
    /\ forall t, fst (run_ocr_pipeline env path fw level langs tr) = Ok t -> strip t = t.
Proof.
  unfold run_ocr_pipeline. unfold bind, try_except, ret.
  destruct (str_eqb fw (lit "auto") || str_eqb fw (lit "livetext")).
  - destruct (window_ocr_image_to_text_outcome env path (lit "livetext") level langs tr)
      as (c & Htr & Htrim).
    destruct (ocr_image_to_text env path (lit "livetext") level langs tr)
      as [[t|e] tr1]; cbn [fst snd] in Htr, Htrim; subst tr1.
    + destruct (negb (truthy t) && _).
      * destruct (window_ocr_image_to_text_outcome env path (lit "vision") level langs
                    (tr ++ [Recognize c])) as (c' & Htr' & Htrim').
        exists [Recognize c; Recognize c']. rewrite Htr', <- app_assoc.
        split; [reflexivity|]. split; [reflexivity|exact Htrim'].
      * exists [Recognize c]. split; [reflexivity|]. split; [reflexivity|].
        cbn [fst]. intros t' Ht'. injection Ht' as <-. now apply Htrim.
    + destruct (is_Exception e).
      * cbn [truthy negb andb]. destruct (_ || _).
        -- destruct (window_ocr_image_to_text_outcome env path (lit "vision") level langs
                       (tr ++ [Recognize c])) as (c' & Htr' & Htrim').
           exists [Recognize c; Recognize c']. rewrite Htr', <- app_assoc.
           split; [reflexivity|]. split; [reflexivity|exact Htrim'].
        -- exists [Recognize c]. split; [reflexivity|]. split; [reflexivity|].
           cbn [fst]. intros t' Ht'. injection Ht' as <-. reflexivity.
      * exists [Recognize c]. split; [reflexivity|]. split; [reflexivity|].
        cbn [fst]. intros t' Ht'. discriminate.
  - cbn [truthy negb andb]. destruct (_ || _).
    + destruct (window_ocr_image_to_text_outcome env path (lit "vision") level langs tr)
        as (c' & Htr' & Htrim').
      exists [Recognize c']. split; [exact Htr'|]. split; [reflexivity|exact Htrim'].
    + exists []. rewrite app_nil_r. split; [reflexivity|]. split; [reflexivity|].
      cbn [fst]. intros t' Ht'. injection Ht' as <-. reflexivity.
Qed.

(** X14. The same holds of the window-capture utility: whatever
    framework is chosen, the text [run_ocr_pipeline] returns has no
    white space at its ends. *)
Theorem pipeline_text_is_trimmed (env : Env) (img_path framework_choice level : str)
    (langs : list str) (tr tr' : trace) (text : str) :
  run_ocr_pipeline env img_path framework_choice level langs tr = (Ok text, tr') ->
  strip text = text /\ (truthy (strip text) = false <-> text = []).
Proof.
  intros Hrun.
  destruct (run_ocr_pipeline_outcome env img_path framework_choice level langs tr)
    as (recs & _ & _ & Htrim).
  rewrite Hrun in Htrim. specialize (Htrim text eq_refl).
  split; [exact Htrim|]. rewrite Htrim. apply truthy_false.
Qed.

(** The block ["OCR + clipboard"]: code 7 and no clipboard write, or
    code 0 and one write of non-empty text. *)
Lemma ocr_and_copy_outcome env args img_path tr tr' code :
  ocr_and_copy env args img_path tr = (Ok code, tr') ->
  exists recs,
    forallb is_recognize recs = true
    /\ ((code = 7%Z /\ tr' = tr ++ recs ++ [Print MsgNoTextRecognized])
        \/ (code = 0%Z /\ exists text,
              text <> [] /\ strip text = text
              /\ tr' = tr ++ recs ++ [Pbcopy text;
                                      Print (MsgOcrOk (length text) (preview_of text))])).
Proof.
  unfold ocr_and_copy. unfold bind at 1.
  destruct (run_ocr_pipeline_outcome env img_path (arg_framework args) (arg_level args)
              (langs_of args) tr) as (recs & Htr & Hrecs & Htrim).
  destruct (run_ocr_pipeline env img_path (arg_framework args) (arg_level args)
              (langs_of args) tr) as [[text|e] tr1]; cbn [fst snd] in Htr, Htrim; subst tr1;
    [|discriminate].
  specialize (Htrim text eq_refl). rewrite Htrim.
  intros H. exists recs. split; [exact Hrecs|].
  destruct text as [|ch text]; cbn [truthy negb] in H.
  - left. revert H. run. intros H. injection H as <- <-.
    rewrite <- app_assoc. auto.
  - right. revert H. unfold copy_to_clipboard, print_ok_preview. run.
    destruct (pbcopy env (ch :: text)); [discriminate|].
    intros H. injection H as <- <-. split; [reflexivity|].
    exists (ch :: text). split; [discriminate|]. split; [exact Htrim|].
    rewrite <- !app_assoc. reflexivity.
Qed.

Lemma pick_window_interactively_prints env windows tr :
  exists prints,
    snd (pick_window_interactively env windows tr) = tr ++ prints
    /\ forallb is_print prints = true.
Proof.
  unfold pick_window_interactively.
  destruct windows as [|w0 windows].
  - exists []. rewrite app_nil_r. split; reflexivity.
  - run.
    destruct (read_selection_outcome (w0 :: windows) (stdin env)
                (tr ++ [Print (MsgSelectWindow (w0 :: windows))])) as (k & Htr & _).
    exists (Print (MsgSelectWindow (w0 :: windows)) :: repeat (Print MsgInvalidSelection) k).
    split; [rewrite Htr, <- app_assoc; reflexivity|].
    cbn [forallb is_print andb]. now apply forallb_repeat.
Qed.

(** How far [main] got, read off from what it did. *)
Inductive progress : Z -> list event -> Prop :=
| stopped_early code prints :
    In code [2; 3; 4; 5]%Z ->
    forallb is_print prints = true ->
    progress code prints
| capture_failed prints wid path m :
    forallb is_print prints = true ->
    progress 6 (prints ++ [Screencapture wid path; Print m])
| nothing_recognized before recs :
    forallb (fun ev => is_print ev || match ev with Screencapture _ _ => true | _ => false end)
            before = true ->
    forallb is_recognize recs = true ->
    progress 7 (before ++ recs ++ [Print MsgNoTextRecognized])
| text_copied before recs text :
    forallb (fun ev => is_print ev || match ev with Screencapture _ _ => true | _ => false end)
            before = true ->
    forallb is_recognize recs = true ->
    text <> [] -> strip text = text ->
    progress 0 (before ++ recs ++ [Pbcopy text;
                                   Print (MsgOcrOk (length text) (preview_of text))]).

Lemma ocr_and_copy_progress env args img_path tr before code tr' :
  forallb (fun ev => is_print ev || match ev with Screencapture _ _ => true | _ => false end)
          before = true ->
  ocr_and_copy env args img_path (tr ++ before) = (Ok code, tr') ->
  exists added, tr' = tr ++ added /\ progress code added.
Proof.
  intros Hb H. apply ocr_and_copy_outcome in H as (recs & Hrecs & [[-> ->]|(-> & text & Hne & Htrim & ->)]).
  - exists (before ++ recs ++ [Print MsgNoTextRecognized]).
    split; [now rewrite <- app_assoc|]. now apply nothing_recognized.
  - eexists. split; [rewrite <- app_assoc; reflexivity|]. now apply text_copied.
Qed.

Lemma main_progress env args tr code tr' :
  main env args tr = (Ok code, tr') ->
  exists added, tr' = tr ++ added /\ progress code added.
Proof.
  unfold main. fold (langs_of args).
  destruct (given (arg_image args)).
  - destruct (path_exists env (abspath env (or_empty (arg_image args)))); cbn [negb].
    + intros H. eapply ocr_and_copy_progress with (before := []); [reflexivity|].
      rewrite app_nil_r. exact H.
    + run. intros H. injection H as <- <-. eexists. split; [reflexivity|].
      apply stopped_early; [cbn; auto|reflexivity].
  - destruct (negb (given (arg_app args) || given (arg_title args)) && arg_noninteractive args).
    + run. intros H. injection H as <- <-. eexists. split; [reflexivity|].
      apply stopped_early; [cbn; auto|reflexivity].
    + unfold list_on_screen_windows. run.
      destruct (window_list env) as [wins|e].
      * destruct (filter_windows wins (arg_app args) (arg_title args)) as [|first rest] eqn:Hf.
        -- run. intros H. injection H as <- <-. eexists. split; [reflexivity|].
           apply stopped_early; [cbn; auto|reflexivity].
        -- match goal with
           | |- context [?m tr] =>
               match m with
               | (if arg_noninteractive args then _ else _) =>
                   assert (Hchosen : exists prints,
                             snd (m tr) = tr ++ prints /\ forallb is_print prints = true);
                   [destruct (arg_noninteractive args);
                    [exists []; rewrite app_nil_r; split; reflexivity
                    |apply pick_window_interactively_prints]
                   |destruct Hchosen as (prints & Htr & Hprints);
                    destruct (m tr) as [[chosen|e] tr1]; cbn [snd] in Htr; subst tr1;
                    [|discriminate]]
               end
           end.
           destruct (kCGWindowNumber chosen) as [wid|].
           ++ destruct (temp_dir env "window-ocr-") as [td|e]; [|discriminate].
              unfold screencapture_window. run.
              destruct (screencapture env wid (td ++ lit "/capture.png")) as [e|].
              ** destruct (is_CalledProcessError e); [|discriminate]. cbn [negb].
                 intros H. injection H as <- <-. eexists.
                 split; [rewrite <- !app_assoc; reflexivity|].
                 now apply capture_failed.
              ** cbn [negb]. intros H.
                 eapply ocr_and_copy_progress
                   with (before := prints ++ [Screencapture wid (td ++ lit "/capture.png")]).
                 --- rewrite forallb_app. cbn. rewrite andb_true_r.
                     rewrite forallb_forall in Hprints |- *. intros ev Hin.
                     now rewrite (Hprints ev Hin).
                 --- rewrite app_assoc. exact H.
           ++ run. intros H. injection H as <- <-. eexists.
              split; [rewrite <- app_assoc; reflexivity|].
              apply stopped_early; [cbn; auto|].
              rewrite forallb_app, Hprints. reflexivity.
      * destruct (is_Exception e); [|discriminate].
        intros H. injection H as <- <-. eexists. split; [reflexivity|].
        apply stopped_early; [cbn; auto|reflexivity].
Qed.

(** X15. The exit code of the window-capture utility tells how far it
    got.  It returns 0, 2, 3, 4, 5, 6 or 7.  The capture utility has
    been run only if the code is 0, 6 or 7, a backend has been called
    only if it is 0 or 7, and the clipboard has been written only if it
    is 0; code 0 is returned only after the clipboard was written, and
    what is written is not empty and has no white space at its ends. *)
Theorem window_utility_exit_code_tells_progress (env : Env) (args : Args) (tr added : trace) (code : Z) :
  main env args tr = (Ok code, tr ++ added) ->
  In code [0; 2; 3; 4; 5; 6; 7]%Z
  /\ (forall wid path, In (Screencapture wid path) added -> In code [0; 6; 7]%Z)
  /\ (forall c, In (Recognize c) added -> In code [0; 7]%Z)
  /\ (forall t, In (Pbcopy t) added -> code = 0%Z /\ t <> [] /\ strip t = t)
  /\ (code = 0%Z -> exists t, In (Pbcopy t) added).
Proof.
  intros H. apply main_progress in H as (added' & Heq & Hp).
  apply app_inv_head in Heq. subst added'.
  destruct Hp as [code prints Hcode Hprints|prints wid p m Hprints
                 |before recs Hbefore Hrecs|before recs text Hbefore Hrecs Hne Htrim].
  - split; [cbn in Hcode |- *; tauto|]. split; [|split; [|split]].
    + intros wid p Hin. now apply (forallb_In _ _ _ Hprints) in Hin.
    + intros c Hin. now apply (forallb_In _ _ _ Hprints) in Hin.
    + intros t Hin. now apply (forallb_In _ _ _ Hprints) in Hin.
    + intros ->. cbn in Hcode. lia.
  - split; [cbn; tauto|]. split; [|split; [|split]].
    + intros _ _ _. cbn; tauto.
    + intros c Hin. apply in_app_or in Hin as [Hin|[Hin|[Hin|[]]]]; try discriminate.
      now apply (forallb_In _ _ _ Hprints) in Hin.
    + intros t Hin. apply in_app_or in Hin as [Hin|[Hin|[Hin|[]]]]; try discriminate.
      now apply (forallb_In _ _ _ Hprints) in Hin.
    + discriminate.
  - split; [cbn; tauto|]. split; [|split; [|split]].
    + intros _ _ _. cbn; tauto.
    + intros _ _. cbn; tauto.
    + intros t Hin. apply in_app_or in Hin as [Hin|Hin].
      * now apply (forallb_In _ _ _ Hbefore) in Hin.
      * apply in_app_or in Hin as [Hin|[Hin|[]]]; [|discriminate].
        now apply (forallb_In _ _ _ Hrecs) in Hin.
    + discriminate.
  - split; [cbn; tauto|]. split; [|split; [|split]].
    + intros _ _ _. cbn; tauto.
    + intros _ _. cbn; tauto.
    + intros t Hin. apply in_app_or in Hin as [Hin|Hin].
      * now apply (forallb_In _ _ _ Hbefore) in Hin.
      * apply in_app_or in Hin as [Hin|[Hin|[Hin|[]]]]; try discriminate.
        -- now apply (forallb_In _ _ _ Hrecs) in Hin.
        -- injection Hin as <-. auto.
    + intros _. exists text. apply in_or_app. right. apply in_or_app. right. now left.
Qed.

(** X16. The interrupt signal is not an [Exception]: raised during the
    livetext attempt it is not swallowed and starts no fallback; it
    leaves [run_ocr_pipeline], whether the framework is [auto] or
    [livetext], after the one backend call. *)
Theorem interrupt_during_livetext_is_not_swallowed (env : Env) (img_path framework_choice
    level : str) (langs : list str) (tr : trace) :
  framework_choice = lit "auto" \/ framework_choice = lit "livetext" ->
  recognize env (livetext_call img_path) = Raise KeyboardInterrupt ->
  run_ocr_pipeline env img_path framework_choice level langs tr
  = (Raise KeyboardInterrupt, tr ++ [Recognize (livetext_call img_path)]).
Proof.
  intros Hfw Hrec. unfold run_ocr_pipeline.
  assert (Hb : str_eqb framework_choice (lit "auto")
               || str_eqb framework_choice (lit "livetext") = true)
    by (destruct Hfw as [->| ->]; reflexivity).
  rewrite Hb. unfold bind, try_except. rewrite ocr_image_to_text_livetext.
  unfold attempt. rewrite Hrec. reflexivity.
Qed.

End WindowUtilityMore.

(* ----------------------------------------------------------------- *)
(** ** Which window the window-capture utility captures *)

Section CapturedWindow.
Context {U : Unicode}.
Import window_ocrmac.

Definition is_screencapture (ev : event) : bool :=
  match ev with Screencapture _ _ => true | _ => false end.

(** The block ["OCR + clipboard"] runs no capture, however it ends. *)
Lemma ocr_and_copy_no_capture env args img_path tr :
  exists added,
    snd (ocr_and_copy env args img_path tr) = tr ++ added
    /\ forallb (fun ev => negb (is_screencapture ev)) added = true.
Proof.
  unfold ocr_and_copy. unfold bind at 1.
  destruct (run_ocr_pipeline_outcome env img_path (arg_framework args) (arg_level args)
              (langs_of args) tr) as (recs & Htr & Hrecs & _).
  assert (Hnc : forallb (fun ev => negb (is_screencapture ev)) recs = true).
  { rewrite forallb_forall in Hrecs |- *. intros ev Hin. specialize (Hrecs ev Hin).
    destruct ev; try discriminate; reflexivity. }
  destruct (run_ocr_pipeline env img_path (arg_framework args) (arg_level args)
              (langs_of args) tr) as [[text|e] tr1]; cbn [snd] in Htr; subst tr1;
    [|exists recs; split; [reflexivity|exact Hnc]].
  destruct (negb (truthy (strip text))).
  - run. exists (recs ++ [Print MsgNoTextRecognized]).
    split; [now rewrite app_assoc|]. rewrite forallb_app, Hnc. reflexivity.
  - unfold copy_to_clipboard, print_ok_preview. run.
    destruct (pbcopy env text) as [e|].
    + exists (recs ++ [Pbcopy text]).
      split; [now rewrite app_assoc|]. rewrite forallb_app, Hnc. reflexivity.
    + exists (recs ++ [Pbcopy text; Print (MsgOcrOk (length text) (preview_of text))]).
      split; [rewrite <- !app_assoc; reflexivity|]. rewrite forallb_app, Hnc. reflexivity.
Qed.

Lemma pick_window_interactively_member env windows tr w :
  fst (pick_window_interactively env windows tr) = Ok w -> In w windows.
Proof.
  unfold pick_window_interactively. destruct windows as [|w0 windows]; [discriminate|].
  run.
  destruct (read_selection_outcome (w0 :: windows) (stdin env)
              (tr ++ [Print (MsgSelectWindow (w0 :: windows))])) as (k & _ & _ & Hres).
  intros H. rewrite H in Hres. destruct Hres as (raw & idx & _ & _ & Hnth).
  eapply nth_error_In, Hnth.
Qed.

(** The window a capture is made of. *)
Record captured_window (env : Env) (args : Args) (wid : Z) (path : str) : Prop := {
  captured_in_window_mode : given (arg_image args) = false;
  captured_is_filtered :
    exists wins w,
      window_list env = Ok wins
      /\ In w (filter_windows wins (arg_app args) (arg_title args))
      /\ kCGWindowNumber w = Some wid
      /\ (arg_noninteractive args = true ->
          hd_error (filter_windows wins (arg_app args) (arg_title args)) = Some w);
  captured_to_temp_dir :
    exists td, temp_dir env "window-ocr-" = Ok td /\ path = td ++ lit "/capture.png"
}.

Ltac no_capture Hin :=
  exfalso;
  repeat (apply in_app_or in Hin as [Hin|Hin]);
  repeat match goal with
         | H : In _ (_ :: _) |- _ => destruct H as [H|H]; [discriminate H|]
         | H : In _ [] |- _ => destruct H
         | Hp : forallb _ ?l = true, H : In _ ?l |- _ =>
             rewrite forallb_forall in Hp; specialize (Hp _ H); discriminate Hp
         end.

(** X17. The window-capture utility captures nothing when it is given
    an image file, and otherwise at most one window, which has passed
    the filters: the first window that passed them when the run is
    non-interactive, and a window of the listed ones otherwise.  The
    capture goes to capture.png in the temporary directory. *)
Theorem window_utility_captures_a_filtered_window (env : Env) (args : Args)
    (tr added : trace) (wid : Z) (path : str) :
  snd (main env args tr) = tr ++ added ->
  In (Screencapture wid path) added ->
  captured_window env args wid path.
Proof.
  unfold main. fold (langs_of args).
  destruct (given (arg_image args)) eqn:Himg.
  - destruct (path_exists env (abspath env (or_empty (arg_image args)))); cbn [negb].
    + destruct (ocr_and_copy_no_capture env args
                  (abspath env (or_empty (arg_image args))) tr) as (added' & Htr & Hnc).
      unfold ocr_and_copy in Htr. fold (langs_of args). rewrite Htr.
      intros H Hin. apply app_inv_head in H. subst added'. no_capture Hin.
    + run. intros H Hin. apply app_inv_head in H. subst added. no_capture Hin.
  - destruct (negb (given (arg_app args) || given (arg_title args)) && arg_noninteractive args).
    { run. intros H Hin. apply app_inv_head in H. subst added. no_capture Hin. }
    unfold list_on_screen_windows. run.
    destruct (window_list env) as [wins|e] eqn:Hwl.
    2: { destruct (is_Exception e); cbn [snd]; intros H Hin.
         - apply app_inv_head in H. subst added. no_capture Hin.
         - rewrite <- (app_nil_r tr) in H at 1. apply app_inv_head in H. subst added.
           destruct Hin. }
    destruct (filter_windows wins (arg_app args) (arg_title args)) as [|first rest] eqn:Hf.
    { cbn [snd]. intros H Hin. apply app_inv_head in H. subst added. no_capture Hin. }
    match goal with
    | |- context [?m tr] =>
        match m with
        | (if arg_noninteractive args then _ else _) =>
            assert (Hchosen : exists prints,
                      snd (m tr) = tr ++ prints /\ forallb is_print prints = true
                      /\ forall w, fst (m tr) = Ok w ->
                           In w (first :: rest)
                           /\ (arg_noninteractive args = true -> w = first));
            [destruct (arg_noninteractive args);
             [exists []; rewrite app_nil_r; split; [reflexivity|split; [reflexivity|]];
              cbn [fst]; intros w Hw; injection Hw as <-; split; [now left|reflexivity]
             |destruct (pick_window_interactively_prints env (first :: rest) tr)
                as (prints & Htr & Hprints);
              exists prints; split; [exact Htr|split; [exact Hprints|]];
              intros w Hw; split; [eapply pick_window_interactively_member, Hw|discriminate]]
            |destruct Hchosen as (prints & Htr & Hprints & Hmem);
             destruct (m tr) as [[chosen|e] tr1]; cbn [fst snd] in Htr, Hmem; subst tr1]
        end
    end.
    2: { cbn [snd]. intros H Hin. apply app_inv_head in H. subst added. no_capture Hin. }
    destruct (Hmem chosen eq_refl) as [Hin_chosen Hfirst]. clear Hmem.
    destruct (kCGWindowNumber chosen) as [wid0|] eqn:Hnum.
    2: { cbn [snd]. intros H Hin. rewrite <- app_assoc in H.
         apply app_inv_head in H. subst added. no_capture Hin. }
    destruct (temp_dir env "window-ocr-") as [td|e] eqn:Htd.
    2: { cbn [snd]. intros H Hin. apply app_inv_head in H. subst added. no_capture Hin. }
    assert (Hok : forall wid' path',
              Screencapture wid0 (td ++ lit "/capture.png") = Screencapture wid' path' ->
              captured_window env args wid' path').
    { intros wid' path' Heq. injection Heq as <- <-. constructor.
      - exact Himg.
      - exists wins, chosen. rewrite Hf. split; [exact Hwl|]. split; [exact Hin_chosen|].
        split; [exact Hnum|]. intros Hni. cbn [hd_error]. now rewrite (Hfirst Hni).
      - exists td. split; [exact Htd|reflexivity]. }
    unfold screencapture_window. run.
    destruct (screencapture env wid0 (td ++ lit "/capture.png")) as [e|].
    + destruct (is_CalledProcessError e); cbn [negb snd]; intros H Hin;
        rewrite <- ?app_assoc in H; apply app_inv_head in H; subst added;
        cbn [app] in Hin; (apply in_app_or in Hin as [Hin|Hin]; [no_capture Hin|]);
        (destruct Hin as [Hin|Hin]; [now apply Hok|no_capture Hin]).
    + cbn [negb].
      destruct (ocr_and_copy_no_capture env args (td ++ lit "/capture.png")
                  ((tr ++ prints) ++ [Screencapture wid0 (td ++ lit "/capture.png")]))
        as (added' & Htr & Hnc).
      intros H Hin.
      assert (H' : snd (ocr_and_copy env args (td ++ lit "/capture.png")
                          ((tr ++ prints) ++ [Screencapture wid0 (td ++ lit "/capture.png")]))
                   = tr ++ added) by exact H.
      clear H. rewrite Htr in H'. rewrite <- !app_assoc in H'.
      apply app_inv_head in H'. subst added.
      cbn [app] in Hin. apply in_app_or in Hin as [Hin|Hin]; [no_capture Hin|].
      destruct Hin as [Hin|Hin]; [now apply Hok|no_capture Hin].
Qed.

End CapturedWindow.

(* ----------------------------------------------------------------- *)
(** ** One run of the daemon, stage by stage *)

Section DaemonRun.
Context {U : Unicode}.
Import ocr_daemon.

(** The four operating-system calls of a run. *)
Inductive stage := Capture | Recognition | Clipboard | AfterCommand.

Definition stage_of (ev : event) : option stage :=
  match ev with
  | Screencapture _ _ => Some Capture
  | Recognize _ => Some Recognition
  | Pbcopy _ => Some Clipboard
  | Popen _ => Some AfterCommand
  | _ => None
  end.

(** The stages a trace went through, in order. *)
Fixpoint stages (evs : list event) : list stage :=
  match evs with
  | [] => []
  | ev :: evs' =>
      match stage_of ev with
      | Some s => s :: stages evs'
      | None => stages evs'
      end
  end.

Definition is_listener (ev : event) : bool :=
  match ev with ListenerStart _ | ListenerStop => true | _ => false end.

(** What a run may add to the trace. *)
Record run_shape (after_cmd : option str) (added : list event) : Prop := {
  shape_stages :
    exists n, stages added = firstn n [Capture; Recognition; Clipboard; AfterCommand];
  shape_listener : forallb (fun ev => negb (is_listener ev)) added = true;
  shape_clipboard : forall t, In (Pbcopy t) added -> t <> [] /\ strip t = t;
  shape_after :
    forall argv, In (Popen argv) added ->
      given after_cmd = true /\ argv = split 32%N (or_empty after_cmd)
}.

Ltac shape n :=
  constructor;
  [exists n; reflexivity
  |reflexivity
  |intros t Hin; cbn [In app] in Hin;
   repeat match goal with H : _ \/ _ |- _ => destruct H end;
   try discriminate; try contradiction;
   match goal with H : Pbcopy _ = Pbcopy _ |- _ => injection H as <- end;
   (split; [discriminate|assumption])
  |intros argv Hin; cbn [In app] in Hin;
   repeat match goal with H : _ \/ _ |- _ => destruct H end;
   try discriminate; try contradiction;
   match goal with H : Popen _ = Popen _ |- _ => injection H as <- end;
   (split; [assumption|reflexivity])].

Lemma ocr_file_to_text_calls env img_path cfg tr :
  exists recs,
    snd (ocr_core.ocr_file_to_text env img_path cfg tr) = tr ++ recs
    /\ (recs = [] \/ exists c, recs = [Recognize c]).
Proof.
  unfold ocr_core.ocr_file_to_text, ocr_core.load_and_crop. run.
  destruct (open_image env img_path) as [img|e];
    [|exists []; rewrite app_nil_r; split; [reflexivity|now left]].
  destruct (ocr_core.crop_by img (ocr_core.crop_norm cfg)) as [img'|e];
    [|exists []; rewrite app_nil_r; split; [reflexivity|now left]].
  unfold ocr_core.ocr_image_to_text. unfold bind at 1.
  match goal with
  | |- context [(if ?b then ?x else ?y) tr] =>
      assert (Hc : exists c, (if b then x else y) = ocr_core.OCR_recognize env c)
  end.
  { destruct (str_eqb _ _); [eexists; reflexivity|].
    destruct (filter _ _); eexists; reflexivity. }
  destruct Hc as [c ->].
  pose proof (OCR_recognize_trace env c tr) as Htr.
  destruct (ocr_core.OCR_recognize env c tr) as [[anns|e] tr'];
    cbn [snd] in Htr; subst tr'; exists [Recognize c]; (split; [reflexivity|right; now exists c]).
Qed.

Lemma run_once_shape env app title cfg after_cmd tr :
  exists added,
    snd (run_once env app title cfg after_cmd tr) = tr ++ added
    /\ run_shape after_cmd added.
Proof.
  unfold run_once, pick_window_id, list_windows. run.
  destruct (window_list env) as [wins|e];
    [|exists []; rewrite app_nil_r; split; [reflexivity|shape 0%nat]].
  destruct (pick_window_id_loop _ _ wins) as [wid|];
    [|eexists; split; [reflexivity|shape 0%nat]].
  destruct (temp_dir env "migaku-ocr-") as [td|e];
    [|exists []; rewrite app_nil_r; split; [reflexivity|shape 0%nat]].
  unfold screencapture_window. run.
  destruct (screencapture env wid (td ++ lit "/cap.png")) as [e|].
  { destruct (is_CalledProcessError e); cbn [negb];
      eexists; (split; [rewrite <- ?app_assoc; reflexivity|shape 1%nat]). }
  cbn [negb].
  destruct (ocr_file_to_text_calls env (td ++ lit "/cap.png") cfg
              (tr ++ [Screencapture wid (td ++ lit "/cap.png")])) as (recs & Htr & Hrecs).
  destruct (ocr_core.ocr_file_to_text env (td ++ lit "/cap.png") cfg
              (tr ++ [Screencapture wid (td ++ lit "/cap.png")]))
    as [[text|e] tr1] eqn:Hocr; cbn [snd] in Htr.
  - apply ocr_file_to_text_Ok in Hocr as (Htrim & c & ->).
    rewrite Htrim. destruct text as [|ch text]; cbn [truthy negb].
    + eexists. split; [rewrite <- !app_assoc; reflexivity|shape 2%nat].
    + unfold ocr_core.copy_to_clipboard. run.
      destruct (pbcopy env (ch :: text)) as [e|].
      * eexists. split; [rewrite <- !app_assoc; reflexivity|shape 3%nat].
      * destruct (given after_cmd) eqn:Hafter.
        -- destruct (popen env (split 32%N (or_empty after_cmd))) as [e|];
             (eexists; split; [rewrite <- !app_assoc; reflexivity|shape 4%nat]).
        -- eexists. split; [rewrite <- !app_assoc; reflexivity|shape 3%nat].
  - subst tr1. destruct Hrecs as [->|[c ->]];
      eexists; (split; [rewrite <- !app_assoc; reflexivity|]); [shape 1%nat|shape 2%nat].
Qed.

(** X18. In every run of the daemon the operating-system calls are made
    in one order, each at most once, and each only after the one before
    it went through: the capture, one backend call, the clipboard
    write, the launch of the after-command.  The clipboard never
    receives empty text or text with white space at its ends, and the
    command launched is the configured one, split at its spaces. *)
Theorem run_once_goes_through_stages_in_order (env : Env) (app : str) (title : option str)
    (cfg : ocr_core.OCRConfig) (after_cmd : option str) (tr : trace) :
  exists added,
    snd (run_once env app title cfg after_cmd tr) = tr ++ added
    /\ (exists n, stages added = firstn n [Capture; Recognition; Clipboard; AfterCommand])
    /\ (forall t, In (Pbcopy t) added -> t <> [] /\ strip t = t)
    /\ (forall argv, In (Popen argv) added ->
          given after_cmd = true /\ argv = split 32%N (or_empty after_cmd)).
Proof.
  destruct (run_once_shape env app title cfg after_cmd tr) as (added & Htr & [H1 _ H3 H4]).
  exists added. auto.
Qed.

End DaemonRun.

(* ----------------------------------------------------------------- *)
(** ** The life of the daemon *)

Section DaemonLife.
Context {U : Unicode}.
Import ocr_daemon.

(** The wake-ups are served one after the other: what a queue does is
    what its first part does, followed, if that raised nothing, by what
    the rest does. *)
Lemma serve_app args cfg q1 q2 tr :
  serve args cfg (q1 ++ q2) tr
  = match serve args cfg q1 tr with
    | (Ok _, tr') => serve args cfg q2 tr'
    | (Raise e, tr') => (Raise e, tr')
    end.
Proof.
  revert tr. induction q1 as [|[env|] q1 IH]; intros tr; cbn [app serve].
  - reflexivity.
  - unfold bind.
    destruct (run_once env (arg_app args) (arg_title args) cfg (arg_after args) tr)
      as [[[]|e] tr1]; [apply IH|reflexivity].
  - reflexivity.
Qed.

(** The loop itself starts and stops no listener. *)
Lemma serve_no_listener args cfg queue tr :
  exists added,
    snd (serve args cfg queue tr) = tr ++ added
    /\ forallb (fun ev => negb (is_listener ev)) added = true.
Proof.
  revert tr. induction queue as [|[env|] queue IH]; intros tr; cbn [serve].
  - exists []. rewrite app_nil_r. split; reflexivity.
  - unfold bind.
    destruct (run_once_shape env (arg_app args) (arg_title args) cfg (arg_after args) tr)
      as (added & Htr & [_ Hl _ _]).
    destruct (run_once env (arg_app args) (arg_title args) cfg (arg_after args) tr)
      as [[[]|e] tr1]; cbn [snd] in Htr; subst tr1.
    + destruct (IH (tr ++ added)) as (added' & Htr' & Hl').
      exists (added ++ added'). rewrite Htr', app_assoc. split; [reflexivity|].
      rewrite forallb_app, Hl, Hl'. reflexivity.
    + exists added. split; [reflexivity|exact Hl].
  - exists []. rewrite app_nil_r. split; reflexivity.
Qed.

(** The three events of a start that went through. *)
Definition started (args : Args) : trace :=
  [Print (MsgDaemonRunning (arg_hotkey args));
   Print (MsgDaemonWatching (arg_app args));
   ListenerStart (arg_hotkey args)].

Lemma main_started register_hotkey args crop queue :
  register_hotkey (arg_hotkey args) = None ->
  ocr_core.crop_option (arg_crop args) = Ok crop ->
  main register_hotkey args queue
  = match serve args (daemon_config args crop) queue (started args) with
    | (Ok _, tr) => (Idle, tr)
    | (Raise KeyboardInterrupt, tr) => (Exited 0, tr ++ [ListenerStop])
    | (Raise e, tr) => (Died e, tr ++ [ListenerStop])
    end.
Proof.
  intros Hreg Hcrop. unfold main. rewrite Hcrop. fold (daemon_config args crop).
  run. rewrite Hreg. reflexivity.
Qed.

(** X19. The interrupt signal ends the daemon in good order.  Arriving
    while the daemon waits, after runs that returned, it makes [main]
    return 0 with the listener stopped; what the runs before it did
    stays done, and the triggers behind it are not served.  Raised
    inside a run, by the OCR, the clipboard write or the launch of the
    after-command, it ends the daemon in the same way. *)
Theorem interrupt_ends_daemon_with_code_0 (register_hotkey : str -> option exn) (args : Args)
    (crop : option ocr_core.rect) (before rest : list wakeup) :
  register_hotkey (arg_hotkey args) = None ->
  ocr_core.crop_option (arg_crop args) = Ok crop ->
  all_return args (daemon_config args crop) before ->
  main register_hotkey args (before ++ Interrupt :: rest)
    = (Exited 0, snd (main register_hotkey args before) ++ [ListenerStop])
  /\ fst (main register_hotkey args before) = Idle
  /\ forall env,
       unhandled_failure args (daemon_config args crop) env KeyboardInterrupt ->
       fst (main register_hotkey args (before ++ Trigger env :: rest)) = Exited 0.
Proof.
  intros Hreg Hcrop Hb.
  rewrite !(@main_started register_hotkey args crop _ Hreg Hcrop).
  pose proof (serve_returns Hb (started args)) as Hs.
  split; [|split].
  - rewrite serve_app.
    destruct (serve args (daemon_config args crop) before (started args)) as [[[]|e] tr1];
      cbn [fst] in Hs; [reflexivity|discriminate].
  - destruct (serve args (daemon_config args crop) before (started args)) as [[[]|e] tr1];
      cbn [fst] in Hs; [reflexivity|discriminate].
  - intros env Hun. rewrite (@main_started register_hotkey args crop _ Hreg Hcrop).
    pose proof (serve_unhandled rest (started args) Hb Hun) as Hr.
    destruct (serve args (daemon_config args crop) (before ++ Trigger env :: rest)
                (started args)) as [[[]|e] tr1]; cbn [fst] in Hr; [discriminate|].
    injection Hr as ->. reflexivity.
Qed.

(** X20. The listener is stopped exactly when the daemon ends after it
    had started it: then the stop is the last thing done and is done
    once.  While the daemon is alive nothing stops the listener, and a
    daemon that dies before its listener is running, on a rejected crop
    option or a hotkey that cannot be registered, stops none. *)
Theorem listener_stopped_exactly_at_the_end (register_hotkey : str -> option exn)
    (args : Args) (queue : list wakeup) :
  (In ListenerStop (snd (main register_hotkey args queue))
   <-> fst (main register_hotkey args queue) <> Idle
       /\ register_hotkey (arg_hotkey args) = None
       /\ exists crop, ocr_core.crop_option (arg_crop args) = Ok crop)
  /\ (In ListenerStop (snd (main register_hotkey args queue)) ->
      exists tr, snd (main register_hotkey args queue) = tr ++ [ListenerStop]
                 /\ ~ In ListenerStop tr).
Proof.
  destruct (ocr_core.crop_option (arg_crop args)) as [crop|e] eqn:Hcrop.
  2: { unfold main. rewrite Hcrop. cbn [fst snd]. split; [split|].
       - intros [].
       - intros (_ & _ & crop & H). discriminate.
       - intros []. }
  destruct (register_hotkey (arg_hotkey args)) as [e|] eqn:Hreg.
  { unfold main. rewrite Hcrop. run. rewrite Hreg. cbn [fst snd]. split; [split|].
    - cbn [In app]. intros [H|[H|[H|[]]]]; discriminate.
    - intros (_ & H & _). discriminate.
    - cbn [In app]. intros [H|[H|[H|[]]]]; discriminate. }
  rewrite (@main_started register_hotkey args crop queue Hreg Hcrop).
  destruct (serve_no_listener args (daemon_config args crop) queue (started args))
    as (added & Htr & Hl).
  assert (Hno : ~ In ListenerStop (started args ++ added)).
  { intros Hin. apply in_app_or in Hin as [Hin|Hin].
    - cbn in Hin. destruct Hin as [H|[H|[H|[]]]]; discriminate.
    - rewrite forallb_forall in Hl. specialize (Hl _ Hin). discriminate. }
  destruct (serve args (daemon_config args crop) queue (started args)) as [[[]|e] tr1];
    cbn [snd] in Htr; subst tr1.
  - cbn [fst snd]. split; [split|].
    + intros Hin. contradiction.
    + intros (H & _). congruence.
    + intros Hin. contradiction.
  - destruct e; cbn [fst snd]; rewrite <- app_assoc;
      (split; [split; [intros _; split; [discriminate|split; [reflexivity|now exists crop]]
                      |intros _; apply in_or_app; right; apply in_or_app; right; now left]
              |intros _; exists (started args ++ added);
               split; [now rewrite <- app_assoc|exact Hno]]).
Qed.

End DaemonLife.

(* ----------------------------------------------------------------- *)
(** ** The tab-focus script *)

Section TabFocus.
Context {U : Unicode}.
Import migaku_clipboard_focus.

Lemma lstrip_spaces_app l s :
  Forall (fun c => isspace c = true) l -> lstrip (l ++ s) = lstrip s.
Proof. induction 1 as [|c l Hc _ IH]; [reflexivity|]. cbn. now rewrite Hc. Qed.

(** [strip] takes the white space around a word away and nothing else. *)
Lemma strip_spaces_around l s r :
  Forall (fun c => isspace c = true) l ->
  Forall (fun c => isspace c = true) r ->
  space_opt (hd_error (s ++ r)) = false ->
  space_opt (hd_error (rev s)) = false ->
  strip (l ++ s ++ r) = s.
Proof.
  intros Hl Hr Hhead Hlast. unfold strip.
  rewrite (lstrip_spaces_app _ Hl), (lstrip_id _ Hhead).
  unfold rstrip. rewrite rev_app_distr.
  rewrite lstrip_spaces_app by now apply Forall_rev.
  rewrite (lstrip_id _ Hlast). apply rev_involutive.
Qed.

Lemma strip_NOT_FOUND l r :
  Forall (fun c => isspace c = true) l ->
  Forall (fun c => isspace c = true) r ->
  strip (l ++ lit "NOT_FOUND" ++ r) = lit "NOT_FOUND".
Proof.
  intros Hl Hr. apply strip_spaces_around; try assumption.
  - cbn. now rewrite ascii_space by reflexivity.
  - cbn. now rewrite ascii_space by reflexivity.
Qed.

(** X21. The exit code of the tab-focus script.  When what [osascript]
    printed is NOT_FOUND, white space around it aside, the script
    prints its advice and returns 2, whatever the exit status of
    [osascript] was.  Otherwise it returns that exit status, and writes
    the captured error output to standard error when the status is not
    0.  So it returns 0 exactly when the tab was not reported missing
    and [osascript] exited with 0. *)
Theorem focus_exit_code (osascript : str -> str -> result CompletedProcess) (args : Args)
    (res : CompletedProcess) :
  osascript (arg_browser args) (paste_flag args) = Ok res ->
  (forall l r,
     Forall (fun c => isspace c = true) l -> Forall (fun c => isspace c = true) r ->
     stdout res = Some (l ++ lit "NOT_FOUND" ++ r) ->
     main osascript args
     = (Ok 2%Z, [Osascript (arg_browser args) (paste_flag args); PrintTabNotFound]))
  /\ (strip (or_empty (stdout res)) <> lit "NOT_FOUND" ->
      main osascript args
      = (Ok (returncode res),
         Osascript (arg_browser args) (paste_flag args)
         :: (if (returncode res =? 0)%Z then []
             else [StderrWrite (or_empty (stderr res))])))
  /\ (fst (main osascript args) = Ok 0%Z
      <-> strip (or_empty (stdout res)) <> lit "NOT_FOUND" /\ returncode res = 0%Z).
Proof.
  intros Hrun. unfold main. rewrite Hrun. split; [|split].
  - intros l r Hl Hr Hout. rewrite Hout. cbn [or_empty].
    rewrite (strip_NOT_FOUND Hl Hr). reflexivity.
  - intros Hne.
    destruct (str_eqb _ (lit "NOT_FOUND")) eqn:Heq; [apply str_eqb_eq in Heq; contradiction|].
    destruct (returncode res =? 0)%Z eqn:Hrc; cbn [negb]; [|reflexivity].
    apply Z.eqb_eq in Hrc. now rewrite Hrc.
  - destruct (str_eqb _ (lit "NOT_FOUND")) eqn:Heq.
    + apply str_eqb_eq in Heq. cbn [fst]. split; [discriminate|]. intros [Hne _]. contradiction.
    + assert (Hne : strip (or_empty (stdout res)) <> lit "NOT_FOUND").
      { intros H. rewrite H in Heq. discriminate. }
      destruct (returncode res =? 0)%Z eqn:Hrc; cbn [negb fst].
      * apply Z.eqb_eq in Hrc. split; [now split|reflexivity].
      * apply Z.eqb_neq in Hrc. split; [intros H; injection H as H; contradiction|].
        intros [_ H]. contradiction.
Qed.

End TabFocus.

(* ----------------------------------------------------------------- *)
(** ** The preview line *)

(** X22. The preview printed after a copy fits on one line: it holds no
    line feed, each one of the text being written as a backslash and
    the letter n, and it is at most 401 characters long; a text of at
    most 200 characters without a line feed is shown as it is. *)
Theorem preview_is_one_line (text : str) :
  ~ In 10%N (preview_of text)
  /\ (length (preview_of text) <= 401)%nat
  /\ ((length text <= 200)%nat -> ~ In 10%N text -> preview_of text = text).
Proof.
  unfold preview_of. split; [|split].
  - intros Hin. apply in_app_or in Hin as [Hin|Hin].
    + apply in_flat_map in Hin as (c & _ & Hin).
      destruct (c =? 10)%N eqn:Hc.
      * destruct Hin as [H|[H|[]]]; discriminate.
      * destruct Hin as [H|[]]. subst c. discriminate.
    + destruct (200 <? length text)%nat; [|contradiction].
      destruct Hin as [H|[]]. discriminate.
  - rewrite length_app.
    assert (Hflat : forall l : str,
              (length (flat_map (fun c => if (c =? 10)%N then [92; 110]%N else [c]) l)
               <= 2 * length l)%nat).
    { induction l as [|c l IH]; [cbn; lia|]. cbn [flat_map]. rewrite length_app.
      destruct (c =? 10)%N; cbn [length]; lia. }
    specialize (Hflat (firstn 200 text)). rewrite length_firstn in Hflat.
    destruct (200 <? length text)%nat; cbn [length]; lia.
  - intros Hlen Hno.
    assert (Hlt : (200 <? length text)%nat = false) by (apply Nat.ltb_ge; exact Hlen).
    rewrite Hlt, app_nil_r, firstn_all2 by exact Hlen.
    clear Hlen Hlt. induction text as [|c text IH]; [reflexivity|].
    cbn [flat_map]. destruct (c =? 10)%N eqn:Hc.
    + apply N.eqb_eq in Hc. subst c. exfalso. apply Hno. now left.
    + cbn [app]. f_equal. apply IH. intros Hin. apply Hno. now right.
Qed.

(* ----------------------------------------------------------------- *)
(** ** Further concrete runs *)

Lemma cleanup_without_digits_witness :
  Forall (fun c => @isdecimal ascii_unicode c = false) (lit " Press  START ")
  /\ @cleanup_hud_text ascii_unicode (lit " Press  START ") = lit "Press START".
Proof.
  assert (H : Forall (fun c => @isdecimal ascii_unicode c = false) (lit " Press  START "))
    by (repeat constructor).
  split; [exact H|].
  rewrite (@cleanup_without_digits ascii_unicode (lit " Press  START ") H).
  reflexivity.
Defined.

(** The vision backend sees a line with an overlay token in it. *)
Lemma recognized_text_is_trimmed_witness :
  @ocr_core.ocr_file_to_text ascii_unicode
    (host two_windows (sees " Hello 60FPS ") None None None)
    (lit "shot.png") (vision_config []) []
  = (Ok (lit "Hello"), [Recognize (VisionCall (FromImage blank_image) (lit "fast") None)])
  /\ @strip ascii_unicode (lit "Hello") = lit "Hello".
Proof.
  assert (H : @ocr_core.ocr_file_to_text ascii_unicode
                (host two_windows (sees " Hello 60FPS ") None None None)
                (lit "shot.png") (vision_config []) []
              = (Ok (lit "Hello"),
                 [Recognize (VisionCall (FromImage blank_image) (lit "fast") None)]))
    by (vm_compute; reflexivity).
  split; [exact H|].
  exact (proj1 (@recognized_text_is_trimmed ascii_unicode _ _ _ _ _ _ H)).
Defined.

Lemma parse_crop_coordinates_finite_witness :
  @ocr_core.parse_crop ascii_unicode (lit "0, 0.62 ,1,0.95")
  = Ok (S754_zero false, S754_finite false 5584463537939415 (-53),
        S754_finite false 4503599627370496 (-52), S754_finite false 8556839292003942 (-53))
  /\ finite_pos (S754_finite false 8556839292003942 (-53)).
Proof.
  assert (H : @ocr_core.parse_crop ascii_unicode (lit "0, 0.62 ,1,0.95")
              = Ok (S754_zero false, S754_finite false 5584463537939415 (-53),
                    S754_finite false 4503599627370496 (-52),
                    S754_finite false 8556839292003942 (-53)))
    by (vm_compute; reflexivity).
  split; [exact H|].
  exact (proj2 (proj2 (proj2 (@parse_crop_coordinates_finite ascii_unicode _ _ _ _ _ H)))).
Defined.

Lemma single_shot_exit_code_tells_outcome_witness :
  @ocr_core.main ascii_unicode quiet_host shot_args []
  = (Ok 3%Z, [Recognize (LiveText (FromImage blank_image)); Print MsgNoTextRecognized])
  /\ path_exists quiet_host (abspath quiet_host (ocr_core.arg_image shot_args)) = true.
Proof.
  assert (H : @ocr_core.main ascii_unicode quiet_host shot_args []
              = (Ok 3%Z, [Recognize (LiveText (FromImage blank_image));
                          Print MsgNoTextRecognized]))
    by reflexivity.
  split; [exact H|].
  destruct (@single_shot_exit_code_tells_outcome ascii_unicode _ _ _ _ _ H)
    as [(Hcode & _)|(Hexists & _)]; [discriminate Hcode|exact Hexists].
Defined.

(** The daemon, started with a crop rectangle whose x0 is right of x1. *)
Definition bad_crop_args : ocr_daemon.Args :=
  {| ocr_daemon.arg_app := lit "DuckStation";
     ocr_daemon.arg_title := None;
     ocr_daemon.arg_hotkey := lit "<cmd>+<shift>+o";
     ocr_daemon.arg_framework := lit "livetext";
     ocr_daemon.arg_level := lit "fast";
     ocr_daemon.arg_lang := lit "ja-JP";
     ocr_daemon.arg_extra_lang := [];
     ocr_daemon.arg_crop := Some (lit "0.5,0.1,0.3,0.9");
     ocr_daemon.arg_no_cleanup := false;
     ocr_daemon.arg_after := None |}.

Lemma rejected_crop_stops_before_any_work_witness :
  truthy (lit "0.5,0.1,0.3,0.9") = true
  /\ @ocr_core.parse_crop ascii_unicode (lit "0.5,0.1,0.3,0.9")
     = Raise (ValueError "crop must satisfy 0<=x0<x1<=1 and 0<=y0<y1<=1")
  /\ @ocr_daemon.main ascii_unicode hotkey_registered bad_crop_args
       [ocr_daemon.Trigger quiet_host]
     = (ocr_daemon.Died (ValueError "crop must satisfy 0<=x0<x1<=1 and 0<=y0<y1<=1"), []).
Proof.
  assert (H1 : truthy (lit "0.5,0.1,0.3,0.9") = true) by reflexivity.
  assert (H2 : @ocr_core.parse_crop ascii_unicode (lit "0.5,0.1,0.3,0.9")
               = Raise (ValueError "crop must satisfy 0<=x0<x1<=1 and 0<=y0<y1<=1"))
    by (vm_compute; reflexivity).
  split; [exact H1|split; [exact H2|]].
  exact (proj2 (@rejected_crop_stops_before_any_work ascii_unicode _ _ H1 H2)
           hotkey_registered bad_crop_args [ocr_daemon.Trigger quiet_host] eq_refl).
Defined.

Lemma daemon_picks_among_filtered_windows_witness :
  lit "duck" <> []
  /\ window_list quiet_host = Ok two_windows
  /\ @ocr_daemon.pick_window_id ascii_unicode quiet_host (lit "duck") None []
     = (Ok (number_of
              (find (fun w => (layer_of w =? 0)%Z && has_number w)
                    (@window_ocrmac.filter_windows ascii_unicode two_windows
                       (Some (lit "duck")) None))), []).
Proof.
  assert (H : lit "duck" <> []) by discriminate.
  split; [exact H|split; [reflexivity|]].
  exact (@daemon_picks_among_filtered_windows ascii_unicode quiet_host (lit "duck") None
           two_windows [] H eq_refl).
Defined.

Lemma pipeline_text_is_trimmed_witness :
  @window_ocrmac.run_ocr_pipeline ascii_unicode
    (host two_windows (sees " abc ") None None None)
    (lit "shot.png") (lit "livetext") (lit "accurate") [lit "ja-JP"] []
  = (Ok (lit "abc"), [Recognize (livetext_call (lit "shot.png"))])
  /\ @strip ascii_unicode (lit "abc") = lit "abc".
Proof.
  assert (H : @window_ocrmac.run_ocr_pipeline ascii_unicode
                (host two_windows (sees " abc ") None None None)
                (lit "shot.png") (lit "livetext") (lit "accurate") [lit "ja-JP"] []
              = (Ok (lit "abc"), [Recognize (livetext_call (lit "shot.png"))]))
    by reflexivity.
  split; [exact H|].
  exact (proj1 (@pipeline_text_is_trimmed ascii_unicode _ _ _ _ _ _ _ _ H)).
Defined.

Lemma window_utility_exit_code_tells_progress_witness :
  @window_ocrmac.main ascii_unicode (host two_windows livetext_breaks None None None)
    (capture_args "livetext") []
  = (Ok 7%Z, [] ++ [Recognize (livetext_call (lit "shot.png")); Print MsgNoTextRecognized])
  /\ In 7%Z [0; 2; 3; 4; 5; 6; 7]%Z.
Proof.
  assert (H : @window_ocrmac.main ascii_unicode
                (host two_windows livetext_breaks None None None)
                (capture_args "livetext") []
              = (Ok 7%Z, [] ++ [Recognize (livetext_call (lit "shot.png"));
                                Print MsgNoTextRecognized]))
    by reflexivity.
  split; [exact H|].
  exact (proj1 (@window_utility_exit_code_tells_progress ascii_unicode _ _ _ _ _ H)).
Defined.

(** The window-capture utility, told to take the first DuckStation
    window without asking: that is the overlay. *)
Definition window_args : window_ocrmac.Args :=
  {| window_ocrmac.arg_image := None;
     window_ocrmac.arg_app := Some (lit "duck");
     window_ocrmac.arg_title := None;
     window_ocrmac.arg_noninteractive := true;
     window_ocrmac.arg_framework := lit "livetext";
     window_ocrmac.arg_level := lit "accurate";
     window_ocrmac.arg_lang := lit "ja-JP";
     window_ocrmac.arg_extra_lang := [] |}.

Lemma window_utility_captures_a_filtered_window_witness :
  snd (@window_ocrmac.main ascii_unicode quiet_host window_args [])
  = [] ++ [Screencapture 7 (lit "/tmp/ocr/capture.png");
           Recognize (livetext_call (lit "/tmp/ocr/capture.png"));
           Print MsgNoTextRecognized]
  /\ In (Screencapture 7 (lit "/tmp/ocr/capture.png"))
        [Screencapture 7 (lit "/tmp/ocr/capture.png");
         Recognize (livetext_call (lit "/tmp/ocr/capture.png"));
         Print MsgNoTextRecognized]
  /\ given (window_ocrmac.arg_image window_args) = false.
Proof.
  assert (H : snd (@window_ocrmac.main ascii_unicode quiet_host window_args [])
              = [] ++ [Screencapture 7 (lit "/tmp/ocr/capture.png");
                       Recognize (livetext_call (lit "/tmp/ocr/capture.png"));
                       Print MsgNoTextRecognized])
    by reflexivity.
  assert (Hin : In (Screencapture 7 (lit "/tmp/ocr/capture.png"))
                  [Screencapture 7 (lit "/tmp/ocr/capture.png");
                   Recognize (livetext_call (lit "/tmp/ocr/capture.png"));
                   Print MsgNoTextRecognized])
    by (left; reflexivity).
  split; [exact H|split; [exact Hin|]].
  destruct (@window_utility_captures_a_filtered_window ascii_unicode quiet_host window_args
              [] _ 7%Z (lit "/tmp/ocr/capture.png") H Hin) as [Hmode _ _].
  exact Hmode.
Defined.

(** The interrupt signal arrives while the engine is at work. *)
Definition interrupted : ocr_call -> result (list annotation) :=
  fun _ => Raise KeyboardInterrupt.

Lemma interrupt_during_livetext_is_not_swallowed_witness :
  (lit "auto" = lit "auto" \/ lit "auto" = lit "livetext")
  /\ recognize (host two_windows interrupted None None None) (livetext_call (lit "shot.png"))
     = Raise KeyboardInterrupt
  /\ @window_ocrmac.run_ocr_pipeline ascii_unicode
       (host two_windows interrupted None None None)
       (lit "shot.png") (lit "auto") (lit "accurate") [lit "ja-JP"] []
     = (Raise KeyboardInterrupt, [Recognize (livetext_call (lit "shot.png"))]).
Proof.
  assert (H : lit "auto" = lit "auto" \/ lit "auto" = lit "livetext") by (left; reflexivity).
  split; [exact H|split; [reflexivity|]].
  exact (@interrupt_during_livetext_is_not_swallowed ascii_unicode
           (host two_windows interrupted None None None)
           (lit "shot.png") (lit "auto") (lit "accurate") [lit "ja-JP"] [] H eq_refl).
Defined.

Lemma interrupt_ends_daemon_with_code_0_witness :
  hotkey_registered (ocr_daemon.arg_hotkey daemon_args) = None
  /\ @ocr_core.crop_option ascii_unicode (ocr_daemon.arg_crop daemon_args) = Ok None
  /\ @all_return ascii_unicode daemon_args (daemon_config daemon_args None)
       [ocr_daemon.Trigger no_game_host]
  /\ @ocr_daemon.main ascii_unicode hotkey_registered daemon_args
       [ocr_daemon.Trigger no_game_host; ocr_daemon.Interrupt; ocr_daemon.Trigger quiet_host]
     = (ocr_daemon.Exited 0,
        [Print (MsgDaemonRunning (lit "<cmd>+<shift>+o"));
         Print (MsgDaemonWatching (lit "DuckStation"));
         ListenerStart (lit "<cmd>+<shift>+o");
         Print (MsgDaemonNoWindow (lit "DuckStation") []);
         ListenerStop]).
Proof.
  assert (Hb : @all_return ascii_unicode daemon_args
                 (daemon_config daemon_args None)
                 [ocr_daemon.Trigger no_game_host]).
  { constructor; [|constructor]. exists no_game_host. split; [reflexivity|].
    apply handled_run_returns. left. exists [overlay_window]. split; reflexivity. }
  split; [reflexivity|split; [reflexivity|split; [exact Hb|]]].
  exact (proj1 (@interrupt_ends_daemon_with_code_0 ascii_unicode hotkey_registered
                  daemon_args None [ocr_daemon.Trigger no_game_host]
                  [ocr_daemon.Trigger quiet_host] eq_refl eq_refl Hb)).
Defined.

(** The browser has no Migaku Clipboard tab: [osascript] prints
    NOT_FOUND and a line feed, and exits with status 0. *)
Definition tab_missing : str -> str -> result migaku_clipboard_focus.CompletedProcess :=
  fun _ _ =>
    Ok {| migaku_clipboard_focus.stdout := Some (lit "NOT_FOUND" ++ [10%N]);
          migaku_clipboard_focus.stderr := Some [];
          migaku_clipboard_focus.returncode := 0 |}.

Definition focus_args : migaku_clipboard_focus.Args :=
  {| migaku_clipboard_focus.arg_browser := lit "Google Chrome";
     migaku_clipboard_focus.arg_paste := true |}.

Lemma focus_exit_code_witness :
  tab_missing (migaku_clipboard_focus.arg_browser focus_args)
    (migaku_clipboard_focus.paste_flag focus_args)
  = Ok {| migaku_clipboard_focus.stdout := Some (lit "NOT_FOUND" ++ [10%N]);
          migaku_clipboard_focus.stderr := Some [];
          migaku_clipboard_focus.returncode := 0 |}
  /\ @migaku_clipboard_focus.main ascii_unicode tab_missing focus_args
     = (Ok 2%Z, [migaku_clipboard_focus.Osascript (lit "Google Chrome") (lit "1");
                 migaku_clipboard_focus.PrintTabNotFound]).
Proof.
  assert (H : tab_missing (migaku_clipboard_focus.arg_browser focus_args)
                (migaku_clipboard_focus.paste_flag focus_args)
              = Ok {| migaku_clipboard_focus.stdout := Some (lit "NOT_FOUND" ++ [10%N]);
                      migaku_clipboard_focus.stderr := Some [];
                      migaku_clipboard_focus.returncode := 0 |})
    by reflexivity.
  assert (Hl : Forall (fun c => @isspace ascii_unicode c = true) []) by constructor.
  assert (Hr : Forall (fun c => @isspace ascii_unicode c = true) [10%N])
    by (repeat constructor).
  split; [exact H|].
  exact (proj1 (@focus_exit_code ascii_unicode tab_missing focus_args _ H)
           [] [10%N] Hl Hr eq_refl).
Defined.
